(** * seo-audit: content readability and keyword analysis

    A shallow embedding of the two analyzers of the repository that carry
    its algorithmic work, [src/analyzers/keywordAnalyzer.ts] and the content
    analyzer ([analyzeContent], [calculateMetrics], [countWordSyllables]),
    together with the part of the JavaScript runtime they call: strings,
    regular expressions, insertion-ordered sets and binary64 numbers.
    The other analyzers follow: the title and the meta description, the
    headings, the images, the links and the report of the Lighthouse
    scores.

    The definitions come first (the runtime model, then the repository's
    functions in source order), the lemmas and theorems after them. *)

From Stdlib Require Import Ascii String Bool Arith PeanoNat NArith ZArith Lia List.
From Stdlib Require Import Permutation.
From Stdlib Require Import Floats.SpecFloat.
Import ListNotations.

(* ===================================================================== *)
(** * Part I. The JavaScript runtime the analyzers rely on               *)
(* ===================================================================== *)

(** ** Strings

    A JavaScript string is a sequence of UTF-16 code units.  The model keeps
    the code units below 256 (ASCII and Latin-1): on that range
    [toLowerCase], the white space class of [\s] and [trim], the word
    characters of [\w] and [\b], and the case folding of the [i] flag are
    given in full, and the range is closed under every operation the
    analyzers apply. *)

Module JSString.

Definition jsstring := list ascii.

(** [js "text"] is the string whose code units are the bytes of the literal. *)
Definition js (s : string) : jsstring := list_ascii_of_string s.

Definition code (c : ascii) : N := N_of_ascii c.

Definition between (lo hi n : N) : bool := (N.leb lo n && N.leb n hi)%bool.

Definition eqb_string (a b : jsstring) : bool :=
  if list_eq_dec ascii_dec a b then true else false.

(** WhiteSpace and LineTerminator of ECMA-262 below 256: TAB, LF, VT, FF,
    CR, SPACE and NO-BREAK SPACE.  [\s] and [trim] use the same set. *)
Definition isWhiteSpace (c : ascii) : bool :=
  let n := code c in (between 9 13 n || N.eqb n 32 || N.eqb n 160)%bool.

(** [\w] without the [u] flag: [A-Za-z0-9_]. *)
Definition isWordCode (n : N) : bool :=
  (between 97 122 n || between 65 90 n || between 48 57 n || N.eqb n 95)%bool.

Definition isDigitCode (n : N) : bool := between 48 57 n.

Definition isWhiteSpaceCode (n : N) : bool :=
  (between 9 13 n || N.eqb n 32 || N.eqb n 160)%bool.

(** [String.prototype.toLowerCase], one code unit at a time: A-Z and the
    Latin-1 capitals U+00C0..U+00DE (U+00D7, the multiplication sign, is
    not a letter) move up by 32. *)
Definition isUpperCode (n : N) : bool :=
  (between 65 90 n || (between 192 222 n && negb (N.eqb n 215)))%bool.

Definition toLowerChar (c : ascii) : ascii :=
  if isUpperCode (code c) then ascii_of_N (code c + 32) else c.

Definition toLowerCase (s : jsstring) : jsstring := map toLowerChar s.

(** [String.prototype.trim]. *)
Fixpoint trimStart (s : jsstring) : jsstring :=
  match s with
  | c :: s' => if isWhiteSpace c then trimStart s' else s
  | [] => []
  end.

Definition trimEnd (s : jsstring) : jsstring := rev (trimStart (rev s)).

Definition trim (s : jsstring) : jsstring := trimEnd (trimStart s).

(** [a.startsWith(p)] and [String.prototype.includes]. *)
Fixpoint startsWith (p s : jsstring) : bool :=
  match p, s with
  | [], _ => true
  | _ :: _, [] => false
  | a :: p', b :: s' => if ascii_dec a b then startsWith p' s' else false
  end.

Fixpoint includes (s p : jsstring) : bool :=
  if startsWith p s then true
  else match s with
       | [] => false
       | _ :: s' => includes s' p
       end.

(** [String.prototype.split] with a string separator.  [skip] counts the
    code units of a separator found at an earlier position that are still
    to be passed over; an empty separator splits between code units. *)
Fixpoint split_go (sep : jsstring) (skip : nat) (cur : jsstring) (s : jsstring)
  : list jsstring :=
  match s with
  | [] => [rev cur]
  | c :: s' =>
      match skip with
      | S n => split_go sep n cur s'
      | O => if startsWith sep s
             then rev cur :: split_go sep (length sep - 1) [] s'
             else split_go sep 0 (c :: cur) s'
      end
  end.

Definition split_str (sep : jsstring) (s : jsstring) : list jsstring :=
  match sep with
  | [] => map (fun c => [c]) s
  | _ => split_go sep 0 [] s
  end.

(** [Array.prototype.join] and [Array.prototype.slice (from, to)] with
    non-negative bounds. *)
Fixpoint join (sep : jsstring) (l : list jsstring) : jsstring :=
  match l with
  | [] => []
  | [a] => a
  | a :: l' => a ++ sep ++ join sep l'
  end.

Definition slice {A : Type} (from to : nat) (l : list A) : list A :=
  firstn (to - from) (skipn from l).

End JSString.

Import JSString.

(** ** Regular expressions

    The syntax tree of a pattern and a backtracking matcher in the style of
    the ECMA-262 matcher: a matcher takes the current position and a
    continuation, alternatives are tried left to right and a quantifier
    runs its body greedily (or lazily) before falling back.  A position is
    the code unit before it ([None] at the start of the input) and the rest
    of the input; a successful match returns the input left after it.

    Pattern characters are code units as numbers, since a [\u] escape can name
    a code unit above 255. *)

Module Regex.

Inductive citem : Type :=
| CChar (n : N)             (* one code unit *)
| CRange (lo hi : N)        (* lo-hi *)
| CDigit (neg : bool)       (* \d, \D *)
| CWord (neg : bool)        (* \w, \W *)
| CSpace (neg : bool).      (* \s, \S *)

Inductive regex : Type :=
| REmpty
| RChar (n : N)
| RAny                                   (* . *)
| RClass (neg : bool) (items : list citem)
| RSeq (r1 r2 : regex)
| RAlt (r1 r2 : regex)
| RRep (min : nat) (max : option nat) (greedy : bool) (r : regex)
| RBol                                   (* ^ *)
| REol                                   (* $ *)
| RWordB (neg : bool).                   (* \b, \B *)

Definition item_mem (it : citem) (n : N) : bool :=
  match it with
  | CChar m => N.eqb m n
  | CRange lo hi => between lo hi n
  | CDigit neg => xorb neg (isDigitCode n)
  | CWord neg => xorb neg (isWordCode n)
  | CSpace neg => xorb neg (isWhiteSpaceCode n)
  end.

Definition class_mem (items : list citem) (n : N) : bool :=
  existsb (fun it => item_mem it n) items.

(** The code units that Canonicalize (the [i] flag without [u]) identifies
    with an input code unit below 256.  Canonicalize maps a code unit to
    its upper case when that is a single code unit, except that a
    non-ASCII one is never mapped to ASCII: a-z and A-Z pair up, and so do
    U+00E0..U+00FE and U+00C0..U+00DE (but not the signs U+00D7 and
    U+00F7); U+00FF has upper case U+0178; the micro sign U+00B5 shares
    its upper case U+039C with U+03BC. *)
Definition case_variants (c : ascii) : list N :=
  let n := code c in
  if between 97 122 n then [n; (n - 32)%N]
  else if between 65 90 n then [n; (n + 32)%N]
  else if (between 224 254 n && negb (N.eqb n 247))%bool then [n; (n - 32)%N]
  else if (between 192 222 n && negb (N.eqb n 215))%bool then [n; (n + 32)%N]
  else if N.eqb n 255 then [n; 376%N]
  else if N.eqb n 181 then [n; 924%N; 956%N]
  else [n].

(** Does the set of code units [p] accept the input code unit [c]? *)
Definition accepts (ic : bool) (p : N -> bool) (c : ascii) : bool :=
  if ic then existsb p (case_variants c) else p (code c).

Definition isWordChar (c : option ascii) : bool :=
  match c with
  | Some a => isWordCode (code a)
  | None => false
  end.

Definition isLineTerminator (c : ascii) : bool :=
  (N.eqb (code c) 10%N || N.eqb (code c) 13%N)%bool.

Definition cont := option ascii -> jsstring -> option jsstring.

Definition matcher := option ascii -> jsstring -> cont -> option jsstring.

(** RepeatMatcher.  An iteration that must not be empty ([min = 0]) fails
    when the body consumed nothing.  Every iteration lowers [min] or
    shortens the input, so [min + length s + 1] rounds of [fuel] are
    never used up. *)
Fixpoint rep_loop (m : matcher) (fuel : nat) (min : nat) (max : option nat)
    (greedy : bool) (prev : option ascii) (s : jsstring) (k : cont)
  : option jsstring :=
  match fuel with
  | O => None
  | S fuel' =>
      match max with
      | Some O => k prev s
      | _ =>
          let d : cont := fun p' s' =>
            if (Nat.eqb min 0 && Nat.eqb (length s') (length s))%bool then None
            else rep_loop m fuel' (Nat.pred min) (option_map Nat.pred max)
                          greedy p' s' k in
          if negb (Nat.eqb min 0) then m prev s d
          else if greedy then
            match m prev s d with
            | Some z => Some z
            | None => k prev s
            end
          else
            match k prev s with
            | Some z => Some z
            | None => m prev s d
            end
      end
  end.

Fixpoint rmatch (ic : bool) (r : regex) {struct r} : matcher :=
  fun prev s k =>
  match r with
  | REmpty => k prev s
  | RChar n =>
      match s with
      | c :: s' => if accepts ic (N.eqb n) c then k (Some c) s' else None
      | [] => None
      end
  | RAny =>
      match s with
      | c :: s' => if isLineTerminator c then None else k (Some c) s'
      | [] => None
      end
  | RClass neg items =>
      match s with
      | c :: s' =>
          if xorb neg (accepts ic (class_mem items) c) then k (Some c) s'
          else None
      | [] => None
      end
  | RSeq r1 r2 => rmatch ic r1 prev s (fun p' s' => rmatch ic r2 p' s' k)
  | RAlt r1 r2 =>
      match rmatch ic r1 prev s k with
      | Some z => Some z
      | None => rmatch ic r2 prev s k
      end
  | RRep min max greedy r1 =>
      rep_loop (rmatch ic r1) (min + length s + 1) min max greedy prev s k
  | RBol => match prev with None => k prev s | Some _ => None end
  | REol => match s with [] => k prev s | _ :: _ => None end
  | RWordB neg =>
      let a := isWordChar prev in
      let b := isWordChar (hd_error s) in
      if xorb neg (xorb a b) then k prev s else None
  end.

(** The final continuation: the match is accepted wherever it ends. *)
Definition kend : cont := fun _ s => Some s.

(** One attempt at the current position: the text matched and the input
    left after it. *)
Definition exec_at (ic : bool) (r : regex) (prev : option ascii) (s : jsstring)
  : option (jsstring * jsstring) :=
  match rmatch ic r prev s kend with
  | Some rest => Some (firstn (length s - length rest) s, rest)
  | None => None
  end.

Definition last_of (prev : option ascii) (m : jsstring) : option ascii :=
  match rev m with
  | c :: _ => Some c
  | [] => prev
  end.

(** [String.prototype.match] with a global regular expression: every
    match from left to right; after an empty match the search resumes one
    code unit further. *)
Fixpoint match_all_from (fuel : nat) (ic : bool) (r : regex)
    (prev : option ascii) (s : jsstring) : list jsstring :=
  match fuel with
  | O => []
  | S fuel' =>
      let step (_ : unit) :=
        match s with
        | [] => []
        | c :: s' => match_all_from fuel' ic r (Some c) s'
        end in
      match exec_at ic r prev s with
      | Some ([], _) => [] :: step tt
      | Some (m, rest) => m :: match_all_from fuel' ic r (last_of prev m) rest
      | None => step tt
      end
  end.

Definition match_g (ic : bool) (r : regex) (s : jsstring) : option (list jsstring) :=
  match match_all_from (S (length s)) ic r None s with
  | [] => None
  | l => Some l
  end.

(** [String.prototype.replace] with a global regular expression and a
    replacement string without [$] patterns. *)
Fixpoint replace_all_from (fuel : nat) (ic : bool) (r : regex) (repl : jsstring)
    (prev : option ascii) (s : jsstring) : jsstring :=
  match fuel with
  | O => s
  | S fuel' =>
      let step (_ : unit) :=
        match s with
        | [] => []
        | c :: s' => c :: replace_all_from fuel' ic r repl (Some c) s'
        end in
      match exec_at ic r prev s with
      | Some ([], _) => repl ++ step tt
      | Some (m, rest) =>
          repl ++ replace_all_from fuel' ic r repl (last_of prev m) rest
      | None => step tt
      end
  end.

Definition replace_g (r : regex) (repl : jsstring) (s : jsstring) : jsstring :=
  replace_all_from (S (length s)) false r repl None s.

(** [String.prototype.replace] with a regular expression without the [g]
    flag: the leftmost match only. *)
Fixpoint replace_first_from (ic : bool) (r : regex) (repl : jsstring)
    (prev : option ascii) (s : jsstring) : jsstring :=
  match exec_at ic r prev s with
  | Some (_, rest) => repl ++ rest
  | None =>
      match s with
      | [] => []
      | c :: s' => c :: replace_first_from ic r repl (Some c) s'
      end
  end.

Definition replace_1 (r : regex) (repl : jsstring) (s : jsstring) : jsstring :=
  replace_first_from false r repl None s.

(** [String.prototype.split] with a regular expression (no capture
    groups).  [cur] holds, reversed, the code units since the end of the
    last separator; a match that ends where the current piece starts is
    not a separator. *)
Fixpoint split_from (fuel : nat) (r : regex) (cur : jsstring)
    (prev : option ascii) (s : jsstring) : list jsstring :=
  match fuel with
  | O => [rev cur ++ s]
  | S fuel' =>
      match s with
      | [] => [rev cur]
      | c :: s' =>
          match exec_at false r prev s with
          | None => split_from fuel' r (c :: cur) (Some c) s'
          | Some (m, rest) =>
              match m, cur with
              | [], [] => split_from fuel' r [c] (Some c) s'
              | _, _ => rev cur :: split_from fuel' r [] (last_of prev m) rest
              end
          end
      end
  end.

Definition split_re (r : regex) (s : jsstring) : list jsstring :=
  match s with
  | [] => match exec_at false r None [] with
          | Some _ => []
          | None => [[]]
          end
  | _ => split_from (2 * length s + 1) r [] None s
  end.

(** *** [new RegExp(pattern)]: the pattern grammar

    The keyword analyzer builds a pattern from text at run time, so the
    model needs the parser of patterns as well: the grammar of ECMA-262
    with the Annex B extensions that apply without the [u] flag.  A
    pattern that the grammar rejects makes the constructor throw a
    [SyntaxError].

    Groups, look-around, braced quantifiers and class ranges are left out:
    they need one of the characters [( ) { } -], and [normalizeText]
    deletes those from a keyword before the pattern is built (lemma
    [normalizedKeyword_alphabet] below), so that no pattern of the
    analyzer contains them; the parser rejects them.  Without groups a
    decimal escape is never a back reference and [\k] is an identity
    escape. *)

Inductive compiled : Type :=
| Pattern (r : regex)
| SyntaxError.

Record pstate : Type := mkP {
  alts : list regex;          (* finished alternatives, last first *)
  terms : list regex;         (* terms of the current alternative, last first *)
  quantifiable : bool;        (* the last term is an atom without quantifier *)
  lazyable : bool;            (* the last token was a quantifier *)
  cls : option (bool * list citem)  (* inside [...]: negation, items so far *)
}.

Definition hexval (c : ascii) : option N :=
  let n := code c in
  if between 48 57 n then Some (n - 48)%N
  else if between 97 102 n then Some (n - 87)%N
  else if between 65 70 n then Some (n - 55)%N
  else None.

Definition octval (c : ascii) : option N :=
  let n := code c in if between 48 55 n then Some (n - 48)%N else None.

Fixpoint hexdigits (k : nat) (acc : N) (s : jsstring) : option N :=
  match k with
  | O => Some acc
  | S k' =>
      match s with
      | c :: s' =>
          match hexval c with
          | Some d => hexdigits k' (acc * 16 + d)%N s'
          | None => None
          end
      | [] => None
      end
  end.

(** LegacyOctalEscapeSequence, given its first digit [d1] and what
    follows: the value and the number of further digits taken. *)
Definition legacy_octal (d1 : N) (rest : jsstring) : N * nat :=
  match rest with
  | c2 :: rest2 =>
      match octval c2 with
      | Some d2 =>
          match rest2 with
          | c3 :: _ =>
              match octval c3 with
              | Some d3 =>
                  if N.leb d1 3 then (((d1 * 8 + d2) * 8 + d3)%N, 2)
                  else ((d1 * 8 + d2)%N, 1)
              | None => ((d1 * 8 + d2)%N, 1)
              end
          | [] => ((d1 * 8 + d2)%N, 1)
          end
      | None => (d1, 0)
      end
  | [] => (d1, 0)
  end.

Definition isAsciiLetter (c : ascii) : bool :=
  (between 97 122 (code c) || between 65 90 (code c))%bool.

(** What an escape stands for: a set of code units (one or a class), an
    assertion, or, for [\c] without a control letter, the backslash
    itself with the [c] left in the pattern. *)
Inductive escape : Type :=
| EChar (n : N) (skip : nat)      (* skip: code units taken after the escape letter *)
| EClass (it : citem)
| EAssert (r : regex)
| EBackslash.

(** CharacterEscape and CharacterClassEscape, shared by atoms and classes;
    [e] is the character after the backslash and [rest] what follows it. *)
Definition char_escape (in_class : bool) (e : ascii) (rest : jsstring) : escape :=
  let n := code e in
  if N.eqb n 100 then EClass (CDigit false)        (* \d *)
  else if N.eqb n 68 then EClass (CDigit true)     (* \D *)
  else if N.eqb n 119 then EClass (CWord false)    (* \w *)
  else if N.eqb n 87 then EClass (CWord true)      (* \W *)
  else if N.eqb n 115 then EClass (CSpace false)   (* \s *)
  else if N.eqb n 83 then EClass (CSpace true)     (* \S *)
  else if N.eqb n 102 then EChar 12 0              (* \f *)
  else if N.eqb n 110 then EChar 10 0              (* \n *)
  else if N.eqb n 114 then EChar 13 0              (* \r *)
  else if N.eqb n 116 then EChar 9 0               (* \t *)
  else if N.eqb n 118 then EChar 11 0              (* \v *)
  else if N.eqb n 99 then                          (* \c *)
    match rest with
    | l :: _ =>
        if (isAsciiLetter l
            || (in_class && (isDigitCode (code l) || N.eqb (code l) 95)))%bool
        then EChar (code l mod 32) 1
        else EBackslash
    | [] => EBackslash
    end
  else if N.eqb n 120 then                         (* \x *)
    match hexdigits 2 0 rest with
    | Some v => EChar v 2
    | None => EChar n 0
    end
  else if N.eqb n 117 then                         (* \u *)
    match hexdigits 4 0 rest with
    | Some v => EChar v 4
    | None => EChar n 0
    end
  else match octval e with
       | Some d1 => let '(v, k) := legacy_octal d1 rest in EChar v k
       | None => EChar n 0                          (* identity escape *)
       end.

Definition atom_escape (e : ascii) (rest : jsstring) : escape :=
  let n := code e in
  if N.eqb n 98 then EAssert (RWordB false)        (* \b *)
  else if N.eqb n 66 then EAssert (RWordB true)    (* \B *)
  else char_escape false e rest.

Definition class_escape (e : ascii) (rest : jsstring) : escape :=
  if N.eqb (code e) 98 then EChar 8 0              (* [\b] is backspace *)
  else char_escape true e rest.

Definition push_atom (st : pstate) (r : regex) : pstate :=
  mkP (alts st) (r :: terms st) true false None.

Definition push_assert (st : pstate) (r : regex) : pstate :=
  mkP (alts st) (r :: terms st) false false None.

Definition push_item (st : pstate) (neg : bool) (items : list citem) (it : citem)
  : pstate :=
  mkP (alts st) (terms st) false false (Some (neg, it :: items)).

Fixpoint seq_of (l : list regex) : regex :=
  match l with
  | [] => REmpty
  | [r] => r
  | r :: l' => RSeq r (seq_of l')
  end.

Fixpoint alt_of (r : regex) (l : list regex) : regex :=
  match l with
  | [] => r
  | r' :: l' => RAlt r (alt_of r' l')
  end.

Definition quantify (st : pstate) (min : nat) (max : option nat)
  : option (pstate * nat) :=
  match terms st with
  | r :: l =>
      if quantifiable st
      then Some (mkP (alts st) (RRep min max true r :: l) false true None, 0)
      else None
  | [] => None
  end.

(** One step of the parser at the character [c] followed by [rest]: the
    new state and the number of characters of [rest] it has taken, or
    [None] for a syntax error. *)
Definition pstep (st : pstate) (c : ascii) (rest : jsstring)
  : option (pstate * nat) :=
  let n := code c in
  match cls st with
  | Some (neg, items) =>
      if N.eqb n 93 then                                     (* ] *)
        Some (push_atom st (RClass neg (rev items)), 0)
      else if N.eqb n 92 then                                (* \ *)
        match rest with
        | e :: rest' =>
            match class_escape e rest' with
            | EChar v k => Some (push_item st neg items (CChar v), S k)
            | EClass it => Some (push_item st neg items it, 1)
            | EAssert _ => None
            | EBackslash => Some (push_item st neg items (CChar 92), 0)
            end
        | [] => None
        end
      else if N.eqb n 45 then None                           (* - *)
      else Some (push_item st neg items (CChar n), 0)
  | None =>
      if N.eqb n 124 then                                    (* | *)
        Some (mkP (seq_of (rev (terms st)) :: alts st) [] false false None, 0)
      else if N.eqb n 42 then quantify st 0 None             (* * *)
      else if N.eqb n 43 then quantify st 1 None             (* + *)
      else if N.eqb n 63 then                                (* ? *)
        if lazyable st then
          match terms st with
          | RRep mn mx _ r :: l =>
              Some (mkP (alts st) (RRep mn mx false r :: l) false false None, 0)
          | _ => None
          end
        else quantify st 0 (Some 1)
      else if N.eqb n 94 then Some (push_assert st RBol, 0)  (* ^ *)
      else if N.eqb n 36 then Some (push_assert st REol, 0)  (* $ *)
      else if N.eqb n 46 then Some (push_atom st RAny, 0)    (* . *)
      else if N.eqb n 91 then                                (* [ *)
        match rest with
        | x :: _ =>
            if N.eqb (code x) 94
            then Some (mkP (alts st) (terms st) false false (Some (true, [])), 1)
            else Some (mkP (alts st) (terms st) false false (Some (false, [])), 0)
        | [] => None
        end
      else if N.eqb n 92 then                                (* \ *)
        match rest with
        | e :: rest' =>
            match atom_escape e rest' with
            | EChar v k => Some (push_atom st (RChar v), S k)
            | EClass it => Some (push_atom st (RClass false [it]), 1)
            | EAssert r => Some (push_assert st r, 1)
            | EBackslash => Some (push_atom st (RChar 92), 0)
            end
        | [] => None
        end
      else if (N.eqb n 40 || N.eqb n 41 || N.eqb n 123 || N.eqb n 125)%bool
      then None                                              (* ( ) { } *)
      else Some (push_atom st (RChar n), 0)
  end.

Fixpoint prun (st : pstate) (skip : nat) (s : jsstring) : compiled :=
  match s with
  | [] =>
      match cls st with
      | Some _ => SyntaxError
      | None =>
          match rev (seq_of (rev (terms st)) :: alts st) with
          | r :: l => Pattern (alt_of r l)
          | [] => SyntaxError
          end
      end
  | c :: s' =>
      match skip with
      | S k => prun st k s'
      | O =>
          match pstep st c s' with
          | Some (st', k) => prun st' k s'
          | None => SyntaxError
          end
      end
  end.

Definition compile (pattern : jsstring) : compiled :=
  prun (mkP [] [] false false None) 0 pattern.

End Regex.

Import Regex.

(** ** Numbers

    A JavaScript number is an IEEE 754 binary64 value; the operations are
    those of the standard library's executable specification of
    floating-point arithmetic at precision 53. *)

Module Number.

Definition prec : Z := 53.
Definition emax : Z := 1024.

Definition number := spec_float.

Definition NaN : number := S754_nan.

Definition of_Z (z : Z) : number := binary_normalize prec emax z 0 false.

(** A length, an index or a [size]: an integer that the number holds. *)
Definition of_nat (n : nat) : number := of_Z (Z.of_nat n).

Definition add (x y : number) : number := SFadd prec emax x y.
Definition sub (x y : number) : number := SFsub prec emax x y.
Definition mul (x y : number) : number := SFmul prec emax x y.
Definition div (x y : number) : number := SFdiv prec emax x y.

(** [x < y], [x > y], [x >= y]: false when an operand is NaN. *)
Definition lt (x y : number) : bool := SFltb x y.
Definition gt (x y : number) : bool := SFltb y x.
Definition ge (x y : number) : bool := SFleb y x.

(** A decimal literal [m / 10^k] of the source text: the binary64 value
    nearest to it, which is what the correctly rounded quotient of the two
    integers is (both are below 2^53). *)
Definition dec (m : Z) (k : nat) : number := div (of_Z m) (of_Z (10 ^ Z.of_nat k)).

Definition isFinite (x : number) : bool :=
  match x with
  | S754_zero _ | S754_finite _ _ _ => true
  | S754_infinity _ | S754_nan => false
  end.

(** ToBoolean of a number: false for zero and NaN. *)
Definition truthy (x : number) : bool :=
  match x with
  | S754_zero _ | S754_nan => false
  | _ => true
  end.

(** [Math.round]: the nearest integer, a tie going towards plus infinity;
    NaN, the infinities and the zeros are returned as they are, and a
    negative argument that rounds to zero gives the negative zero. *)
Definition round (x : number) : number :=
  match x with
  | S754_finite s m e =>
      if (0 <=? e)%Z then x
      else
        let v := if s then Z.neg m else Z.pos m in
        let n := ((2 * v + 2 ^ (- e)) / 2 ^ (- e + 1))%Z in
        if (n =? 0)%Z then S754_zero s else of_Z n
  | _ => x
  end.

End Number.

(** ** Sets

    A [Set] keeps its elements in insertion order without repetition. *)

Module JSSet.

Definition has (s : list jsstring) (x : jsstring) : bool :=
  existsb (eqb_string x) s.

Definition add (s : list jsstring) (x : jsstring) : list jsstring :=
  if has s x then s else s ++ [x].

(** [new Set(iterable)]. *)
Definition of_list (l : list jsstring) : list jsstring :=
  fold_left add l [].

Definition size (s : list jsstring) : nat := length s.

End JSSet.

(** ** The log

    The analyzers report through the five functions of the [log] object
    of the prompt library.  An entry is a level and a message; a message
    is the sequence of the pieces of its template literal, so that a
    number is kept as the value that ToString then prints. *)

Module Log.

Inductive level : Type := Info | Warn | Error | Success | Step.

Inductive frag : Type :=
| Txt (s : string)                       (* text of the template *)
| Str (s : jsstring)                     (* an interpolated string *)
| Int (n : nat)                          (* an interpolated length or index *)
| Num (x : Number.number)                (* an interpolated number *)
| Fixed (digits : nat) (x : Number.number).  (* x.toFixed(digits) *)

Definition entry : Type := level * list frag.

Fixpoint digits_of (fuel : nat) (n : N) (acc : string) : string :=
  match fuel with
  | O => acc
  | S fuel' =>
      let acc' := String (ascii_of_N (48 + n mod 10)) acc in
      if (n / 10 =? 0)%N then acc' else digits_of fuel' (n / 10)%N acc'
  end.

Definition decimal (n : N) : string := digits_of (S (N.to_nat (N.log2 n))) n "".

(** Number::toString for the values that need no decimal point or
    exponent: NaN, the infinities, the zeros and the integers below
    10^21.  [None] stands for the other numbers, whose shortest decimal
    form is not modelled. *)
Definition toString (x : Number.number) : option string :=
  match x with
  | S754_nan => Some "NaN"%string
  | S754_infinity false => Some "Infinity"%string
  | S754_infinity true => Some "-Infinity"%string
  | S754_zero _ => Some "0"%string
  | S754_finite s m e =>
      if ((0 <=? e) && (Z.pos m * 2 ^ e <? 10 ^ 21))%Z%bool then
        let d := decimal (Z.to_N (Z.pos m * 2 ^ e)) in
        Some (if s then append "-" d else d)
      else if ((e <? 0) && (Z.pos m mod 2 ^ (- e) =? 0))%Z%bool then
        let d := decimal (Z.to_N (Z.pos m / 2 ^ (- e))) in
        Some (if s then append "-" d else d)
      else None
  end.

Definition render_frag (f : frag) : option string :=
  match f with
  | Txt s => Some s
  | Str s => Some (string_of_list_ascii s)
  | Int n => Some (decimal (N.of_nat n))
  | Num x => toString x
  | Fixed _ _ => None
  end.

(** The text of a message, when all its numbers are in the range of
    [toString]. *)
Fixpoint render (m : list frag) : option string :=
  match m with
  | [] => Some ""%string
  | f :: m' =>
      match render_frag f, render m' with
      | Some a, Some b => Some (append a b)
      | _, _ => None
      end
  end.

End Log.

Import Log.

(** ** Exceptions and the document

    A function that may throw returns a [result]; [Throws] stands for the
    [SyntaxError] of the [RegExp] constructor, the one exception the
    analyzers can raise. *)

Inductive result (A : Type) : Type :=
| Returns (a : A)
| Throws.

Arguments Returns {A} a.
Arguments Throws {A}.

Definition bind {A B : Type} (x : result A) (f : A -> result B) : result B :=
  match x with
  | Returns a => f a
  | Throws => Throws
  end.

Notation "'let*' x ':=' e 'in' k" := (bind e (fun x => k))
  (at level 10, x name, e at level 100, k at level 200).

(** What the analyzers read of the parsed page.  A field is [None] where
    the element, the attribute or [document.location] is missing. *)
Record Document : Type := mkDocument {
  lang : jsstring;                      (* document.documentElement.lang *)
  bodyText : jsstring;                  (* document.body.textContent *)
  title : option jsstring;              (* querySelector('title')?.textContent *)
  paragraphs : list jsstring;           (* textContent of each p, in document order *)
  h1s : list jsstring;                  (* textContent of each h1 *)
  h2s : list jsstring;
  h3s : list jsstring;
  metaDescription : option jsstring;    (* content of meta[name="description"] *)
  pathname : option jsstring            (* document.location?.pathname *)
}.

(** [x || ''] for a string that may be missing. *)
Definition orEmpty (x : option jsstring) : jsstring :=
  match x with
  | Some s => s
  | None => []
  end.

(** Literal pieces of patterns: [lit "ed"] is the sequence of its
    characters, [oneof "aeiouy"] the class items of [[aeiouy]]. *)
Definition lit (s : string) : regex := seq_of (map (fun c => RChar (code c)) (js s)).

Definition oneof (s : string) : list citem := map (fun c => CChar (code c)) (js s).

(** [/\s+/] and [/\s/]. *)
Definition re_spaces : regex := RRep 1 None true (RClass false [CSpace false]).
Definition re_space : regex := RClass false [CSpace false].

(* ===================================================================== *)
(** * Part II. src/analyzers/keywordAnalyzer.ts                          *)
(* ===================================================================== *)

Record KeywordAnalysis : Type := mkKeywordAnalysis {
  density : Number.number;
  count : nat;
  inTitle : bool;
  inFirstParagraph : bool;
  inHeadings_h1 : nat;
  inHeadings_h2 : nat;
  inHeadings_h3 : nat;
  inMetaDescription : bool;
  inUrl : bool;
  occurrences : list jsstring
}.

(** [/[.,/#!$%^&*;:{}=\-_`~()]/] *)
Definition re_punctuation : regex := RClass false (oneof ".,/#!$%^&*;:{}=-_`~()").

Definition normalizeText (text : jsstring) : jsstring :=
  trim
    (replace_g re_spaces (js " ")            (* Normalize whitespace *)
       (replace_g re_punctuation []          (* Remove punctuation *)
          (toLowerCase text))).

(** The loop of [findKeywordOccurrences] over the start index [i], with
    [n] iterations left. *)
Fixpoint multiword_loop (text : jsstring) (words : list jsstring)
    (normalizedKeyword : jsstring) (klen : nat) (n i : nat) : list jsstring :=
  match n with
  | O => []
  | S n' =>
      let possibleMatch := join (js " ") (slice i (i + klen) words) in
      let here :=
        if eqb_string possibleMatch normalizedKeyword then
          (* Get the original text format for this match *)
          [join (js " ") (slice i (i + klen) (split_re re_spaces text))]
        else [] in
      here ++ multiword_loop text words normalizedKeyword klen n' (S i)
  end.

Definition findKeywordOccurrences (text keyword : jsstring)
  : result (list jsstring) :=
  let normalizedText := normalizeText text in
  let normalizedKeyword := normalizeText keyword in
  let words := split_str (js " ") normalizedText in
  let keywordWords := split_str (js " ") normalizedKeyword in
  (* For single word keywords *)
  if length keywordWords =? 1 then
    match compile (js "\b" ++ normalizedKeyword ++ js "\b") with
    | SyntaxError => Throws
    | Pattern regex =>
        match match_g true regex text with
        | Some matches => Returns matches
        | None => Returns []
        end
    end
  else
    (* For multi-word keywords: i = 0 .. words.length - keywordWords.length *)
    Returns (multiword_loop text words normalizedKeyword (length keywordWords)
               (length words + 1 - length keywordWords) 0).

Definition countKeywordInText (text keyword : jsstring) : result nat :=
  let* occ := findKeywordOccurrences text keyword in
  Returns (length occ).

(** [elements.reduce((count, el) => count + find(el.textContent, keyword).length, 0)] *)
Fixpoint countInElements (els : list jsstring) (keyword : jsstring) (count : nat)
  : result nat :=
  match els with
  | [] => Returns count
  | el :: els' =>
      let* occ := findKeywordOccurrences el keyword in
      countInElements els' keyword (count + length occ)
  end.

Definition analyzeKeyword (document : Document) (keyword : jsstring)
  : result KeywordAnalysis :=
  (* Get all text content *)
  let bodyText := bodyText document in
  let wordCount := length (split_re re_spaces (normalizeText bodyText)) in
  (* Find all keyword occurrences *)
  let* occurrences := findKeywordOccurrences bodyText keyword in
  let keywordCount := length occurrences in
  (* Calculate density (accounting for multi-word keywords) *)
  let keywordWordCount := length (split_re re_spaces keyword) in
  let density :=
    Number.mul
      (Number.div
         (Number.mul (Number.of_nat keywordCount) (Number.of_nat keywordWordCount))
         (Number.of_nat wordCount))
      (Number.of_nat 100) in
  (* Check title *)
  let title := orEmpty (title document) in
  let* inTitleOcc := findKeywordOccurrences title keyword in
  let inTitle := 0 <? length inTitleOcc in
  (* Check first paragraph *)
  let firstParagraph := orEmpty (hd_error (paragraphs document)) in
  let* inFirstOcc := findKeywordOccurrences firstParagraph keyword in
  let inFirstParagraph := 0 <? length inFirstOcc in
  (* Check headings *)
  let* h1Count := countInElements (h1s document) keyword 0 in
  let* h2Count := countInElements (h2s document) keyword 0 in
  let* h3Count := countInElements (h3s document) keyword 0 in
  (* Check meta description *)
  let metaDescription := orEmpty (metaDescription document) in
  let* inMetaOcc := findKeywordOccurrences metaDescription keyword in
  let inMetaDescription := 0 <? length inMetaOcc in
  (* Check URL *)
  let url := orEmpty (pathname document) in
  let urlKeyword := replace_g re_spaces (js "-") (normalizeText keyword) in
  let inUrl := includes (normalizeText url) urlKeyword in
  Returns (mkKeywordAnalysis density keywordCount inTitle inFirstParagraph
             h1Count h2Count h3Count inMetaDescription inUrl occurrences).

(** The newline and the double quote of the message templates. *)
Definition nl : frag := Txt (String (ascii_of_nat 10) EmptyString).
Definition dq : frag := Txt (String (ascii_of_nat 34) EmptyString).

Definition recommendations_of (analysis : KeywordAnalysis) : list string :=
  (if count analysis =? 0 then ["Add the keyword to your content"%string] else [])
  ++ (if (negb (inTitle analysis) && (inHeadings_h1 analysis =? 0))%bool
      then ["Include keyword in title or H1 heading"%string] else [])
  ++ (if negb (inFirstParagraph analysis)
      then ["Add keyword to the first paragraph"%string] else [])
  ++ (if negb (inMetaDescription analysis)
      then ["Include keyword in meta description"%string] else [])
  ++ (if Number.lt (density analysis) (Number.dec 5 1)
      then ["Increase keyword usage naturally throughout the content"%string]
      else if Number.gt (density analysis) (Number.dec 25 1)
      then ["Reduce keyword usage to avoid over-optimization"%string]
      else []).

Definition displayResults (analysis : KeywordAnalysis) (keyword : jsstring)
  : list entry :=
  [(Step, [Txt "Keyword Analysis Results:"])]
  (* Show occurrences *)
  ++ (if 0 <? count analysis then
        [(Success, [Txt "Found "; Int (count analysis); Txt " keyword occurrences"]);
         (Info, [Txt "Keyword locations:"])]
        ++ map (fun io => (Info, [Int (fst io + 1); Txt ". "; dq; Str (snd io); dq]))
               (combine (seq 0 (length (occurrences analysis))) (occurrences analysis))
      else [(Error, [Txt "No keyword occurrences found"])])
  (* Density check *)
  ++ [(Step, [Txt "Keyword Density:"]);
      (Info, [Txt "Current density: "; Fixed 2 (density analysis); Txt "%"])]
  ++ [if Number.lt (density analysis) (Number.dec 5 1)
      then (Warn, [Txt "Density is too low (aim for 0.5% - 2.5%)"])
      else if Number.gt (density analysis) (Number.dec 25 1)
      then (Warn, [Txt "Density is too high (possible keyword stuffing)"])
      else (Success, [Txt "Density is optimal"])]
  (* Title check *)
  ++ [(Step, [Txt "Key Element Checks:"])]
  ++ [if inTitle analysis then (Success, [Txt "Found in title"])
      else (Warn, [Txt "Missing from title"])]
  ++ [if inFirstParagraph analysis then (Success, [Txt "Found in first paragraph"])
      else (Warn, [Txt "Missing from first paragraph"])]
  (* Headings check *)
  ++ [(Step, [Txt "Heading Usage:"]);
      (Info, [Txt "H1 headings: "; Int (inHeadings_h1 analysis)]);
      (Info, [Txt "H2 headings: "; Int (inHeadings_h2 analysis)]);
      (Info, [Txt "H3 headings: "; Int (inHeadings_h3 analysis)])]
  ++ (if inHeadings_h1 analysis + inHeadings_h2 analysis + inHeadings_h3 analysis =? 0
      then [(Warn, [Txt "Not found in any headings"])] else [])
  (* Meta description check *)
  ++ [if inMetaDescription analysis then (Success, [Txt "Found in meta description"])
      else (Warn, [Txt "Missing from meta description"])]
  (* URL check *)
  ++ [if inUrl analysis then (Success, [Txt "Found in URL"])
      else (Info, [Txt "Consider including in URL"])]
  (* Overall assessment *)
  ++ (let recommendations := recommendations_of analysis in
      if 0 <? length recommendations then
        (Step, [Txt "Recommendations:"])
        :: map (fun rec => (Warn, [Txt rec])) recommendations
      else [(Success, [Txt "Content is well-optimized for the focus keyword"])]).

Definition calculateSimilarity (str1 str2 : jsstring) : Number.number :=
  let set1 := JSSet.of_list (split_str (js " ") (toLowerCase str1)) in
  let set2 := JSSet.of_list (split_str (js " ") (toLowerCase str2)) in
  let intersection := JSSet.of_list (filter (fun x => JSSet.has set2 x) set1) in
  let union := JSSet.of_list (set1 ++ set2) in
  Number.div (Number.of_nat (JSSet.size intersection))
             (Number.of_nat (JSSet.size union)).

(** The inner loop of [analyzeKeywordRelationships]: [keywords[i]] against
    every later keyword. *)
Fixpoint similar_to (ki : jsstring) (later : list jsstring)
  : list (jsstring * jsstring * Number.number) :=
  match later with
  | [] => []
  | kj :: later' =>
      let similarity := calculateSimilarity ki kj in
      (if Number.gt similarity (Number.dec 3 1)       (* 30% similarity threshold *)
       then [(ki, kj, similarity)] else [])
      ++ similar_to ki later'
  end.

(** The outer loop: the pairs [i < j] in the order the loops visit them. *)
Fixpoint similarities_of (keywords : list jsstring)
  : list (jsstring * jsstring * Number.number) :=
  match keywords with
  | [] => []
  | ki :: later => similar_to ki later ++ similarities_of later
  end.

Definition analyzeKeywordRelationships (keywords : list jsstring) : list entry :=
  let similarities := similarities_of keywords in
  (Info, [nl; Txt "Keyword Relationship Analysis:"])
  :: (if 0 <? length similarities then
        (Warn, [Txt "Potentially competing keywords found:"])
        :: map (fun t => let '(kw1, kw2, similarity) := t in
                  (Warn, [Txt "- "; dq; Str kw1; dq; Txt " and "; dq; Str kw2; dq;
                          Txt " are ";
                          Fixed 1 (Number.mul similarity (Number.of_nat 100));
                          Txt "% similar"]))
               similarities
        ++ [(Info, [Txt "Consider focusing on more distinct keywords to avoid keyword cannibalization"])]
      else [(Success, [Txt "Keywords are sufficiently distinct from each other"])]).

(** [keywords.forEach((keyword, index) => ...)]: the entries logged and
    whether the loop ran to its end; an exception leaves the loop at
    once. *)
Fixpoint analyzeEach (document : Document) (keywords : list jsstring) (index : nat)
  : list entry * result unit :=
  match keywords with
  | [] => ([], Returns tt)
  | keyword :: later =>
      let announce :=
        (Info, [nl; Int (index + 1); Txt ". Analyzing keyword: "; dq; Str keyword; dq]) in
      match analyzeKeyword document keyword with
      | Throws => ([announce], Throws)
      | Returns analysis =>
          let '(log, r) := analyzeEach document later (S index) in
          (announce :: displayResults analysis keyword ++ log, r)
      end
  end.

(** Split by commas and clean up each keyword. *)
Definition splitKeywords (keywordsInput : jsstring) : list jsstring :=
  filter (fun k => 0 <? length k) (map trim (split_str (js ",") keywordsInput)).

Definition analyzeKeywordUsage (document : Document) (keywordsInput : jsstring)
  : list entry * result unit :=
  if length (trim keywordsInput) =? 0 then
    ([(Error, [Txt "No keywords provided"])], Returns tt)
  else
    let keywords := splitKeywords keywordsInput in
    let start := (Info, [nl; Txt "Analyzing "; Int (length keywords); Txt " keywords:"]) in
    (* Analyze each keyword separately *)
    match analyzeEach document keywords 0 with
    | (log, Throws) => (start :: log, Throws)
    | (log, Returns _) =>
        (* If multiple keywords were provided, show relationship analysis *)
        (start :: log
           ++ (if 1 <? length keywords then analyzeKeywordRelationships keywords else []),
         Returns tt)
    end.

(* ===================================================================== *)
(** * Part III. The content analyzer                                     *)
(* ===================================================================== *)

Record ReadabilityMetrics : Type := mkReadabilityMetrics {
  fleschEase : Number.number;
  fleschKincaid : Number.number;
  gunningFog : Number.number;
  colemanLiau : Number.number;
  averageWordsPerSentence : Number.number;
  averageSyllablesPerWord : Number.number;
  totalWords : nat;
  totalSentences : nat;
  complexWords : nat;
  lix : Number.number;
  longWords : nat
}.

(** [/[^a-z]/], [/(?:[^laeiouy]es|ed|[^laeiouy]e)$/], [/^y/],
    [/[aeiouy]{1,2}/] and [/[.!?]+/]. *)
Definition re_non_letter : regex := RClass true [CRange 97 122].

Definition re_silent_ending : regex :=
  RSeq (RAlt (RSeq (RClass true (oneof "laeiouy")) (lit "es"))
             (RAlt (lit "ed")
                   (RSeq (RClass true (oneof "laeiouy")) (lit "e"))))
       REol.

Definition re_leading_y : regex := RSeq RBol (lit "y").

Definition re_vowel_group : regex := RRep 1 (Some 2) true (RClass false (oneof "aeiouy")).

Definition re_sentence_end : regex := RRep 1 None true (RClass false (oneof ".!?")).

Definition countWordSyllables (word : jsstring) : nat :=
  let word := replace_g re_non_letter [] (toLowerCase word) in
  if length word <=? 3 then 1
  else
    let word := replace_1 re_silent_ending [] word in
    let word := replace_1 re_leading_y [] word in
    match match_g false re_vowel_group word with
    | Some syllables => length syllables
    | None => 1
    end.

Definition countSyllables (text : jsstring) : nat :=
  let words := split_re re_spaces (toLowerCase text) in
  fold_left (fun total word => total + countWordSyllables word) words 0.

Definition wordsOf (text : jsstring) : list jsstring :=
  filter (fun word => 0 <? length word) (split_re re_spaces text).

Definition sentencesOf (text : jsstring) : list jsstring :=
  filter (fun sentence => 0 <? length (trim sentence)) (split_re re_sentence_end text).

Definition calculateLIX (text : jsstring) : Number.number :=
  let words := wordsOf text in
  let sentences := sentencesOf text in
  let longWords := length (filter (fun word => 6 <? length word) words) in
  Number.add
    (Number.div (Number.of_nat (length words)) (Number.of_nat (length sentences)))
    (Number.div (Number.mul (Number.of_nat longWords) (Number.of_nat 100))
                (Number.of_nat (length words))).

Definition calculateMetrics (text : jsstring) (language : jsstring)
  : ReadabilityMetrics :=
  let words := wordsOf text in
  let sentences := sentencesOf text in
  let totalSyllables := countSyllables text in
  let complexWords := length (filter (fun word => 2 <? countWordSyllables word) words) in
  let totalWords := length words in
  let totalSentences := length sentences in
  let averageWordsPerSentence :=
    Number.div (Number.of_nat totalWords) (Number.of_nat totalSentences) in
  let averageSyllablesPerWord :=
    Number.div (Number.of_nat totalSyllables) (Number.of_nat totalWords) in
  let chars := length (replace_g re_space [] text) in
  let averageCharsPerWord := Number.div (Number.of_nat chars) (Number.of_nat totalWords) in
  let lix := calculateLIX text in
  let longWords := length (filter (fun word => 15 <? length word) words) in
  {| fleschEase :=
       Number.sub
         (Number.sub (Number.dec 206835 3)
                     (Number.mul (Number.dec 1015 3) averageWordsPerSentence))
         (Number.mul (Number.dec 846 1) averageSyllablesPerWord);
     fleschKincaid :=
       Number.sub
         (Number.add (Number.mul (Number.dec 39 2) averageWordsPerSentence)
                     (Number.mul (Number.dec 118 1) averageSyllablesPerWord))
         (Number.dec 1559 2);
     gunningFog :=
       Number.mul (Number.dec 4 1)
         (Number.add averageWordsPerSentence
            (Number.mul (Number.of_nat 100)
               (Number.div (Number.of_nat complexWords) (Number.of_nat totalWords))));
     colemanLiau :=
       Number.sub
         (Number.sub
            (Number.mul (Number.dec 588 4)
               (Number.mul averageCharsPerWord (Number.of_nat 100)))
            (Number.mul (Number.dec 296 3)
               (Number.mul
                  (Number.div (Number.of_nat totalSentences) (Number.of_nat totalWords))
                  (Number.of_nat 100))))
         (Number.dec 158 1);
     averageWordsPerSentence := averageWordsPerSentence;
     averageSyllablesPerWord := averageSyllablesPerWord;
     totalWords := totalWords;
     totalSentences := totalSentences;
     complexWords := complexWords;
     lix := lix;
     longWords := longWords |}.

Definition getReadabilityGrade (score : Number.number) : string :=
  if Number.ge score (Number.of_nat 90) then "Very Easy (5th grade)"
  else if Number.ge score (Number.of_nat 80) then "Easy (6th grade)"
  else if Number.ge score (Number.of_nat 70) then "Fairly Easy (7th grade)"
  else if Number.ge score (Number.of_nat 60) then "Standard (8th-9th grade)"
  else if Number.ge score (Number.of_nat 50) then "Fairly Difficult (10th-12th grade)"
  else if Number.ge score (Number.of_nat 30) then "Difficult (College)"
  else "Very Difficult (College graduate)".

Definition getLIXGrade (score : Number.number) : string :=
  if Number.lt score (Number.of_nat 30) then "Very Easy"
  else if Number.lt score (Number.of_nat 40) then "Easy"
  else if Number.lt score (Number.of_nat 50) then "Moderate"
  else if Number.lt score (Number.of_nat 60) then "Difficult"
  else "Very Difficult".

Definition getReadabilityRecommendations (metrics : ReadabilityMetrics)
    (language : jsstring) : list string :=
  if eqb_string language (js "sv") then
    (if Number.gt (averageWordsPerSentence metrics) (Number.of_nat 15)
     then ["Consider shortening your sentences (aim for 15 words per sentence for Swedish text)"%string]
     else [])
    ++ (if (Number.truthy (lix metrics) && Number.gt (lix metrics) (Number.of_nat 50))%bool
        then ["Text might be too difficult for general audience (aim for LIX below 50)"%string]
        else [])
  else
    (if Number.gt (averageWordsPerSentence metrics) (Number.of_nat 20)
     then ["Consider shortening your sentences (aim for 15-20 words per sentence)"%string]
     else [])
    ++ (if Number.gt (Number.div (Number.of_nat (complexWords metrics))
                                 (Number.of_nat (totalWords metrics)))
                     (Number.dec 2 1)
        then ["Try using simpler words (too many complex words)"%string]
        else [])
    ++ (if (Number.truthy (fleschEase metrics)
            && Number.lt (fleschEase metrics) (Number.of_nat 60))%bool
        then ["Content might be too difficult for general audience (aim for score above 60)"%string]
        else []).

(** The text-improvement service ([improveText] of the OpenAI service) is an
    external call: it resolves to a string or rejects, with an [Error]
    that carries a message or with another value. *)
Inductive textKind : Type := KTitle | KSentence | KParagraph.

Record constraints : Type := mkConstraints {
  maxLength : option nat;
  targetReadingLevel : option jsstring
}.

Inductive improved : Type :=
| Resolved (text : jsstring)
| Rejected (message : option jsstring).

Section ContentAnalyzer.

Variable improveText : jsstring -> textKind -> constraints -> improved.

(** The [try]/[catch] around a call of the service. *)
Definition suggest (text : jsstring) (kind : textKind) (c : constraints)
  : list entry :=
  match improveText text kind c with
  | Resolved improvedText =>
      if 0 <? length improvedText
      then [(Info, [Txt "Suggested improvement:"]); (Info, [Str improvedText])]
      else []
  | Rejected message =>
      [(Warn, [Txt "Could not generate improvement suggestion: ";
               match message with
               | Some m => Str m
               | None => Txt "Unknown error"
               end])]
  end.

Fixpoint checkSentences (index : nat) (sentences : list jsstring) : list entry :=
  match sentences with
  | [] => []
  | sentence :: later =>
      let sentenceWords := length (split_re re_spaces (trim sentence)) in
      (if 20 <? sentenceWords then
         (Warn, [Txt "Long sentence in paragraph "; Int (index + 1); Txt " (";
                 Int sentenceWords; Txt " words): "; dq; Str (trim sentence); dq])
         :: suggest (trim sentence) KSentence (mkConstraints (Some 150) None)
       else [])
      ++ checkSentences index later
  end.

(** Analyze each paragraph individually. *)
Fixpoint checkParagraphs (index : nat) (paragraphs : list jsstring) : list entry :=
  match paragraphs with
  | [] => []
  | paragraph :: later =>
      let text := trim paragraph in
      (if length text =? 0 then []
       else
         let words := wordsOf text in
         (if 40 <? length words then
            (Warn, [Txt "Paragraph "; Int (index + 1); Txt " is quite long (";
                    Int (length words); Txt " words)."])
            :: suggest text KParagraph (mkConstraints None (Some (js "grade 8")))
          else [])
         ++ checkSentences index (sentencesOf text))
      ++ checkParagraphs (S index) later
  end.

(** [document.documentElement.lang.toLowerCase().split('-')[0] || 'en'] *)
Definition languageOf (document : Document) : jsstring :=
  match nth 0 (split_str (js "-") (toLowerCase (lang document))) [] with
  | [] => js "en"
  | l => l
  end.

Definition analyzeContent (document : Document) : list entry :=
  let language := languageOf document in
  let paragraphs := paragraphs document in
  if length paragraphs =? 0 then
    [(Warn, [Txt "No paragraph content found to analyze"])]
  else
    [(Step, [Txt "Content Structure Analysis:"])]
    ++ checkParagraphs 0 paragraphs
    (* Analyze overall content *)
    ++ (let fullText :=
          join (js " ") (filter (fun p => 0 <? length p) (map trim paragraphs)) in
        let metrics := calculateMetrics fullText language in
        [(Step, [Txt "Readability Analysis:"])]
        ++ (if eqb_string language (js "sv") then
              [(Info, [Txt "LIX Score: "; Num (Number.round (lix metrics));
                       Txt " ("; Txt (getLIXGrade (lix metrics)); Txt ")"])]
            else
              [(Info, [Txt "Flesch Reading Ease: ";
                       Num (Number.round (fleschEase metrics));
                       Txt " ("; Txt (getReadabilityGrade (fleschEase metrics)); Txt ")"]);
               (Info, [Txt "Flesch-Kincaid Grade Level: ";
                       Num (Number.round (fleschKincaid metrics))]);
               (Info, [Txt "Gunning Fog Index: ";
                       Num (Number.round (gunningFog metrics))]);
               (Info, [Txt "Coleman-Liau Index: ";
                       Num (Number.round (colemanLiau metrics))])])
        ++ [(Step, [Txt "Content Statistics:"]);
            (Info, [Txt "Total Words: "; Int (totalWords metrics)]);
            (Info, [Txt "Total Sentences: "; Int (totalSentences metrics)]);
            (Info, [Txt "Average Words per Sentence: ";
                    Num (Number.div
                           (Number.round
                              (Number.mul (averageWordsPerSentence metrics)
                                          (Number.of_nat 10)))
                           (Number.of_nat 10))])]
        ++ [if eqb_string language (js "sv") then
              (Info, [Txt "Long Words: "; Int (longWords metrics); Txt " (";
                      Num (Number.round
                             (Number.mul
                                (Number.div (Number.of_nat (longWords metrics))
                                            (Number.of_nat (totalWords metrics)))
                                (Number.of_nat 100)));
                      Txt "%)"])
            else
              (Info, [Txt "Complex Words: "; Int (complexWords metrics); Txt " (";
                      Num (Number.round
                             (Number.mul
                                (Number.div (Number.of_nat (complexWords metrics))
                                            (Number.of_nat (totalWords metrics)))
                                (Number.of_nat 100)));
                      Txt "%)"])]
        (* Display recommendations *)
        ++ (let recommendations := getReadabilityRecommendations metrics language in
            if 0 <? length recommendations then
              (Step, [Txt "Recommendations:"])
              :: map (fun rec => (Warn, [Txt rec])) recommendations
            else [])).

End ContentAnalyzer.

(* ===================================================================== *)
(** * Part IV. Reference descriptions                                    *)
(* ===================================================================== *)

(** The descriptions the analyzers are compared with: the operations on
    strings written as plain list functions, the syllable rule in the
    words of the specification, and the rule the code implements. *)

(** The longest prefix of code units that satisfy [p], and what is left
    after it. *)
Fixpoint takeWhile (p : ascii -> bool) (s : jsstring) : jsstring :=
  match s with
  | c :: s' => if p c then c :: takeWhile p s' else []
  | [] => []
  end.

Fixpoint dropWhile (p : ascii -> bool) (s : jsstring) : jsstring :=
  match s with
  | c :: s' => if p c then dropWhile p s' else s
  | [] => []
  end.

(** The matcher of a character class, as a function of the set it accepts. *)
Definition classMatcher (p : ascii -> bool) : matcher :=
  fun _ s k =>
    match s with
    | c :: s' => if p c then k (Some c) s' else None
    | [] => None
    end.

(** Two properties of a matcher on which the bounds of the fuel rest: it
    looks at its continuation only on inputs that are no longer than its
    own, and an answer it gives is an answer of its continuation on such
    an input. *)
Definition local (m : matcher) : Prop :=
  forall prev s (k1 k2 : cont),
    (forall p' s', length s' <= length s -> k1 p' s' = k2 p' s') ->
    m prev s k1 = m prev s k2.

Definition consuming (m : matcher) : Prop :=
  forall prev s (k : cont) z,
    m prev s k = Some z ->
    exists p' s', length s' <= length s /\ k p' s' = Some z.

(** The characters [normalizeText] removes. *)
Definition isPunctuation (c : ascii) : bool :=
  existsb (fun p => N.eqb (code p) (code c)) (js ".,/#!$%^&*;:{}=-_`~()").

(** A run of white space becomes one SPACE; [in_run] tells that the
    previous code unit was white space. *)
Fixpoint squeeze (sep : jsstring) (in_run : bool) (s : jsstring) : jsstring :=
  match s with
  | [] => []
  | c :: s' =>
      if isWhiteSpace c
      then (if in_run then squeeze sep true s' else sep ++ squeeze sep true s')
      else c :: squeeze sep false s'
  end.

(** No white space but single SPACEs: the strings [squeeze] leaves alone. *)
Fixpoint squeezed (in_run : bool) (s : jsstring) : bool :=
  match s with
  | [] => true
  | c :: s' =>
      if isWhiteSpace c
      then (negb in_run && Ascii.eqb c " " && squeezed true s')%bool
      else squeezed false s'
  end.

Definition isLowerLetter (c : ascii) : bool := between 97 122 (code c).

Definition isVowelY (c : ascii) : bool :=
  existsb (fun v => N.eqb (code v) (code c)) (js "aeiouy").

Definition isVowelYL (c : ascii) : bool :=
  existsb (fun v => N.eqb (code v) (code c)) (js "laeiouy").

(** The number of maximal runs of vowel-or-y characters. *)
Fixpoint vowelRuns (in_run : bool) (s : jsstring) : nat :=
  match s with
  | [] => 0
  | c :: s' =>
      if isVowelY c
      then (if in_run then 0 else 1) + vowelRuns true s'
      else vowelRuns false s'
  end.

(** The number of groups when every run of vowel-or-y characters is cut,
    from its left end, into groups of two (the last one of one character
    when the run is odd); [half] tells that the previous character opened
    a group that the next vowel closes. *)
Fixpoint vowelGroups (half : bool) (s : jsstring) : nat :=
  match s with
  | [] => 0
  | c :: s' =>
      if isVowelY c
      then (if half then vowelGroups false s' else 1 + vowelGroups true s')
      else vowelGroups false s'
  end.

Definition stripLeadingY (s : jsstring) : jsstring :=
  match s with
  | c :: s' => if N.eqb (code c) 121 then s' else s
  | [] => []
  end.

(** The silent ending in the words of the specification, read off the end
    of the word: a character that is no vowel or y followed by [es] or
    [ed], or such a character followed by [e]. *)
Definition dropSilentEnding_spec (s : jsstring) : jsstring :=
  match rev s with
  | x :: e :: c :: r =>
      if (N.eqb (code e) 101 && (N.eqb (code x) 115 || N.eqb (code x) 100)
          && negb (isVowelY c))%bool then rev r
      else if (N.eqb (code x) 101 && negb (isVowelY e))%bool then rev (c :: r)
      else s
  | [x; e] =>
      if (N.eqb (code x) 101 && negb (isVowelY e))%bool then [] else s
  | _ => s
  end.

(** Following the specification's words: strip the non-letters and lower
    the case; a word of at most three letters counts one; otherwise drop
    the silent ending, strip a leading [y] and count the maximal runs of
    vowel-or-y characters, at least one. *)
Definition countWordSyllables_spec (word : jsstring) : nat :=
  let word := filter isLowerLetter (toLowerCase word) in
  if length word <=? 3 then 1
  else Nat.max 1 (vowelRuns false (stripLeadingY (dropSilentEnding_spec word))).

(** The ending the code drops: a character other than [l], a vowel or [y]
    followed by [es]; or [ed] after anything; or a character other than
    [l], a vowel or [y] followed by [e]. *)
Definition dropSilentEnding (s : jsstring) : jsstring :=
  match rev s with
  | x :: e :: r =>
      if (N.eqb (code x) 115 && N.eqb (code e) 101
          && match r with c :: _ => negb (isVowelYL c) | [] => false end)%bool
      then rev (tl r)
      else if (N.eqb (code x) 100 && N.eqb (code e) 101)%bool then rev r
      else if (N.eqb (code x) 101 && negb (isVowelYL e))%bool then rev r
      else s
  | _ => s
  end.

(** The endings [re_silent_ending] matches, and the word cut at the first
    position where one starts. *)
Definition silentEnding (t : jsstring) : bool :=
  match t with
  | [c; x; y] =>
      (negb (isVowelYL c) && N.eqb (code x) 101 && N.eqb (code y) 115)%bool
  | [x; y] =>
      ((N.eqb (code x) 101 && N.eqb (code y) 100)
       || (negb (isVowelYL x) && N.eqb (code y) 101))%bool
  | _ => false
  end.

Fixpoint cutSilentEnding (s : jsstring) : jsstring :=
  if silentEnding s then []
  else match s with
       | [] => []
       | c :: s' => c :: cutSilentEnding s'
       end.

(** The rule of the code on lists. *)
Definition countWordSyllables_rule (word : jsstring) : nat :=
  let word := filter isLowerLetter (toLowerCase word) in
  if length word <=? 3 then 1
  else Nat.max 1 (vowelGroups false (stripLeadingY (dropSilentEnding word))).

(** The occurrences found in a text, with none when the finder throws, and
    what a heading element contributes to the heading counts. *)
Definition found (keyword : jsstring) (text : jsstring) : list jsstring :=
  match findKeywordOccurrences text keyword with
  | Returns occ => occ
  | Throws => []
  end.

Definition occurrencesIn (keyword : jsstring) (el : jsstring) : nat :=
  length (found keyword el).

(** The words of a keyword as [calculateSimilarity] takes them: lower case,
    split at every SPACE. *)
Definition tokens (keyword : jsstring) : list jsstring :=
  split_str (js " ") (toLowerCase keyword).

(** A number whose sign bit is [s]; NaN has none. *)
Definition signed (s : bool) (x : Number.number) : Prop :=
  match x with
  | S754_zero s' | S754_infinity s' | S754_finite s' _ _ => s' = s
  | S754_nan => False
  end.

(** A number whose sign bit is clear, or NaN: what is not below zero. *)
Definition unsigned (x : Number.number) : Prop :=
  match x with
  | S754_zero s | S754_infinity s | S754_finite s _ _ => s = false
  | S754_nan => True
  end.

(** The density formula: occurrences times keyword words over body words,
    in percent. *)
Definition densityOf (occurrenceCount keywordWordCount bodyWordCount : nat)
  : Number.number :=
  Number.mul
    (Number.div
       (Number.mul (Number.of_nat occurrenceCount) (Number.of_nat keywordWordCount))
       (Number.of_nat bodyWordCount))
    (Number.of_nat 100).

(** A keyword whose analysis cannot throw: it has several words, or the
    pattern built from its single word is accepted. *)
Definition analyzable (keyword : jsstring) : bool :=
  let normalizedKeyword := normalizeText keyword in
  if length (split_str (js " ") normalizedKeyword) =? 1 then
    match compile (js "\b" ++ normalizedKeyword ++ js "\b") with
    | Pattern _ => true
    | SyntaxError => false
    end
  else true.

(** The keyword an entry announces the analysis of, if it is such an entry,
    and the keywords a log announces, in the order of the log. *)
Definition announcement (e : entry) : option jsstring :=
  match e with
  | (Info, [_; Int _; Txt t; _; Str keyword; _]) =>
      if String.eqb t ". Analyzing keyword: " then Some keyword else None
  | _ => None
  end.

Fixpoint announced (log : list entry) : list jsstring :=
  match log with
  | [] => []
  | e :: log' =>
      match announcement e with
      | Some keyword => keyword :: announced log'
      | None => announced log'
      end
  end.

(** ** Example pages *)

(** A page whose only paragraph is empty, in English. *)
Definition emptyParagraphPage : Document :=
  mkDocument (js "en") [] None [[]] [] [] [] None None.

(** A text-improvement service that is down. *)
Definition noService : jsstring -> textKind -> constraints -> improved :=
  fun _ _ _ => Rejected None.

(** An H1 and an H2 that both read "cat". *)
Definition catHeadingsPage : Document :=
  mkDocument (js "en") (js "cat cat") None [] [js "cat"] [js "cat"] [] None None.

(** An H1 "solar" and an H2 "energy". *)
Definition solarHeadingsPage : Document :=
  mkDocument (js "en") (js "solar energy") None [] [js "solar"] [js "energy"] []
             None None.

(** A page whose body is "cat dog". *)
Definition catDogPage : Document :=
  mkDocument (js "en") (js "cat dog") None [js "cat dog"] [] [] [] None None.

(** A page about solar energy at the path /solar-energy. *)
Definition solarEnergyPage : Document :=
  mkDocument (js "en") (js "Solar energy for all") (Some (js "Solar energy"))
             [js "Solar energy for all"] [js "Solar energy"] [] [] None
             (Some (js "/solar-energy")).

(* ===================================================================== *)
(** * Part IV-A. The title, heading, image, link and Lighthouse analyzers *)
(* ===================================================================== *)

(** ** constants.ts

    A separator is a string of one UTF-16 code unit: the vertical bar, the
    hyphen, the en dash (U+2013), the em dash (U+2014) and the colon.  The
    two dashes lie above the code units of [jsstring]. *)

Definition TITLE_SEPARATORS : list (list N) :=
  [[124%N]; [45%N]; [8211%N]; [8212%N]; [58%N]].

Definition BRAND_POSITION_END : string := "end".

Module SEO_RULES.
Module TITLE_LENGTH.
Definition MIN : nat := 50.
Definition MAX : nat := 60.
End TITLE_LENGTH.
Module META_DESCRIPTION_LENGTH.
Definition MIN : nat := 120.
Definition MAX : nat := 155.
End META_DESCRIPTION_LENGTH.
End SEO_RULES.

(** The string of the model that has the given code units, if they are all
    below 256. *)
Definition fromCodeUnits (units : list N) : option jsstring :=
  if forallb (fun n => N.ltb n 256) units
  then Some (map ascii_of_N units) else None.

(** A string or [null] in a template literal. *)
Definition orNull (x : option jsstring) : frag :=
  match x with
  | Some s => Str s
  | None => Txt "null"
  end.

(** ** analyzers/titleAnalyzer.ts *)

Module TitleAnalyzer.

Record TitleAnalysis : Type := mkTitleAnalysis {
  hasSeparator : bool;
  segments : list jsstring;
  separator : option jsstring
}.

(** [title.includes(sep)]: a title, whose code units are below 256,
    includes no string that has a larger one. *)
Definition includesUnits (title : jsstring) (sep : list N) : bool :=
  match fromCodeUnits sep with
  | Some p => includes title p
  | None => false
  end.

Definition analyzeTitleFormat (title : jsstring) : TitleAnalysis :=
  let usedSeparator :=
    match find (includesUnits title) TITLE_SEPARATORS with
    | Some units => fromCodeUnits units
    | None => None
    end in
  match usedSeparator with
  | None | Some [] =>
      {| hasSeparator := false; segments := [title]; separator := None |}
  | Some usedSeparator =>
      let segments := map trim (split_str usedSeparator title) in
      {| hasSeparator := true; segments := segments;
         separator := Some usedSeparator |}
  end.

End TitleAnalyzer.

(** ** analyzers/seoAnalyzer.ts *)

Module SeoAnalyzer.

Import TitleAnalyzer.

Definition analyzeTitle (title : jsstring) : list entry :=
  if length title =? 0 then [(Error, [Txt "Title tag is missing!"])]
  else
    (* Length check *)
    [if length title <? SEO_RULES.TITLE_LENGTH.MIN then
       (Warn, [Txt "Title length ("; Int (length title);
               Txt " chars) is too short. Recommended: ";
               Int SEO_RULES.TITLE_LENGTH.MIN; Txt "-";
               Int SEO_RULES.TITLE_LENGTH.MAX; Txt " characters"])
     else if SEO_RULES.TITLE_LENGTH.MAX <? length title then
       (Warn, [Txt "Title length ("; Int (length title);
               Txt " chars) is too long. Recommended: ";
               Int SEO_RULES.TITLE_LENGTH.MIN; Txt "-";
               Int SEO_RULES.TITLE_LENGTH.MAX; Txt " characters"])
     else
       (Success, [Txt "Title length ("; Int (length title); Txt " chars) is optimal"])]
    ++ [(Info, [Txt "Title: "; Str title])]
    (* Format analysis *)
    ++ (let titleAnalysis := analyzeTitleFormat title in
        if negb (hasSeparator titleAnalysis) then
          [(Warn, [Txt "Title doesn't use a separator. Consider format: "; dq;
                   Txt "Primary Keyword - Secondary Keyword | Brand"; dq])]
        else
          [(Info, [Txt "Title separator used: "; dq;
                   orNull (separator titleAnalysis); dq])]
          ++ (if 3 <? length (segments titleAnalysis) then
                [(Warn, [Txt "Title has too many segments. Consider limiting to 2-3 parts"])]
              else [])
          ++ (let brandSegment :=
                (* the array of segments is never empty *)
                if String.eqb BRAND_POSITION_END "end"
                then nth (length (segments titleAnalysis) - 1) (segments titleAnalysis) []
                else nth 0 (segments titleAnalysis) [] in
              if length brandSegment <? 3 then
                [(Warn, [Txt "Brand segment seems too short. Make sure brand name is included at the ";
                         Txt BRAND_POSITION_END])]
              else [])
          ++ [(Info, [Txt "Title segments:"])]
          ++ map (fun iseg => (Info, [Txt "   "; Int (fst iseg + 1); Txt ". "; dq;
                                    Str (snd iseg); dq]))
                 (combine (seq 0 (length (segments titleAnalysis)))
                          (segments titleAnalysis))).

Definition analyzeMetaDescription (metaDescription : jsstring) : list entry :=
  if length metaDescription =? 0 then [(Error, [Txt "Meta description is missing!"])]
  else
    [if length metaDescription <? SEO_RULES.META_DESCRIPTION_LENGTH.MIN then
       (Warn, [Txt "Meta description length ("; Int (length metaDescription);
               Txt " chars) is too short. Recommended: ";
               Int SEO_RULES.META_DESCRIPTION_LENGTH.MIN; Txt "-";
               Int SEO_RULES.META_DESCRIPTION_LENGTH.MAX; Txt " characters"])
     else if SEO_RULES.META_DESCRIPTION_LENGTH.MAX <? length metaDescription then
       (Warn, [Txt "Meta description length ("; Int (length metaDescription);
               Txt " chars) is too long. Recommended: ";
               Int SEO_RULES.META_DESCRIPTION_LENGTH.MIN; Txt "-";
               Int SEO_RULES.META_DESCRIPTION_LENGTH.MAX; Txt " characters"])
     else
       (Success, [Txt "Meta description length ("; Int (length metaDescription);
                  Txt " chars) is optimal"])]
    ++ [(Info, [Txt "Meta Description: "; Str metaDescription])].

End SeoAnalyzer.

(** ** analyzers/headingAnalyzer.ts

    The repository holds the heading analyzer twice: [HeadingAnalyzer] is
    the text that reports on the H1 elements only, [HeadingLengthAnalyzer]
    the one that also checks the lengths of the H1 and H2 texts. *)

(** [text.replace(/\s+/g, ' ').trim()] *)
Definition cleanHeadingText (text : jsstring) : jsstring :=
  trim (replace_g re_spaces (js " ") text).

(** [elements.forEach((element, index) => ...)]: the elements with their
    indices. *)
Definition entries {A : Type} (l : list A) : list (nat * A) :=
  combine (seq 0 (length l)) l.

Module HeadingAnalyzer.

Definition analyzeHeadings (document : Document) : list entry :=
  let h1Elements := h1s document in
  let h1Count := length h1Elements in
  let nonEmptyH1s := filter (fun h1 => 0 <? length (trim h1)) h1Elements in
  if h1Count =? 0 then
    [(Error, [Txt "No H1 heading found on the page - this is crucial for SEO"])]
  else
    (if 1 <? h1Count then
       (Warn, [Txt "Multiple H1 headings found ("; Int h1Count;
               Txt "). Best practice is to have exactly one H1 per page"])
       :: map (fun ih => (Info, [Txt "   H1 #"; Int (fst ih + 1); Txt ": "; dq;
                                 Str (cleanHeadingText (snd ih)); dq]))
              (entries nonEmptyH1s)
     else [])
    ++ (if ((h1Count =? 1) && (length nonEmptyH1s =? 1))%bool then
          [(Success, [Txt "Single H1 tag found (recommended)"]);
           (Info, [Txt "   H1: "; dq; Str (cleanHeadingText (nth 0 nonEmptyH1s [])); dq])]
        else [])
    ++ (if negb (h1Count =? length nonEmptyH1s) then
          [(Error, [Txt "Empty H1 tag(s) found ("; Int (h1Count - length nonEmptyH1s);
                    Txt " empty)"])]
        else []).

End HeadingAnalyzer.

Module HeadingLengthAnalyzer.

Definition analyzeHeadings (document : Document) : list entry :=
  let h1Elements := h1s document in
  let h1Count := length h1Elements in
  let nonEmptyH1s := filter (fun h1 => 0 <? length (trim h1)) h1Elements in
  if h1Count =? 0 then
    [(Error, [Txt "No H1 heading found on the page - this is crucial for SEO"])]
  else
    (* Add length checks for H1 *)
    flat_map (fun ih =>
                let text := cleanHeadingText (snd ih) in
                let length := length text in
                if length <? 20 then
                  [(Warn, [Txt "H1 #"; Int (fst ih + 1); Txt " might be too short (";
                           Int length; Txt " chars): "; dq; Str text; dq])]
                else if 70 <? length then
                  [(Warn, [Txt "H1 #"; Int (fst ih + 1); Txt " might be too long (";
                           Int length; Txt " chars): "; dq; Str text; dq])]
                else [])
             (entries nonEmptyH1s)
    ++ (if 1 <? h1Count then
          (Warn, [Txt "Multiple H1 headings found ("; Int h1Count;
                  Txt "). Best practice is to have exactly one H1 per page"])
          :: map (fun ih => (Info, [Txt "H1 #"; Int (fst ih + 1); Txt ": "; dq;
                                    Str (cleanHeadingText (snd ih)); dq]))
                 (entries nonEmptyH1s)
        else [])
    ++ (if ((h1Count =? 1) && (length nonEmptyH1s =? 1))%bool then
          let h1Text := cleanHeadingText (nth 0 nonEmptyH1s []) in
          [(Success, [Txt "Single H1 tag found (recommended)"]);
           (Info, [Txt "H1: "; dq; Str h1Text; dq; Txt " ("; Int (length h1Text);
                   Txt " characters)"])]
        else [])
    ++ (if negb (h1Count =? length nonEmptyH1s) then
          [(Error, [Txt "Empty H1 tag(s) found ("; Int (h1Count - length nonEmptyH1s);
                    Txt " empty)"])]
        else [])
    (* Optional: Check other heading levels *)
    ++ flat_map (fun ih =>
                   let text := cleanHeadingText (snd ih) in
                   if 60 <? length text then
                     [(Warn, [Txt "H2 #"; Int (fst ih + 1); Txt " is too long (";
                              Int (length text); Txt " chars): "; dq; Str text; dq])]
                   else [])
                (entries (h2s document)).

End HeadingLengthAnalyzer.

(** ** [parseInt(string)] without a radix

    The leading white space is skipped, then a sign, then [0x] or [0X],
    which selects the radix 16; the value is that of the longest prefix
    of digits of the radix, and NaN when there is none.  The number
    returned is the binary64 value nearest to the integer. *)

Definition digitValue (c : ascii) : option N :=
  let n := code c in
  if between 48 57 n then Some (n - 48)%N
  else if between 97 122 n then Some (n - 87)%N
  else if between 65 90 n then Some (n - 55)%N
  else None.

Fixpoint digitsValue (radix : N) (acc : option N) (s : jsstring) : option N :=
  match s with
  | c :: s' =>
      match digitValue c with
      | Some d =>
          if (d <? radix)%N
          then digitsValue radix
                 (Some (match acc with Some a => a * radix + d | None => d end)%N) s'
          else acc
      | None => acc
      end
  | [] => acc
  end.

Definition parseInt (string : jsstring) : Number.number :=
  let s := trimStart string in
  let '(sign, s) :=
    match s with
    | c :: s' =>
        if N.eqb (code c) 45 then (true, s')
        else if N.eqb (code c) 43 then (false, s')
        else (false, s)
    | [] => (false, s)
    end in
  let '(radix, s) :=
    match s with
    | z :: x :: s' =>
        if (N.eqb (code z) 48 && (N.eqb (code x) 120 || N.eqb (code x) 88))%bool
        then (16%N, s') else (10%N, s)
    | _ => (10%N, s)
    end in
  match digitsValue radix None s with
  | None => Number.NaN
  | Some 0%N => S754_zero sign
  | Some mathInt =>
      Number.of_Z (if sign then - Z.of_N mathInt else Z.of_N mathInt)
  end.

(** ** analyzers/imageAnalyzer.ts *)

Module ImageAnalyzer.

(** The attributes of an [img] element that the analyzer reads; [None]
    where the element does not have the attribute. *)
Record Image : Type := mkImage {
  alt : option jsstring;
  src : option jsstring;
  width : option jsstring;
  height : option jsstring
}.

(** [img.getAttribute(name) || '0'] *)
Definition orZero (x : option jsstring) : jsstring :=
  match x with
  | None | Some [] => js "0"
  | Some s => s
  end.

(** [images] is [document.querySelectorAll('img')]. *)
Definition analyzeImages (images : list Image) : list entry :=
  if length images =? 0 then [(Info, [Txt "No images found on the page"])]
  else
    [(Info, [Txt "Found "; Int (length images); Txt " images"])]
    ++ (let imagesWithoutAlt :=
          filter (fun img => negb (match alt img with Some _ => true | None => false end))
                 images in
        if 0 <? length imagesWithoutAlt then
          (Error, [Int (length imagesWithoutAlt); Txt " images missing alt text"])
          :: map (fun img => (Info, [Txt "   Missing alt: "; orNull (src img)]))
                 imagesWithoutAlt
        else [])
    (* Check for large images *)
    ++ flat_map
         (fun img =>
            let width := parseInt (orZero (width img)) in
            let height := parseInt (orZero (height img)) in
            if (Number.gt width (Number.of_nat 1920)
                || Number.gt height (Number.of_nat 1080))%bool then
              [(Warn, [Txt "Large image found: "; orNull (src img); Txt " (";
                       Num width; Txt "x"; Num height; Txt ")"])]
            else [])
         images.

End ImageAnalyzer.

(** ** analyzers/lighthouseAnalyzer.ts

    The report of the four category scores.  A score is a number, or is
    missing ([null] or [undefined]). *)

Module LighthouseAnalyzer.

Definition reportScore (name : string) (score : option Number.number) : entry :=
  match score with
  | None => (Warn, [Txt name; Txt ": N/A"])
  | Some score =>
      if negb (Number.truthy score) then (Warn, [Txt name; Txt ": N/A"])
      else
        let numericScore := Number.round (Number.mul score (Number.of_nat 100)) in
        if Number.ge numericScore (Number.of_nat 90) then
          (Success, [Txt name; Txt ": "; Num numericScore])
        else if Number.ge numericScore (Number.of_nat 50) then
          (Warn, [Txt name; Txt ": "; Num numericScore])
        else
          (Error, [Txt name; Txt ": "; Num numericScore])
  end.

Definition reportScores (performance accessibility bestPractices seo : option Number.number)
  : list entry :=
  (Step, [Txt "Lighthouse Scores:"])
  :: map (fun ns => reportScore (fst ns) (snd ns))
         [("Performance"%string, performance);
          ("Accessibility"%string, accessibility);
          ("Best Practices"%string, bestPractices);
          ("SEO"%string, seo)].

End LighthouseAnalyzer.

(** ** analyzers/linkAnalyzer.ts *)

(** The arrow U+2192 and the bullet U+2022 of the message templates, in
    UTF-8. *)
Definition arrow : frag :=
  Txt (String (ascii_of_nat 226) (String (ascii_of_nat 134)
         (String (ascii_of_nat 146) EmptyString))).
Definition bullet : frag :=
  Txt (String (ascii_of_nat 226) (String (ascii_of_nat 128)
         (String (ascii_of_nat 162) EmptyString))).

Module LinkAnalyzer.

Record LinkAnalysis : Type := mkLinkAnalysis {
  total : nat;
  internal : nat;
  external : nat;
  broken : nat;
  nofollow : nat;
  emptyHrefs : nat;
  missingText : nat;
  duplicates : nat
}.

Record LinkDetails : Type := mkLinkDetails {
  href : jsstring;
  text : jsstring;
  isInternal : bool;
  isNofollow : bool;
  hasValidText : bool
}.

(** What the analyzer reads of an [a] element: its text content, four
    attributes, and the [alt] attribute of its first [img] descendant
    ([None] where there is no such attribute or element). *)
Record Anchor : Type := mkAnchor {
  textContent : jsstring;
  attr_href : option jsstring;
  attr_rel : option jsstring;
  attr_ariaLabel : option jsstring;
  attr_title : option jsstring;
  img : option (option jsstring)
}.

(** [document.location?.origin], which is read inside a [try]. *)
Inductive origin : Type :=
| OriginThrows
| Origin (value : option jsstring).

(** A parsed URL: its serialization and its host name. *)
Record URL : Type := mkURL {
  toString : jsstring;
  hostname : jsstring
}.

(** The answer to a [fetch]: a response whose [ok] is true or false, or
    a rejection. *)
Inductive response : Type := Ok | NotOk | Failed.

(** [x?.trim() || ''] *)
Definition trimOrEmpty (x : option jsstring) : jsstring :=
  match x with
  | Some s => trim s
  | None => []
  end.

Definition getLinkText (link : Anchor) : jsstring :=
  (* First try to get the text content *)
  let text := trim (textContent link) in
  (* If no text content, check for aria-label *)
  let text := if length text =? 0 then trimOrEmpty (attr_ariaLabel link) else text in
  (* If still no text, check for title attribute *)
  let text := if length text =? 0 then trimOrEmpty (attr_title link) else text in
  (* If still no text, check for img alt text *)
  let text :=
    if length text =? 0 then
      match img link with
      | Some alt => trimOrEmpty alt
      | None => text
      end
    else text in
  text.

Definition invalidTexts : list jsstring :=
  [js "click here"; js "read more"; js "learn more"; js "more info"; js "here";
   js "link"].

Definition hasValidLinkText (text href : jsstring) : bool :=
  if length text =? 0 then false
  else
    let lowercaseText := toLowerCase text in
    (negb (existsb (eqb_string lowercaseText) invalidTexts) && (2 <? length text))%bool.

(** [link.text || '[No text]'] and
    [link.href.slice(0, 50) + (link.href.length > 50 ? '...' : '')]. *)
Definition textPreview (l : LinkDetails) : jsstring :=
  if length (text l) =? 0 then js "[No text]" else text l.

Definition hrefPreview (l : LinkDetails) : jsstring :=
  slice 0 50 (href l) ++ (if 50 <? length (href l) then js "..." else []).

Definition internalRatio (analysis : LinkAnalysis) : Number.number :=
  Number.mul (Number.div (Number.of_nat (internal analysis))
                         (Number.of_nat (total analysis)))
             (Number.of_nat 100).

Definition displayLinkAnalysis (analysis : LinkAnalysis) (links : list LinkDetails)
  : list entry :=
  [(Info, [nl; Txt "Link Analysis Results:"]);
   (Info, [Txt "Total Links: "; Int (total analysis)]);
   (Info, [Txt "Internal Links: "; Int (internal analysis)]);
   (Info, [Txt "External Links: "; Int (external analysis)]);
   (Info, [Txt "Nofollow Links: "; Int (nofollow analysis)])]
  ++ (if 0 <? emptyHrefs analysis then
        [(Warn, [Txt "Empty href attributes: "; Int (emptyHrefs analysis)])]
      else [])
  ++ (if 0 <? missingText analysis then
        [(Warn, [Txt "Links with missing or generic text: "; Int (missingText analysis)])]
      else [])
  ++ (if 0 <? duplicates analysis then
        [(Warn, [Txt "Duplicate links: "; Int (duplicates analysis)])]
      else [])
  (* Display distribution of internal vs external links *)
  ++ (let internalRatio := internalRatio analysis in
      if 0 <? total analysis then
        [(Info, [nl; Txt "Link Distribution: "; Fixed 1 internalRatio;
                 Txt "% internal, ";
                 Fixed 1 (Number.sub (Number.of_nat 100) internalRatio);
                 Txt "% external"])]
      else [])
  (* Add example links with their text *)
  ++ (if 0 <? length links then
        (Info, [nl; Txt "Example Links:"])
        :: map (fun il => (Info, [Int (fst il + 1); Txt ". "; dq;
                                  Str (textPreview (snd il)); dq; Txt " "; arrow;
                                  Txt " "; Str (hrefPreview (snd il))]))
               (entries (slice 0 3 links))
      else []).

Definition provideLinkRecommendations (analysis : LinkAnalysis)
    (links : list LinkDetails) : list entry :=
  (Info, [nl; Txt "Recommendations:"])
  :: (if total analysis =? 0 then
        [(Warn, [Txt "- Consider adding some links to provide more value to your readers"])]
      else
        (if internal analysis =? 0 then
           [(Warn, [Txt "- Add internal links to help with site navigation and SEO"])]
         else [])
        ++ (if external analysis =? 0 then
              [(Warn, [Txt "- Consider adding external links to authoritative sources"])]
            else [])
        ++ (if 0 <? missingText analysis then
              (Warn, [Txt "- Improve accessibility by replacing generic or missing link text:"])
              :: map (fun l => (Info, [Txt "  "; bullet; Txt " "; dq;
                                       Str (textPreview l); dq; Txt " "; arrow;
                                       Txt " "; Str (hrefPreview l)]))
                     (slice 0 3 (filter (fun l => negb (hasValidText l)) links))
            else [])
        ++ (if 0 <? emptyHrefs analysis then
              [(Warn, [Txt "- Fix links with empty href attributes"])]
            else [])
        ++ (if 0 <? duplicates analysis then
              [(Warn, [Txt "- Consider reducing duplicate links to improve user experience"])]
            else [])
        ++ (let internalRatio := internalRatio analysis in
            if Number.lt internalRatio (Number.of_nat 20) then
              [(Warn, [Txt "- Consider adding more internal links to improve site navigation"])]
            else if Number.gt internalRatio (Number.of_nat 80) then
              [(Warn, [Txt "- Consider adding more external links to authoritative sources"])]
            else [])
        ++ (if 0 <? broken analysis then
              [(Error, [Txt "- Fix broken links to improve user experience and SEO"])]
            else [])).

Section Environment.

(** [new URL(url)] and [new URL(url, base)], [None] when the constructor
    throws; whether a global [window] is defined; and the answer of
    [fetch(url, { method: 'HEAD', mode: 'no-cors' })]. *)
Variable newURL : jsstring -> option jsstring -> option URL.
Variable hasWindow : bool.
Variable fetch : jsstring -> response.

Definition isInternalLink (href baseUrl : jsstring) : bool :=
  if length href =? 0 then true
  else if startsWith (js "/") href then true
  else if ((0 <? length baseUrl) && startsWith baseUrl href)%bool then true
  else if negb (startsWith (js "http") href) then true
  else if length baseUrl =? 0 then false
  else
    match newURL href None, newURL baseUrl None with
    | Some url, Some base => eqb_string (hostname url) (hostname base)
    | _, _ => true     (* If URL parsing fails, assume it's internal *)
    end.

(** One turn of [links.forEach]: the link details and the URLs seen so
    far. *)
Definition collect (baseUrl : jsstring)
    (state : list LinkDetails * list jsstring) (link : Anchor)
  : list LinkDetails * list jsstring :=
  let '(linkDetails, seenUrls) := state in
  let href := orEmpty (attr_href link) in
  let text := getLinkText link in
  let rel := orEmpty (attr_rel link) in
  (* Skip anchor links and javascript: links *)
  if (startsWith (js "#") href || startsWith (js "javascript:") href)%bool then state
  else
    let fullUrl :=
      let isInternal := isInternalLink href baseUrl in
      if (isInternal && (0 <? length baseUrl) && startsWith (js "/") href)%bool then
        match newURL href (Some baseUrl) with
        | Some url => toString url
        | None => href       (* If URL parsing fails, use the href as is *)
        end
      else if startsWith (js "http") href then
        match newURL href None with
        | Some url => toString url
        | None => href
        end
      else href in
    (linkDetails
       ++ [{| href := fullUrl;
              text := text;
              isInternal := isInternalLink href baseUrl;
              isNofollow := includes rel (js "nofollow");
              hasValidText := hasValidLinkText text href |}],
     if 0 <? length fullUrl then JSSet.add seenUrls fullUrl else seenUrls).

(** The loop of [checkBrokenLinks]: the entries logged, the URLs fetched,
    in this order, and the count of broken links. *)
Fixpoint checkBrokenLinks_loop (links : list LinkDetails) (checkedUrls : list jsstring)
    (brokenCount : nat) : list entry * list jsstring * nat :=
  match links with
  | [] => ([], [], brokenCount)
  | link :: later =>
      if ((length (href link) =? 0) || JSSet.has checkedUrls (href link))%bool
      then checkBrokenLinks_loop later checkedUrls brokenCount
      else
        let '(log, failed) :=
          match fetch (href link) with
          | Ok => ([], 0)
          | NotOk => ([(Error, [Txt "Broken link found: "; Str (href link)])], 1)
          | Failed => ([(Error, [Txt "Could not access: "; Str (href link)])], 1)
          end in
        let '(log', fetched, n) :=
          checkBrokenLinks_loop later (JSSet.add checkedUrls (href link))
                                (brokenCount + failed) in
        (log ++ log', href link :: fetched, n)
  end.

Definition checkBrokenLinks (links : list LinkDetails) (analysis : LinkAnalysis)
  : list entry * list jsstring * LinkAnalysis :=
  let '(log, fetched, brokenCount) := checkBrokenLinks_loop links [] 0 in
  (log, fetched,
   {| total := total analysis; internal := internal analysis;
      external := external analysis; broken := brokenCount;
      nofollow := nofollow analysis; emptyHrefs := emptyHrefs analysis;
      missingText := missingText analysis; duplicates := duplicates analysis |}).

(** The analysis of the links collected. *)
Definition analysisOf (linkDetails : list LinkDetails) (seenUrls : list jsstring)
  : LinkAnalysis :=
  {| total := length linkDetails;
     internal := length (filter (fun l => isInternal l) linkDetails);
     external := length (filter (fun l => negb (isInternal l)) linkDetails);
     broken := 0;          (* Will be updated after checking *)
     nofollow := length (filter (fun l => isNofollow l) linkDetails);
     emptyHrefs := length (filter (fun l => length (href l) =? 0) linkDetails);
     missingText := length (filter (fun l => negb (hasValidText l)) linkDetails);
     duplicates := length linkDetails - JSSet.size seenUrls |}.

(** [links] is [document.querySelectorAll('a')]; the result is the log
    and the URLs fetched. *)
Definition analyzeLinks (links : list Anchor) (location : origin)
  : list entry * list jsstring :=
  let start := (Info, [nl; Txt "Analyzing Links..."]) in
  if length links =? 0 then
    ([start; (Warn, [Txt "No links found in the document"])], [])
  else
    (* Get base URL safely *)
    let '(baseUrl, warning) :=
      match location with
      | Origin value => (orEmpty value, [])
      | OriginThrows => ([], [(Warn, [Txt "Could not determine base URL"])])
      end in
    (* Collect link details *)
    let '(linkDetails, seenUrls) := fold_left (collect baseUrl) links ([], []) in
    let analysis := analysisOf linkDetails seenUrls in
    (* Check for broken links if we're in a browser environment *)
    let '(checking, fetched, analysis') :=
      if hasWindow then
        let '(log, fetched, analysis') := checkBrokenLinks linkDetails analysis in
        ((Info, [nl; Txt "Checking for broken links..."]) :: log, fetched, analysis')
      else ([], [], analysis) in
    (start :: warning
       (* Display initial analysis *)
       ++ displayLinkAnalysis analysis linkDetails
       ++ checking
       (* Provide recommendations *)
       ++ provideLinkRecommendations analysis' linkDetails,
     fetched).

End Environment.

End LinkAnalyzer.


(* ===================================================================== *)
(** * Part IV-B. Reference descriptions for the other analyzers          *)
(* ===================================================================== *)

(** What may follow a decimal numeral without changing what [parseInt]
    reads: nothing, or a code unit that is neither a digit nor [x] or [X]
    (after the single digit [0] an [x] would announce a hexadecimal
    numeral). *)
Definition endsNumeral (rest : jsstring) : bool :=
  match rest with
  | [] => true
  | c :: _ =>
      (negb (isDigitCode (code c)) && negb (N.eqb (code c) 120)
       && negb (N.eqb (code c) 88))%bool
  end.

(** An attribute that reads as the integer [n]: it is missing or empty
    and [n] is 0, or it is the decimal numeral of [n], possibly after
    white space and possibly followed by a unit. *)
Definition readsAs (attribute : option jsstring) (n : N) : Prop :=
  match attribute with
  | None | Some [] => n = 0%N
  | Some s =>
      exists ws rest,
        s = ws ++ js (decimal n) ++ rest
        /\ forallb isWhiteSpace ws = true /\ endsNumeral rest = true
  end.

(** The characters that end a sentence. *)
Definition isTerminator (c : ascii) : bool :=
  existsb (fun t => N.eqb (code t) (code c)) (js ".!?").

Import Number.

(* ===================================================================== *)
(** * Part V. Lemmas on the runtime model                                *)
(* ===================================================================== *)

(** ** Code units *)

(** A property of every code unit is checked on the 256 of them. *)
Ltac each_ascii c :=
  destruct c as [[] [] [] [] [] [] [] []]; vm_compute; try reflexivity; try discriminate.

Lemma toLowerChar_idem (c : ascii) : toLowerChar (toLowerChar c) = toLowerChar c.
Proof. each_ascii c. Qed.

Lemma space_is_white : isWhiteSpace " "%char = true.
Proof. reflexivity. Qed.

Lemma eqb_string_true (a b : jsstring) : eqb_string a b = true <-> a = b.
Proof.
  unfold eqb_string. destruct (list_eq_dec ascii_dec a b); split; intros H;
    congruence.
Qed.

Lemma eqb_string_refl (a : jsstring) : eqb_string a a = true.
Proof. apply eqb_string_true. reflexivity. Qed.

(** ** [trim] *)

Lemma trimStart_split (s : jsstring) :
  exists w, s = w ++ trimStart s /\ forallb isWhiteSpace w = true.
Proof.
  induction s as [|c s IH]; simpl.
  - exists []. split; reflexivity.
  - destruct (isWhiteSpace c) eqn:Hc.
    + destruct IH as [w [Hs Hw]]. exists (c :: w). split.
      * simpl. f_equal. exact Hs.
      * simpl. rewrite Hc. exact Hw.
    + exists []. split; reflexivity.
Qed.

Lemma trimStart_head (s : jsstring) :
  match trimStart s with
  | c :: _ => isWhiteSpace c = false
  | [] => True
  end.
Proof.
  induction s as [|c s IH]; simpl; [exact I|].
  destruct (isWhiteSpace c) eqn:Hc; [exact IH | exact Hc].
Qed.

Lemma trimStart_fixed (s : jsstring) :
  match s with c :: _ => isWhiteSpace c = false | [] => True end ->
  trimStart s = s.
Proof.
  destruct s as [|c s]; simpl; [reflexivity|]. intros ->. reflexivity.
Qed.

Lemma trimStart_idem (s : jsstring) : trimStart (trimStart s) = trimStart s.
Proof. apply trimStart_fixed, trimStart_head. Qed.

Lemma trimEnd_split (s : jsstring) :
  exists w, s = trimEnd s ++ w /\ forallb isWhiteSpace w = true.
Proof.
  unfold trimEnd. destruct (trimStart_split (rev s)) as [w [Hs Hw]].
  exists (rev w). split.
  - rewrite <- rev_app_distr, <- Hs, rev_involutive. reflexivity.
  - rewrite forallb_forall in *. intros x Hx. apply Hw. now apply in_rev.
Qed.

Lemma trim_sub (s : jsstring) :
  exists u w, s = u ++ trim s ++ w.
Proof.
  unfold trim. destruct (trimStart_split s) as [u [Hu _]].
  destruct (trimEnd_split (trimStart s)) as [w [Hw _]].
  exists u, w. rewrite <- Hw. exact Hu.
Qed.

Lemma trim_In (s : jsstring) (c : ascii) : In c (trim s) -> In c s.
Proof.
  destruct (trim_sub s) as [u [w H]]. intros Hc. rewrite H.
  apply in_or_app. right. apply in_or_app. left. exact Hc.
Qed.

Lemma trim_Forall (P : ascii -> Prop) (s : jsstring) :
  Forall P s -> Forall P (trim s).
Proof.
  rewrite !Forall_forall. intros H c Hc. apply H, trim_In, Hc.
Qed.

Lemma trimEnd_head (s : jsstring) :
  match s with c :: _ => isWhiteSpace c = false | [] => True end ->
  match trimEnd s with c :: _ => isWhiteSpace c = false | [] => True end.
Proof.
  destruct (trimEnd_split s) as [w [Hs _]]. revert Hs.
  destruct (trimEnd s) as [|c t]; [intros; exact I|].
  intros Hs. rewrite Hs. simpl. tauto.
Qed.

Lemma trim_trimmed (s : jsstring) :
  trimStart (trim s) = trim s /\ trimStart (rev (trim s)) = rev (trim s).
Proof.
  split.
  - apply trimStart_fixed. unfold trim. apply trimEnd_head, trimStart_head.
  - unfold trim, trimEnd. rewrite rev_involutive. apply trimStart_idem.
Qed.

Lemma trim_fixed (s : jsstring) :
  trimStart s = s -> trimStart (rev s) = rev s -> trim s = s.
Proof.
  intros H1 H2. unfold trim, trimEnd. rewrite H1, H2. apply rev_involutive.
Qed.

Lemma trim_idem (s : jsstring) : trim (trim s) = trim s.
Proof. destruct (trim_trimmed s). now apply trim_fixed. Qed.

(** ** [split] on a one-character separator and [includes] *)

Lemma split_go_single_length (c : ascii) (s cur : jsstring) :
  length (split_go [c] 0 cur s) = S (count_occ ascii_dec s c).
Proof.
  revert cur. induction s as [|x s IH]; intros cur; simpl; [reflexivity|].
  destruct (ascii_dec c x) as [->|Hne].
  - destruct (ascii_dec x x); [|congruence]. simpl. now rewrite IH.
  - destruct (ascii_dec x c); [congruence|]. apply IH.
Qed.

Lemma split_single_length (c : ascii) (s : jsstring) :
  length (split_str [c] s) = S (count_occ ascii_dec s c).
Proof. apply split_go_single_length. Qed.

Lemma startsWith_In (p s : jsstring) (c : ascii) :
  startsWith p s = true -> In c p -> In c s.
Proof.
  revert s. induction p as [|a p IH]; intros s H Hc; [destruct Hc|].
  destruct s as [|b s]; simpl in H; [discriminate|].
  destruct (ascii_dec a b) as [->|]; [|discriminate].
  destruct Hc as [->|Hc]; [now left | right; now apply IH].
Qed.

Lemma includes_In (s p : jsstring) (c : ascii) :
  includes s p = true -> In c p -> In c s.
Proof.
  induction s as [|a s IH]; simpl; intros H Hc.
  - destruct (startsWith p []) eqn:Hp; [|discriminate].
    exact (startsWith_In p [] c Hp Hc).
  - destruct (startsWith p (a :: s)) eqn:Hp.
    + exact (startsWith_In p (a :: s) c Hp Hc).
    + right. now apply IH.
Qed.

(** ** The matcher on character classes and their repetitions *)

Lemma dropWhile_length (p : ascii -> bool) (s : jsstring) :
  length (dropWhile p s) <= length s.
Proof.
  induction s as [|c s IH]; simpl; [lia|]. destruct (p c); simpl; lia.
Qed.

Lemma takeWhile_dropWhile (p : ascii -> bool) (s : jsstring) :
  takeWhile p s ++ dropWhile p s = s.
Proof.
  induction s as [|c s IH]; simpl; [reflexivity|].
  destruct (p c); simpl; [now rewrite IH | reflexivity].
Qed.

Lemma firstn_takeWhile (p : ascii -> bool) (s : jsstring) :
  firstn (length s - length (dropWhile p s)) s = takeWhile p s.
Proof.
  rewrite <- (takeWhile_dropWhile p s) at 1 3.
  rewrite length_app, Nat.add_sub. 
  rewrite firstn_app, Nat.sub_diag, firstn_all. simpl. apply app_nil_r.
Qed.

Lemma rmatch_class (ic neg : bool) (items : list citem) :
  rmatch ic (RClass neg items)
  = classMatcher (fun c => xorb neg (accepts ic (class_mem items) c)).
Proof. reflexivity. Qed.

(** A greedy star over a class takes the longest run. *)
Lemma rep_star_class (p : ascii -> bool) (s : jsstring) :
  forall fuel prev, length s < fuel ->
  rep_loop (classMatcher p) fuel 0 None true prev s kend = Some (dropWhile p s).
Proof.
  induction s as [|c s IH]; intros fuel prev Hf;
    (destruct fuel as [|fuel]; [lia|]); simpl.
  - reflexivity.
  - destruct (p c); [|reflexivity].
    assert (Hlen : (length s =? S (length s)) = false)
      by (apply Nat.eqb_neq; lia).
    rewrite Hlen. rewrite IH by (simpl in Hf; lia). reflexivity.
Qed.

Lemma rep_plus_class (p : ascii -> bool) (s : jsstring) :
  forall fuel prev, length s + 1 < fuel ->
  rep_loop (classMatcher p) fuel 1 None true prev s kend
  = match s with
    | c :: s' => if p c then Some (dropWhile p s') else None
    | [] => None
    end.
Proof.
  intros fuel prev Hf. destruct fuel as [|fuel]; [lia|].
  destruct s as [|c s]; simpl; [reflexivity|].
  destruct (p c); [|reflexivity].
  apply rep_star_class. simpl in Hf. lia.
Qed.

(** One attempt of a class: one code unit. *)
Lemma exec_at_class (ic neg : bool) (items : list citem) (prev : option ascii)
    (s : jsstring) :
  exec_at ic (RClass neg items) prev s
  = match s with
    | c :: s' =>
        if xorb neg (accepts ic (class_mem items) c) then Some ([c], s') else None
    | [] => None
    end.
Proof.
  unfold exec_at. destruct s as [|c s]; cbn [rmatch]; [reflexivity|].
  destruct (xorb neg (accepts ic (class_mem items) c)); [|reflexivity].
  unfold kend.
  replace (length (c :: s) - length s) with 1 by (cbn [length]; lia). reflexivity.
Qed.

(** One attempt of [class+]: the run of the class at the position. *)
Lemma exec_at_plus_class (neg : bool) (items : list citem) (prev : option ascii)
    (s : jsstring) :
  exec_at false (RRep 1 None true (RClass neg items)) prev s
  = match s with
    | c :: s' =>
        if xorb neg (accepts false (class_mem items) c)
        then Some (c :: takeWhile (fun c => xorb neg (accepts false (class_mem items) c)) s',
                   dropWhile (fun c => xorb neg (accepts false (class_mem items) c)) s')
        else None
    | [] => None
    end.
Proof.
  set (p := fun c => xorb neg (accepts false (class_mem items) c)).
  change (xorb neg (accepts false (class_mem items) ?c)) with (p c).
  unfold exec_at.
  change (rmatch false (RRep 1 None true (RClass neg items)) prev s kend)
    with (rep_loop (classMatcher p) (1 + length s + 1) 1 None true prev s kend).
  rewrite rep_plus_class by lia.
  destruct s as [|c s]; [reflexivity|].
  destruct (p c) eqn:Hc; [|reflexivity].
  f_equal. f_equal.
  pose proof (dropWhile_length p s) as Hl.
  replace (length (c :: s) - length (dropWhile p s))
    with (S (length s - length (dropWhile p s))) by (cbn [length]; lia).
  simpl. f_equal. apply firstn_takeWhile.
Qed.

(** ** [replace] with a class, and with a run of white space *)

Lemma replace_all_class (neg : bool) (items : list citem) (s : jsstring) :
  forall fuel prev, length s < fuel ->
  replace_all_from fuel false (RClass neg items) [] prev s
  = filter (fun c => negb (xorb neg (accepts false (class_mem items) c))) s.
Proof.
  induction s as [|c s IH]; intros fuel prev Hf;
    (destruct fuel as [|fuel]; [lia|]); cbn [replace_all_from];
    rewrite exec_at_class.
  - reflexivity.
  - cbn [filter]. simpl in Hf.
    destruct (xorb neg (accepts false (class_mem items) c)); cbn [negb last_of rev app];
      rewrite IH by lia; reflexivity.
Qed.

Lemma replace_g_class (neg : bool) (items : list citem) (s : jsstring) :
  replace_g (RClass neg items) [] s
  = filter (fun c => negb (xorb neg (accepts false (class_mem items) c))) s.
Proof. unfold replace_g. apply replace_all_class. lia. Qed.

Lemma isWhiteSpace_class (c : ascii) :
  xorb false (accepts false (class_mem [CSpace false]) c) = isWhiteSpace c.
Proof. unfold accepts, class_mem. simpl. now rewrite orb_false_r. Qed.

Lemma squeeze_true_drop (sep s : jsstring) :
  squeeze sep true s = squeeze sep false (dropWhile isWhiteSpace s).
Proof.
  induction s as [|c s IH]; simpl; [reflexivity|].
  destruct (isWhiteSpace c) eqn:Hc; [exact IH|]. simpl. now rewrite Hc.
Qed.

Lemma takeWhile_ext (p q : ascii -> bool) (s : jsstring) :
  (forall c, p c = q c) -> takeWhile p s = takeWhile q s.
Proof.
  intros H. induction s as [|c s IH]; simpl; [reflexivity|].
  rewrite H, IH. reflexivity.
Qed.

Lemma dropWhile_ext (p q : ascii -> bool) (s : jsstring) :
  (forall c, p c = q c) -> dropWhile p s = dropWhile q s.
Proof.
  intros H. induction s as [|c s IH]; simpl; [reflexivity|].
  rewrite H, IH. reflexivity.
Qed.

Lemma exec_at_spaces (prev : option ascii) (s : jsstring) :
  exec_at false re_spaces prev s
  = match s with
    | c :: s' =>
        if isWhiteSpace c
        then Some (c :: takeWhile isWhiteSpace s', dropWhile isWhiteSpace s')
        else None
    | [] => None
    end.
Proof.
  unfold re_spaces. rewrite exec_at_plus_class.
  destruct s as [|c s]; [reflexivity|]. rewrite isWhiteSpace_class.
  rewrite (takeWhile_ext _ isWhiteSpace s isWhiteSpace_class).
  rewrite (dropWhile_ext _ isWhiteSpace s isWhiteSpace_class). reflexivity.
Qed.

Lemma replace_all_spaces (sep : jsstring) :
  forall fuel s prev, length s < fuel ->
  replace_all_from fuel false re_spaces sep prev s = squeeze sep false s.
Proof.
  induction fuel as [|fuel IH]; intros s prev Hf; [lia|].
  cbn [replace_all_from]. rewrite exec_at_spaces.
  destruct s as [|c s]; [reflexivity|]. cbn [length] in Hf.
  cbn [squeeze]. destruct (isWhiteSpace c) eqn:Hc.
  - rewrite squeeze_true_drop. f_equal. apply IH.
    pose proof (dropWhile_length isWhiteSpace s). lia.
  - f_equal. apply IH. lia.
Qed.

Lemma replace_g_spaces (sep s : jsstring) :
  replace_g re_spaces sep s = squeeze sep false s.
Proof. unfold replace_g. apply replace_all_spaces. lia. Qed.

(** ** The fuel of the matcher and of the scans is never used up *)

Lemma rep_loop_local (m : matcher) :
  local m ->
  forall M min s, min + length s <= M ->
  forall f1 f2, M < f1 -> M < f2 ->
  forall max greedy prev (k1 k2 : cont),
    (forall p' s', length s' <= length s -> k1 p' s' = k2 p' s') ->
    rep_loop m f1 min max greedy prev s k1 = rep_loop m f2 min max greedy prev s k2.
Proof.
  intros Hm. induction M as [|M IH];
    intros min s HM f1 f2 H1 H2 max greedy prev k1 k2 Hk;
    (destruct f1 as [|f1]; [lia|]); (destruct f2 as [|f2]; [lia|]);
    cbn [rep_loop];
    (assert (Hd : forall (p' : option ascii) (s' : jsstring), length s' <= length s ->
        (if (Nat.eqb min 0 && Nat.eqb (length s') (length s))%bool then None
         else rep_loop m f1 (Nat.pred min) (option_map Nat.pred max) greedy p' s' k1)
        = (if (Nat.eqb min 0 && Nat.eqb (length s') (length s))%bool then None
           else rep_loop m f2 (Nat.pred min) (option_map Nat.pred max) greedy p' s' k2));
     [ intros p' s' Hl;
       destruct (Nat.eqb min 0 && Nat.eqb (length s') (length s))%bool eqn:He;
       [reflexivity|];
       apply andb_false_iff in He;
       rewrite !Nat.eqb_neq in He
     | pose proof (Hm prev s _ _ Hd) as Hmd;
       destruct max as [[|mx]|]; cbv beta iota; try (apply Hk; lia);
       rewrite Hmd, (Hk prev s (le_n _)); reflexivity ]).
  - lia.
  - apply IH; try lia. intros p'' s'' Hl'. apply Hk. lia.
Qed.

(** Every matcher of a pattern is local. *)
Lemma rmatch_local (ic : bool) (r : regex) : local (rmatch ic r).
Proof.
  induction r as [|n| |neg items|r1 IH1 r2 IH2|r1 IH1 r2 IH2|min max greedy r1 IH1| | |neg];
    intros prev s k1 k2 Hk; cbn [rmatch].
  - apply Hk. lia.
  - destruct s as [|c s]; [reflexivity|].
    destruct (accepts ic (N.eqb n) c); [|reflexivity]. apply Hk. simpl. lia.
  - destruct s as [|c s]; [reflexivity|].
    destruct (isLineTerminator c); [reflexivity|]. apply Hk. simpl. lia.
  - destruct s as [|c s]; [reflexivity|].
    destruct (xorb neg (accepts ic (class_mem items) c)); [|reflexivity].
    apply Hk. simpl. lia.
  - apply IH1. intros p' s' Hl. apply IH2. intros p'' s'' Hl'. apply Hk. lia.
  - rewrite (IH1 prev s k1 k2 Hk), (IH2 prev s k1 k2 Hk). reflexivity.
  - apply (rep_loop_local _ IH1 (min + length s)); try lia. exact Hk.
  - destruct prev; [reflexivity|]. apply Hk. lia.
  - destruct s; [|reflexivity]. apply Hk. lia.
  - destruct (xorb neg (xorb (isWordChar prev) (isWordChar (hd_error s))));
      [|reflexivity].
    apply Hk. lia.
Qed.

(** A repetition gives the same answer with any fuel above its bound. *)
Lemma rep_loop_fuel (ic : bool) (r : regex) (fuel min : nat) (max : option nat)
    (greedy : bool) (prev : option ascii) (s : jsstring) (k : cont) :
  min + length s < fuel ->
  rep_loop (rmatch ic r) fuel min max greedy prev s k
  = rmatch ic (RRep min max greedy r) prev s k.
Proof.
  intros H. cbn [rmatch].
  apply (rep_loop_local _ (rmatch_local ic r) (min + length s)); try lia.
  reflexivity.
Qed.

Lemma rep_loop_consuming (m : matcher) :
  consuming m ->
  forall fuel min max greedy prev s (k : cont) z,
    rep_loop m fuel min max greedy prev s k = Some z ->
    exists p' s', length s' <= length s /\ k p' s' = Some z.
Proof.
  intros Hm. induction fuel as [|fuel IH]; intros min max greedy prev s k z;
    cbn [rep_loop]; [discriminate|].
  set (d := fun (p' : option ascii) (s' : jsstring) =>
              if (Nat.eqb min 0 && Nat.eqb (length s') (length s))%bool then None
              else rep_loop m fuel (Nat.pred min) (option_map Nat.pred max) greedy p' s' k).
  assert (Hd : m prev s d = Some z ->
               exists p' s', length s' <= length s /\ k p' s' = Some z).
  { intros H. apply Hm in H. destruct H as [p' [s' [Hl H]]]. unfold d in H.
    destruct (Nat.eqb min 0 && Nat.eqb (length s') (length s))%bool; [discriminate|].
    apply IH in H. destruct H as [p'' [s'' [Hl' H]]].
    exists p'', s''. split; [lia | exact H]. }
  assert (Hk : k prev s = Some z ->
               exists p' s', length s' <= length s /\ k p' s' = Some z).
  { intros H. exists prev, s. split; [lia | exact H]. }
  destruct max as [[|mx]|]; cbv beta iota; try exact Hk;
    (destruct (negb (Nat.eqb min 0)); [exact Hd|]);
    (destruct greedy;
     [ destruct (m prev s d) as [z'|]; cbv beta iota; [ exact Hd | exact Hk ]
     | destruct (k prev s) as [z'|]; cbv beta iota; [ exact Hk | exact Hd ] ]).
Qed.

Lemma rmatch_consuming (ic : bool) (r : regex) : consuming (rmatch ic r).
Proof.
  induction r as [|n| |neg items|r1 IH1 r2 IH2|r1 IH1 r2 IH2|min max greedy r1 IH1| | |neg];
    intros prev s k z; cbn [rmatch].
  - intros H. exists prev, s. split; [lia | exact H].
  - destruct s as [|c s]; [discriminate|].
    destruct (accepts ic (N.eqb n) c); [|discriminate].
    intros H. exists (Some c), s. split; [simpl; lia | exact H].
  - destruct s as [|c s]; [discriminate|].
    destruct (isLineTerminator c); [discriminate|].
    intros H. exists (Some c), s. split; [simpl; lia | exact H].
  - destruct s as [|c s]; [discriminate|].
    destruct (xorb neg (accepts ic (class_mem items) c)); [|discriminate].
    intros H. exists (Some c), s. split; [simpl; lia | exact H].
  - intros H. apply IH1 in H. destruct H as [p' [s' [Hl H]]].
    apply IH2 in H. destruct H as [p'' [s'' [Hl' H]]].
    exists p'', s''. split; [lia | exact H].
  - destruct (rmatch ic r1 prev s k) as [z'|] eqn:E.
    + intros H. injection H as ->. now apply IH1 in E.
    + apply IH2.
  - apply (rep_loop_consuming _ IH1).
  - destruct prev; [discriminate|]. intros H. exists None, s. split; [lia | exact H].
  - destruct s; [|discriminate]. intros H. exists prev, []. split; [lia | exact H].
  - destruct (xorb neg (xorb (isWordChar prev) (isWordChar (hd_error s))));
      [|discriminate].
    intros H. exists prev, s. split; [lia | exact H].
Qed.

(** A match leaves a part of the input: the text matched and the rest make
    up the input again, as far as their lengths go. *)
Lemma exec_at_rest (ic : bool) (r : regex) (prev : option ascii) (s m rest : jsstring) :
  exec_at ic r prev s = Some (m, rest) ->
  length rest <= length s /\ length m = length s - length rest.
Proof.
  unfold exec_at. destruct (rmatch ic r prev s kend) as [z|] eqn:E; [|discriminate].
  intros H. inversion H; subst. clear H.
  apply rmatch_consuming in E. destruct E as [p' [s' [Hl E]]].
  unfold kend in E. inversion E; subst s'.
  split; [exact Hl|]. rewrite length_firstn. lia.
Qed.

Lemma match_all_from_fuel (ic : bool) (r : regex) :
  forall f1 f2 s prev, length s < f1 -> length s < f2 ->
  match_all_from f1 ic r prev s = match_all_from f2 ic r prev s.
Proof.
  induction f1 as [|f1 IH]; intros f2 s prev H1 H2; [lia|].
  destruct f2 as [|f2]; [lia|]. cbn [match_all_from].
  destruct (exec_at ic r prev s) as [[m rest]|] eqn:E.
  - apply exec_at_rest in E. destruct E as [Hl Hm].
    destruct m as [|x m].
    + f_equal. destruct s as [|c s]; [reflexivity|]. apply IH; simpl in *; lia.
    + f_equal. apply IH; simpl in *; lia.
  - destruct s as [|c s]; [reflexivity|]. apply IH; simpl in *; lia.
Qed.

Lemma replace_all_from_fuel (ic : bool) (r : regex) (repl : jsstring) :
  forall f1 f2 s prev, length s < f1 -> length s < f2 ->
  replace_all_from f1 ic r repl prev s = replace_all_from f2 ic r repl prev s.
Proof.
  induction f1 as [|f1 IH]; intros f2 s prev H1 H2; [lia|].
  destruct f2 as [|f2]; [lia|]. cbn [replace_all_from].
  destruct (exec_at ic r prev s) as [[m rest]|] eqn:E.
  - apply exec_at_rest in E. destruct E as [Hl Hm].
    destruct m as [|x m].
    + f_equal. destruct s as [|c s]; [reflexivity|]. f_equal.
      apply IH; simpl in *; lia.
    + f_equal. apply IH; simpl in *; lia.
  - destruct s as [|c s]; [reflexivity|]. f_equal. apply IH; simpl in *; lia.
Qed.

Lemma split_from_fuel (r : regex) :
  forall f1 f2 cur prev s,
    2 * length s + (match cur with [] => 0 | _ => 1 end) < f1 ->
    2 * length s + (match cur with [] => 0 | _ => 1 end) < f2 ->
    split_from f1 r cur prev s = split_from f2 r cur prev s.
Proof.
  induction f1 as [|f1 IH]; intros f2 cur prev s H1 H2; [lia|].
  destruct f2 as [|f2]; [lia|]. cbn [split_from].
  destruct s as [|c s]; [reflexivity|]. cbn [length] in H1, H2.
  destruct (exec_at false r prev (c :: s)) as [[m rest]|] eqn:E.
  - apply exec_at_rest in E. destruct E as [Hl Hm]. cbn [length] in Hl, Hm.
    destruct m as [|x m].
    + destruct cur as [|y cur].
      * apply IH; cbn [length]; lia.
      * f_equal. apply IH; cbn [length] in *; lia.
    + f_equal. apply IH; cbn [length] in *; lia.
  - apply IH; cbn [length]; destruct cur; lia.
Qed.

(** ** [squeeze] and the strings it leaves alone *)

Lemma squeeze_squeezed (b : bool) (s : jsstring) :
  squeezed b (squeeze [" "%char] b s) = true.
Proof.
  revert b. induction s as [|c s IH]; intros b; simpl; [reflexivity|].
  destruct (isWhiteSpace c) eqn:Hc.
  - destruct b; [apply IH|]. simpl. apply IH.
  - simpl. rewrite Hc. apply IH.
Qed.

Lemma squeezed_fixed (b : bool) (s : jsstring) :
  squeezed b s = true -> squeeze [" "%char] b s = s.
Proof.
  revert b. induction s as [|c s IH]; intros b; simpl; [reflexivity|].
  destruct (isWhiteSpace c) eqn:Hc.
  - intros H. apply andb_prop in H. destruct H as [H H3].
    apply andb_prop in H. destruct H as [H1 H2].
    destruct b; [discriminate|]. apply Ascii.eqb_eq in H2. subst c.
    simpl. f_equal. now apply IH.
  - intros H. f_equal. now apply IH.
Qed.

Lemma squeezed_weaken (s : jsstring) :
  squeezed true s = true -> squeezed false s = true.
Proof.
  destruct s as [|c s]; simpl; [trivial|].
  destruct (isWhiteSpace c); [discriminate | trivial].
Qed.

Lemma squeezed_trimStart (b : bool) (s : jsstring) :
  squeezed b s = true -> squeezed false (trimStart s) = true.
Proof.
  revert b. induction s as [|c s IH]; intros b; simpl; [trivial|].
  destruct (isWhiteSpace c) eqn:Hc.
  - intros H. apply andb_prop in H. destruct H as [_ H]. now apply (IH true).
  - intros H. simpl. now rewrite Hc.
Qed.

Lemma squeezed_prefix (b : bool) (p w : jsstring) :
  squeezed b (p ++ w) = true -> squeezed b p = true.
Proof.
  revert b. induction p as [|c p IH]; intros b; simpl; [trivial|].
  destruct (isWhiteSpace c).
  - intros H. apply andb_prop in H. destruct H as [H1 H2].
    rewrite H1. simpl. now apply IH.
  - apply IH.
Qed.

Lemma squeezed_trim (s : jsstring) :
  squeezed false s = true -> squeezed false (trim s) = true.
Proof.
  intros H. unfold trim. apply squeezed_trimStart in H.
  destruct (trimEnd_split (trimStart s)) as [w [Hw _]].
  rewrite Hw in H. now apply squeezed_prefix in H.
Qed.

Lemma squeeze_Forall (P : ascii -> Prop) (sep : jsstring) (b : bool) (s : jsstring) :
  Forall P sep -> Forall P s -> Forall P (squeeze sep b s).
Proof.
  intros Hsep Hs. revert b. induction Hs as [|c s Hc Hs IH]; intros b; simpl.
  - constructor.
  - destruct (isWhiteSpace c).
    + destruct b; [apply IH|]. apply Forall_app. split; [exact Hsep | apply IH].
    + constructor; [exact Hc | apply IH].
Qed.

Lemma squeeze_In_sep (sep s : jsstring) (c x : ascii) :
  In c s -> isWhiteSpace c = true -> In x sep -> In x (squeeze sep false s).
Proof.
  intros Hc Hw Hx. induction s as [|a s IH]; [destruct Hc|]. simpl.
  destruct (isWhiteSpace a) eqn:Ha.
  - apply in_or_app. now left.
  - right. apply IH. destruct Hc as [->|Hc]; [congruence | exact Hc].
Qed.

(** ** [normalizeText] on lists *)

Lemma isPunctuation_class (c : ascii) :
  negb (xorb false
          (accepts false (class_mem (oneof ".,/#!$%^&*;:{}=-_`~()")) c))
  = negb (isPunctuation c).
Proof. reflexivity. Qed.

Lemma normalizeText_eq (text : jsstring) :
  normalizeText text
  = trim (squeeze [" "%char] false
            (filter (fun c => negb (isPunctuation c)) (toLowerCase text))).
Proof.
  unfold normalizeText, re_punctuation.
  rewrite replace_g_class, replace_g_spaces. reflexivity.
Qed.

(** Every code unit of a normalized text is in lower case and is none of the
    punctuation characters. *)
Lemma normalizeText_chars (text : jsstring) :
  Forall (fun c => toLowerChar c = c /\ isPunctuation c = false)
         (normalizeText text).
Proof.
  rewrite normalizeText_eq. apply trim_Forall. apply squeeze_Forall.
  - constructor; [split; reflexivity | constructor].
  - apply Forall_forall. intros c Hc. apply filter_In in Hc.
    destruct Hc as [Hc Hp]. split.
    + unfold toLowerCase in Hc. apply in_map_iff in Hc.
      destruct Hc as [a [<- _]]. apply toLowerChar_idem.
    + now apply negb_true_iff in Hp.
Qed.




Lemma normalizeText_no_hyphen (text : jsstring) : ~ In "-"%char (normalizeText text).
Proof.
  intros H. pose proof (normalizeText_chars text) as Hc.
  rewrite Forall_forall in Hc. destruct (Hc _ H) as [_ Hp]. discriminate.
Qed.

(* ===================================================================== *)
(** * Part VI. The keyword analyzer                                      *)
(* ===================================================================== *)

(** ** When the occurrence finder returns *)

(** Whether [findKeywordOccurrences] returns depends on the keyword alone. *)
Lemma findKeywordOccurrences_returns (keyword text : jsstring) :
  analyzable keyword = true ->
  findKeywordOccurrences text keyword = Returns (found keyword text).
Proof.
  unfold found, analyzable, findKeywordOccurrences.
  destruct (length (split_str (js " ") (normalizeText keyword)) =? 1).
  - destruct (compile _); [|discriminate]. intros _.
    destruct (match_g true r text); reflexivity.
  - reflexivity.
Qed.

Lemma findKeywordOccurrences_throws (keyword text : jsstring) :
  analyzable keyword = false ->
  findKeywordOccurrences text keyword = Throws.
Proof.
  unfold analyzable, findKeywordOccurrences.
  destruct (length (split_str (js " ") (normalizeText keyword)) =? 1).
  - destruct (compile _); [discriminate | reflexivity].
  - discriminate.
Qed.

Lemma countInElements_returns (keyword : jsstring) (els : list jsstring) :
  analyzable keyword = true ->
  forall n, countInElements els keyword n
            = Returns (n + list_sum (map (occurrencesIn keyword) els)).
Proof.
  intros Hk. induction els as [|el els IH]; intros n; simpl.
  - f_equal. lia.
  - rewrite (findKeywordOccurrences_returns _ _ Hk). simpl. rewrite IH.
    unfold occurrencesIn. f_equal. lia.
Qed.

(** The record [analyzeKeyword] returns, field by field. *)
Lemma analyzeKeyword_returns (document : Document) (keyword : jsstring) :
  analyzable keyword = true ->
  analyzeKeyword document keyword
  = Returns
      {| density :=
           densityOf (length (found keyword (bodyText document)))
                     (length (split_re re_spaces keyword))
                     (length (split_re re_spaces (normalizeText (bodyText document))));
         count := length (found keyword (bodyText document));
         inTitle := 0 <? occurrencesIn keyword (orEmpty (title document));
         inFirstParagraph :=
           0 <? occurrencesIn keyword (orEmpty (hd_error (paragraphs document)));
         inHeadings_h1 := list_sum (map (occurrencesIn keyword) (h1s document));
         inHeadings_h2 := list_sum (map (occurrencesIn keyword) (h2s document));
         inHeadings_h3 := list_sum (map (occurrencesIn keyword) (h3s document));
         inMetaDescription :=
           0 <? occurrencesIn keyword (orEmpty (metaDescription document));
         inUrl := includes (normalizeText (orEmpty (pathname document)))
                           (replace_g re_spaces (js "-") (normalizeText keyword));
         occurrences := found keyword (bodyText document) |}.
Proof.
  intros Hk. unfold analyzeKeyword.
  rewrite !(findKeywordOccurrences_returns _ _ Hk).
  rewrite !(countInElements_returns _ _ Hk). reflexivity.
Qed.

Lemma analyzeKeyword_throws (document : Document) (keyword : jsstring) :
  analyzable keyword = false -> analyzeKeyword document keyword = Throws.
Proof.
  intros Hk. unfold analyzeKeyword.
  rewrite (findKeywordOccurrences_throws _ _ Hk). reflexivity.
Qed.

Lemma analyzeKeyword_analyzable (document : Document) (keyword : jsstring)
    (r : KeywordAnalysis) :
  analyzeKeyword document keyword = Returns r -> analyzable keyword = true.
Proof.
  destruct (analyzable keyword) eqn:Hk; [trivial|].
  rewrite (analyzeKeyword_throws _ _ Hk). discriminate.
Qed.

(** A keyword of several words is analyzable. *)
Lemma analyzable_multiword (keyword : jsstring) :
  In " "%char (normalizeText keyword) -> analyzable keyword = true.
Proof.
  intros H. unfold analyzable.
  change (js " ") with [" "%char]. rewrite split_single_length.
  apply (count_occ_In ascii_dec) in H.
  destruct (count_occ ascii_dec (normalizeText keyword) " "%char) as [|n]; [lia|].
  destruct n; reflexivity.
Qed.

(* ===================================================================== *)
(** * Part VII. Numbers                                                  *)
(* ===================================================================== *)

(** ** Integers as numbers *)

Lemma digits2_size (p : positive) : digits2_pos p = Pos.size p.
Proof. induction p; simpl; congruence. Qed.

Lemma digits2_iter_xO (p k : positive) :
  digits2_pos (Pos.iter xO p k) = (digits2_pos p + k)%positive.
Proof.
  induction k as [|k IH] using Pos.peano_ind.
  - simpl. lia.
  - rewrite Pos.iter_succ. simpl. rewrite IH. lia.
Qed.

Lemma digits2_bound (p : positive) :
  (Z.pos p < 2 ^ 53)%Z -> (Z.pos (digits2_pos p) <= 53)%Z.
Proof.
  intros H. rewrite digits2_size.
  pose proof (Pos.size_le p) as Hle.
  assert (H2 : (2 ^ Z.pos (Pos.size p) <= 2 * Z.pos p)%Z).
  { change 2%Z with (Z.pos 2) at 1. rewrite <- Pos2Z.inj_pow.
    change (2 * Z.pos p)%Z with (Z.pos p~0). now apply Pos2Z.pos_le_pos. }
  assert (H3 : (2 ^ Z.pos (Pos.size p) < 2 ^ 54)%Z) by lia.
  apply Z.pow_lt_mono_r_iff in H3; lia.
Qed.

(** An integer of at most 53 bits is held exactly. *)
Lemma of_Z_small (p : positive) :
  (Z.pos (digits2_pos p) <= 53)%Z ->
  exists m e, of_Z (Z.pos p) = S754_finite false m e.
Proof.
  intros Hd. unfold of_Z, binary_normalize, binary_round.
  set (d := digits2_pos p) in *.
  assert (Hf : fexp prec emax (Z.pos d + 0) = (Z.pos d - 53)%Z).
  { unfold fexp, emin, prec, emax. lia. }
  fold d. rewrite Hf. unfold shl_align.
  assert (Hround : forall mz ez, digits2_pos mz = 53%positive ->
            (-52 <= ez <= 0)%Z ->
            binary_round_aux prec emax false (Z.pos mz) ez loc_Exact
            = S754_finite false mz ez).
  { intros mz ez Hmz Hez. unfold binary_round_aux, shr_fexp. 
    cbn [Zdigits2 shr_record_of_loc]. rewrite Hmz.
    assert (Hz : (fexp prec emax (53 + ez) - ez = 0)%Z)
      by (unfold fexp, emin, prec, emax; lia).
    rewrite Hz. cbn [shr shr_m loc_of_shr_record round_nearest_even Zdigits2
                     shr_record_of_loc].
    rewrite Hmz, Hz. cbn [shr shr_m].
    replace (ez <=? emax - prec)%Z with true
      by (symmetry; apply Z.leb_le; unfold emax, prec; lia).
    reflexivity. }
  destruct (Z.pos d - 53 - 0)%Z as [|k|k] eqn:Hk.
  - exists p, 0%Z. apply Hround; [fold d; lia | lia].
  - lia.
  - exists (Pos.iter xO p k), (Z.pos d - 53)%Z. apply Hround.
    + rewrite digits2_iter_xO. fold d. lia.
    + lia.
Qed.

Lemma of_nat_small (n : nat) :
  0 < n -> (Z.of_nat n < 2 ^ 53)%Z ->
  exists m e, of_nat n = S754_finite false m e.
Proof.
  intros Hn Hb. unfold of_nat. destruct (Z.of_nat n) as [|p|p] eqn:Hz; try lia.
  apply of_Z_small, digits2_bound, Hb.
Qed.

Lemma of_nat_zero : of_nat 0 = S754_zero false.
Proof. reflexivity. Qed.

(** ** Quotients *)

(** A finite number divided by itself is one. *)
Lemma div_self (s : bool) (m : positive) (e : Z) :
  div (S754_finite s m e) (S754_finite s m e) = of_nat 1.
Proof.
  unfold div, SFdiv, SFdiv_core_binary.
  replace (Zdigits2 (Z.pos m) + e - (Zdigits2 (Z.pos m) + e))%Z with 0%Z by lia.
  replace (e - e)%Z with 0%Z by lia.
  change (Z.min (fexp prec emax 0) 0) with (-53)%Z.
  change (0 - -53)%Z with 53%Z. cbv iota.
  rewrite Z.shiftl_mul_pow2 by lia.
  assert (Hq : Z.div_eucl (Z.pos m * 2 ^ 53) (Z.pos m) = (2 ^ 53, 0)%Z).
  { pose proof (Z.div_eucl_eq (Z.pos m * 2 ^ 53) (Z.pos m)) as Heq.
    pose proof (Z.mod_pos_bound (Z.pos m * 2 ^ 53) (Z.pos m)) as Hb.
    unfold Z.modulo in Hb.
    destruct (Z.div_eucl (Z.pos m * 2 ^ 53) (Z.pos m)) as [q r].
    assert (Hm : (0 < Z.pos m)%Z) by lia.
    specialize (Heq ltac:(lia)). specialize (Hb Hm).
    assert (q = 2 ^ 53)%Z by nia. subst q. f_equal. lia. }
  rewrite Hq. rewrite xorb_nilpotent.
  unfold new_location. destruct (Z.even (Z.pos m)); reflexivity.
Qed.

Lemma div_zero_finite (s : bool) (m : positive) (e : Z) :
  div (of_nat 0) (S754_finite s m e) = S754_zero s.
Proof. reflexivity. Qed.

(** ** Signs *)

Lemma shr_1_nonneg (mrs : shr_record) :
  (0 <= shr_m mrs)%Z -> (0 <= shr_m (shr_1 mrs))%Z.
Proof.
  destruct mrs as [m r s]. simpl.
  destruct m as [|[p|p|]|[p|p|]]; simpl; lia.
Qed.

Lemma iter_pos_invariant {A : Type} (P : A -> Prop) (f : A -> A) :
  (forall x, P x -> P (f x)) -> forall n x, P x -> P (iter_pos f n x).
Proof.
  intros Hf. induction n as [n IH|n IH|]; intros x Hx; simpl; auto.
Qed.

Lemma shr_nonneg (mrs : shr_record) (e n : Z) :
  (0 <= shr_m mrs)%Z -> (0 <= shr_m (fst (shr mrs e n)))%Z.
Proof.
  intros H. unfold shr. destruct n; simpl; try exact H.
  apply (iter_pos_invariant (fun x => (0 <= shr_m x)%Z)); [apply shr_1_nonneg | exact H].
Qed.

Lemma shr_fexp_nonneg (m e : Z) (l : location) :
  (0 <= m)%Z -> (0 <= shr_m (fst (shr_fexp prec emax m e l)))%Z.
Proof.
  intros H. unfold shr_fexp. apply shr_nonneg.
  destruct l as [|[]]; simpl; exact H.
Qed.

Lemma round_nearest_even_nonneg (m : Z) (l : location) :
  (0 <= m)%Z -> (0 <= round_nearest_even m l)%Z.
Proof.
  intros H. destruct l as [|[]]; simpl; try lia. destruct (Z.even m); lia.
Qed.

(** Rounding keeps the sign it is given, and a mantissa that is not
    negative never rounds to NaN. *)
Lemma binary_round_aux_signed (sx : bool) (mx ex : Z) (lx : location) :
  (0 <= mx)%Z -> signed sx (binary_round_aux prec emax sx mx ex lx).
Proof.
  intros H. unfold binary_round_aux.
  pose proof (shr_fexp_nonneg mx ex lx H) as H1.
  destruct (shr_fexp prec emax mx ex lx) as [mrs' e']. simpl in H1.
  pose proof (shr_fexp_nonneg
                (round_nearest_even (shr_m mrs') (loc_of_shr_record mrs')) e'
                loc_Exact (round_nearest_even_nonneg _ _ H1)) as H2.
  destruct (shr_fexp prec emax _ e' loc_Exact) as [mrs'' e'']. simpl in H2.
  destruct (shr_m mrs'') as [|p|p]; simpl; try reflexivity; try lia.
  destruct (_ <=? _)%Z; exact eq_refl.
Qed.

Lemma binary_round_aux_unsigned (mx ex : Z) (lx : location) :
  unsigned (binary_round_aux prec emax false mx ex lx).
Proof.
  unfold binary_round_aux.
  destruct (shr_fexp prec emax mx ex lx) as [mrs' e'].
  destruct (shr_fexp prec emax _ e' loc_Exact) as [mrs'' e''].
  destruct (shr_m mrs'') as [|p|p]; simpl; try reflexivity.
  destruct (_ <=? _)%Z; exact eq_refl.
Qed.

Lemma signed_unsigned (x : number) : signed false x -> unsigned x.
Proof. destruct x; simpl; trivial. Qed.

Lemma of_nat_unsigned (n : nat) : unsigned (of_nat n).
Proof.
  unfold of_nat, of_Z, binary_normalize.
  destruct (Z.of_nat n) as [|p|p] eqn:Hz; try lia; [reflexivity|].
  unfold binary_round. destruct (shl_align _ _ _) as [mz ez].
  apply binary_round_aux_unsigned.
Qed.

Lemma mul_unsigned (x y : number) : unsigned x -> unsigned y -> unsigned (mul x y).
Proof.
  destruct x as [sx|sx| |sx mx ex], y as [sy|sy| |sy my ey]; simpl;
    intros Hx Hy; subst; trivial.
  apply binary_round_aux_unsigned.
Qed.

Lemma div_core_nonneg (m1 m2 : positive) (e1 e2 : Z) :
  (0 <= fst (fst (SFdiv_core_binary prec emax (Z.pos m1) e1 (Z.pos m2) e2)))%Z.
Proof.
  unfold SFdiv_core_binary.
  set (e' := Z.min _ _). set (s := (e1 - e2 - e')%Z).
  set (m' := match s with Z.pos _ => Z.shiftl (Z.pos m1) s | 0%Z => Z.pos m1
                        | Z.neg _ => 0%Z end).
  assert (Hm : (0 <= m')%Z).
  { unfold m'. destruct s; try lia. apply Z.shiftl_nonneg. lia. }
  pose proof (Z.div_pos m' (Z.pos m2) Hm ltac:(lia)) as Hq.
  unfold Z.div in Hq. destruct (Z.div_eucl m' (Z.pos m2)) as [q r]. exact Hq.
Qed.

Lemma div_unsigned (x y : number) : unsigned x -> unsigned y -> unsigned (div x y).
Proof.
  destruct x as [sx|sx| |sx mx ex], y as [sy|sy| |sy my ey]; simpl;
    intros Hx Hy; subst; trivial.
  destruct (SFdiv_core_binary prec emax (Z.pos mx) ex (Z.pos my) ey) as [[mz ez] lz].
  apply binary_round_aux_unsigned.
Qed.

Lemma unsigned_not_lt (x : number) : unsigned x -> lt x (of_nat 0) = false.
Proof. destruct x as [s|s| |s m e]; simpl; intros H; subst; reflexivity. Qed.

(** Products and quotients of numbers that are neither negative nor NaN. *)
Lemma mul_signed_finite (x : number) (m : positive) (e : Z) :
  signed false x -> signed false (mul x (S754_finite false m e)).
Proof.
  destruct x as [sx|sx| |sx mx ex]; simpl; intros Hx; subst; trivial.
  apply binary_round_aux_signed. lia.
Qed.

Lemma mul_signed (x y : number) :
  signed false x -> signed false y -> isFinite x = true -> isFinite y = true ->
  signed false (mul x y).
Proof.
  destruct x as [sx|sx| |sx mx ex], y as [sy|sy| |sy my ey]; simpl;
    intros Hx Hy Fx Fy; subst; trivial; try discriminate.
  apply binary_round_aux_signed. lia.
Qed.

Lemma div_signed_finite (x : number) (m : positive) (e : Z) :
  signed false x -> signed false (div x (S754_finite false m e)).
Proof.
  destruct x as [sx|sx| |sx mx ex]; simpl; intros Hx; subst; trivial.
  pose proof (div_core_nonneg mx m ex e) as Hq.
  destruct (SFdiv_core_binary prec emax (Z.pos mx) ex (Z.pos m) e) as [[mz ez] lz].
  apply binary_round_aux_signed. exact Hq.
Qed.

Lemma signed_ge_zero (x : number) : signed false x -> ge x (of_nat 0) = true.
Proof. destruct x as [s|s| |s m e]; simpl; intros H; subst; trivial; contradiction. Qed.

(** A length below 2^53 as a number: zero or a positive finite number. *)
Lemma of_nat_finite (n : nat) :
  (Z.of_nat n < 2 ^ 53)%Z -> signed false (of_nat n) /\ isFinite (of_nat n) = true.
Proof.
  intros H. destruct n as [|n]; [split; reflexivity|].
  destruct (of_nat_small (S n)) as [m [e Hm]]; [lia | exact H|].
  rewrite Hm. split; reflexivity.
Qed.

(** The density formula never gives a negative number, and gives a number
    that is at least zero when the three counts are lengths below 2^53
    and the body has a word. *)
Lemma densityOf_not_negative (a b c : nat) : lt (densityOf a b c) (of_nat 0) = false.
Proof.
  apply unsigned_not_lt. unfold densityOf.
  repeat first [apply mul_unsigned | apply div_unsigned | apply of_nat_unsigned].
Qed.

Lemma densityOf_ge_zero (a b c : nat) :
  (Z.of_nat a < 2 ^ 53)%Z -> (Z.of_nat b < 2 ^ 53)%Z -> (Z.of_nat c < 2 ^ 53)%Z ->
  0 < c ->
  ge (densityOf a b c) (of_nat 0) = true.
Proof.
  intros Ha Hb Hc Hpos. apply signed_ge_zero. unfold densityOf.
  destruct (of_nat_small c Hpos Hc) as [mc [ec ->]].
  destruct (of_nat_small 100) as [mh [eh ->]]; [lia | vm_compute; reflexivity|].
  apply mul_signed_finite, div_signed_finite.
  destruct (of_nat_finite a Ha), (of_nat_finite b Hb). now apply mul_signed.
Qed.

(* ===================================================================== *)
(** * Part VIII. Sets and the similarity of keywords                     *)
(* ===================================================================== *)

Lemma has_In (s : list jsstring) (x : jsstring) : JSSet.has s x = true <-> In x s.
Proof.
  unfold JSSet.has. rewrite existsb_exists. split.
  - intros [y [Hy Heq]]. apply eqb_string_true in Heq. now subst.
  - intros H. exists x. split; [exact H | apply eqb_string_refl].
Qed.

Lemma add_spec (s : list jsstring) (x y : jsstring) :
  In y (JSSet.add s x) <-> In y s \/ y = x.
Proof.
  unfold JSSet.add. destruct (JSSet.has s x) eqn:H.
  - apply has_In in H. split; [tauto|]. intros [Hy| ->]; assumption.
  - rewrite in_app_iff. simpl. intuition.
Qed.

Lemma add_NoDup (s : list jsstring) (x : jsstring) : NoDup s -> NoDup (JSSet.add s x).
Proof.
  intros Hs. unfold JSSet.add. destruct (JSSet.has s x) eqn:H; [exact Hs|].
  apply NoDup_app; [exact Hs | repeat constructor; intros [] |].
  intros y Hy [<-|[]]. apply has_In in Hy. congruence.
Qed.

Lemma add_length (s : list jsstring) (x : jsstring) :
  length (JSSet.add s x) <= S (length s).
Proof.
  unfold JSSet.add. destruct (JSSet.has s x); [lia|].
  rewrite length_app. simpl. lia.
Qed.

Lemma fold_add_spec (l acc : list jsstring) :
  (forall y, In y (fold_left JSSet.add l acc) <-> In y acc \/ In y l)
  /\ (NoDup acc -> NoDup (fold_left JSSet.add l acc))
  /\ length (fold_left JSSet.add l acc) <= length acc + length l
  /\ length acc <= length (fold_left JSSet.add l acc).
Proof.
  revert acc. induction l as [|x l IH]; intros acc; simpl.
  - repeat split; simpl; try tauto; try lia.
  - destruct (IH (JSSet.add acc x)) as [H1 [H2 [H3 H4]]].
    repeat split.
    + intros Hy. apply H1 in Hy. rewrite add_spec in Hy. intuition.
    + intros Hy. apply H1. rewrite add_spec. intuition.
    + intros Hn. apply H2, add_NoDup, Hn.
    + pose proof (add_length acc x). lia.
    + assert (length acc <= length (JSSet.add acc x)).
      { unfold JSSet.add. destruct (JSSet.has acc x); [lia|].
        rewrite length_app. lia. }
      lia.
Qed.

Lemma of_list_In (l : list jsstring) (y : jsstring) :
  In y (JSSet.of_list l) <-> In y l.
Proof.
  unfold JSSet.of_list. destruct (fold_add_spec l []) as [H _].
  rewrite H. simpl. tauto.
Qed.

Lemma of_list_NoDup (l : list jsstring) : NoDup (JSSet.of_list l).
Proof.
  unfold JSSet.of_list. destruct (fold_add_spec l []) as [_ [H _]].
  apply H. constructor.
Qed.

Lemma of_list_length (l : list jsstring) : length (JSSet.of_list l) <= length l.
Proof.
  unfold JSSet.of_list. destruct (fold_add_spec l []) as [_ [_ [H _]]]. exact H.
Qed.

(** Two sets with the same elements have the same size. *)
Lemma same_elements_size (s t : list jsstring) :
  NoDup s -> NoDup t -> (forall x, In x s <-> In x t) -> length s = length t.
Proof.
  intros Hs Ht H. apply Permutation_length, NoDup_Permutation; assumption.
Qed.

(** ** The two sets of [calculateSimilarity] *)

Lemma calculateSimilarity_eq (a b : jsstring) :
  calculateSimilarity a b
  = div (of_nat (length (JSSet.of_list
                   (filter (fun x => JSSet.has (JSSet.of_list (tokens b)) x)
                           (JSSet.of_list (tokens a))))))
        (of_nat (length (JSSet.of_list
                   (JSSet.of_list (tokens a) ++ JSSet.of_list (tokens b))))).
Proof. reflexivity. Qed.

Lemma intersection_In (a b : jsstring) (x : jsstring) :
  In x (JSSet.of_list
          (filter (fun x => JSSet.has (JSSet.of_list (tokens b)) x)
                  (JSSet.of_list (tokens a))))
  <-> In x (tokens a) /\ In x (tokens b).
Proof.
  rewrite of_list_In, filter_In, has_In, !of_list_In. tauto.
Qed.

Lemma union_In (a b : jsstring) (x : jsstring) :
  In x (JSSet.of_list (JSSet.of_list (tokens a) ++ JSSet.of_list (tokens b)))
  <-> In x (tokens a) \/ In x (tokens b).
Proof.
  rewrite of_list_In, in_app_iff, !of_list_In. tauto.
Qed.

Lemma tokens_length (a : jsstring) : 1 <= length (tokens a) <= S (length a).
Proof.
  unfold tokens. change (js " ") with [" "%char]. rewrite split_single_length.
  pose proof (count_occ_bound ascii_dec " "%char (toLowerCase a)) as H.
  unfold toLowerCase in H. rewrite length_map in H.
  unfold toLowerCase. lia.
Qed.

Lemma tokens_inhabited (a : jsstring) : exists x, In x (tokens a).
Proof.
  pose proof (tokens_length a) as H. destruct (tokens a) as [|x l].
  - simpl in H. lia.
  - exists x. now left.
Qed.

(** The union is not empty, and it is small when the keywords are short. *)
Lemma union_size (a b : jsstring) :
  1 <= length (JSSet.of_list (JSSet.of_list (tokens a) ++ JSSet.of_list (tokens b)))
    <= length a + length b + 2.
Proof.
  set (u := JSSet.of_list _). split.
  - destruct (tokens_inhabited a) as [x Hx].
    assert (Hu : In x u) by (apply union_In; now left).
    destruct u; [destruct Hu | simpl; lia].
  - unfold u. pose proof (of_list_length (JSSet.of_list (tokens a) ++ JSSet.of_list (tokens b))) as H.
    rewrite length_app in H.
    pose proof (of_list_length (tokens a)). pose proof (of_list_length (tokens b)).
    pose proof (tokens_length a). pose proof (tokens_length b). lia.
Qed.

Lemma intersection_size (a b : jsstring) :
  length (JSSet.of_list
            (filter (fun x => JSSet.has (JSSet.of_list (tokens b)) x)
                    (JSSet.of_list (tokens a))))
  <= length a + 1.
Proof.
  pose proof (of_list_length
                (filter (fun x => JSSet.has (JSSet.of_list (tokens b)) x)
                        (JSSet.of_list (tokens a)))) as H1.
  pose proof (filter_length_le (fun x => JSSet.has (JSSet.of_list (tokens b)) x)
                (JSSet.of_list (tokens a))) as H2.
  pose proof (of_list_length (tokens a)). pose proof (tokens_length a). lia.
Qed.

Lemma calculateSimilarity_jaccard (a b : jsstring) (I U : list jsstring) :
  NoDup I -> NoDup U ->
  (forall x, In x I <-> In x (tokens a) /\ In x (tokens b)) ->
  (forall x, In x U <-> In x (tokens a) \/ In x (tokens b)) ->
  calculateSimilarity a b = div (of_nat (length I)) (of_nat (length U)).
Proof.
  intros HI HU HIm HUm. rewrite calculateSimilarity_eq. f_equal; f_equal.
  - apply same_elements_size; [apply of_list_NoDup | exact HI |].
    intros x. rewrite intersection_In, HIm. tauto.
  - apply same_elements_size; [apply of_list_NoDup | exact HU |].
    intros x. rewrite union_In, HUm. tauto.
Qed.

Lemma calculateSimilarity_sym (a b : jsstring) :
  calculateSimilarity a b = calculateSimilarity b a.
Proof.
  rewrite (calculateSimilarity_eq b a).
  apply calculateSimilarity_jaccard; try apply of_list_NoDup.
  - intros x. rewrite intersection_In. tauto.
  - intros x. rewrite union_In. tauto.
Qed.

Lemma union_finite (a b : jsstring) :
  (Z.of_nat (length a + length b) + 2 < 2 ^ 53)%Z ->
  exists m e,
    of_nat (length (JSSet.of_list (JSSet.of_list (tokens a) ++ JSSet.of_list (tokens b))))
    = S754_finite false m e.
Proof.
  intros H. pose proof (union_size a b) as Hu. apply of_nat_small; lia.
Qed.

Lemma calculateSimilarity_disjoint (a b : jsstring) :
  (Z.of_nat (length a + length b) + 2 < 2 ^ 53)%Z ->
  (forall x, In x (tokens a) -> ~ In x (tokens b)) ->
  calculateSimilarity a b = of_nat 0.
Proof.
  intros Hb Hd. rewrite calculateSimilarity_eq.
  destruct (union_finite a b Hb) as [m [e ->]].
  set (i := JSSet.of_list _).
  assert (Hi : i = []).
  { destruct i as [|x l] eqn:Hx; [reflexivity|].
    assert (Hin : In x i) by (rewrite Hx; now left).
    apply intersection_In in Hin. destruct Hin as [H1 H2]. now apply Hd in H1. }
  rewrite Hi. reflexivity.
Qed.

Lemma calculateSimilarity_identical (a b : jsstring) :
  (Z.of_nat (length a + length b) + 2 < 2 ^ 53)%Z ->
  (forall x, In x (tokens a) <-> In x (tokens b)) ->
  calculateSimilarity a b = of_nat 1.
Proof.
  intros Hb Hd. rewrite calculateSimilarity_eq.
  destruct (union_finite a b Hb) as [m [e Hu]].
  replace (length (JSSet.of_list (filter _ _)))
    with (length (JSSet.of_list (JSSet.of_list (tokens a) ++ JSSet.of_list (tokens b)))).
  - rewrite Hu. apply div_self.
  - apply same_elements_size; try apply of_list_NoDup.
    intros x. rewrite intersection_In, union_In, Hd. tauto.
Qed.

Lemma calculateSimilarity_not_NaN (a b : jsstring) :
  (Z.of_nat (length a + length b) + 2 < 2 ^ 53)%Z ->
  signed false (calculateSimilarity a b).
Proof.
  intros Hb. rewrite calculateSimilarity_eq.
  destruct (union_finite a b Hb) as [m [e ->]].
  apply div_signed_finite. apply of_nat_finite.
  pose proof (intersection_size a b). lia.
Qed.

(** ** The pairs that [analyzeKeywordRelationships] reports *)

Lemma similar_to_In (ki : jsstring) (later : list jsstring)
    (a b : jsstring) (x : number) :
  In (a, b, x) (similar_to ki later)
  <-> a = ki /\ In b later /\ x = calculateSimilarity ki b
      /\ gt x (dec 3 1) = true.
Proof.
  induction later as [|kj later IH]; simpl.
  - tauto.
  - rewrite in_app_iff, IH. split.
    + intros [H|H].
      * destruct (gt (calculateSimilarity ki kj) (dec 3 1)) eqn:Hg;
          [|destruct H].
        destruct H as [H|[]]. inversion H; subst. tauto.
      * tauto.
    + intros [-> [[->|Hb] [-> Hg]]].
      * left. rewrite Hg. now left.
      * right. tauto.
Qed.

Lemma similarities_of_In (keywords : list jsstring) (a b : jsstring) (x : number) :
  In (a, b, x) (similarities_of keywords)
  <-> exists i j, i < j /\ nth_error keywords i = Some a
                  /\ nth_error keywords j = Some b
                  /\ x = calculateSimilarity a b /\ gt x (dec 3 1) = true.
Proof.
  induction keywords as [|ki later IH]; simpl.
  - split; [tauto|]. intros [i [j [_ [H _]]]]. destruct i; discriminate.
  - rewrite in_app_iff, similar_to_In, IH. split.
    + intros [[-> [Hb [-> Hg]]]|[i [j [Hij [Hi [Hj [Hx Hg]]]]]]].
      * apply In_nth_error in Hb. destruct Hb as [j Hj].
        exists 0, (S j). repeat split; simpl; auto; lia.
      * exists (S i), (S j). repeat split; simpl; auto; lia.
    + intros [i [j [Hij [Hi [Hj [Hx Hg]]]]]].
      destruct j as [|j]; [lia|]. simpl in Hj. destruct i as [|i].
      * left. simpl in Hi. inversion Hi; subst.
        repeat split; auto. eapply nth_error_In; eauto.
      * right. exists i, j. simpl in Hi. repeat split; auto; lia.
Qed.

(** The report has its warning exactly when a pair is above the threshold. *)
Lemma relationships_warns (keywords : list jsstring) :
  In (Warn, [Txt "Potentially competing keywords found:"])
     (analyzeKeywordRelationships keywords)
  <-> similarities_of keywords <> [].
Proof.
  unfold analyzeKeywordRelationships.
  destruct (similarities_of keywords) as [|t l]; simpl.
  - split; [|congruence]. intros [H|[H|[]]]; discriminate.
  - split; [congruence|]. intros _. right. now left.
Qed.

(* ===================================================================== *)
(** * Part IX. The syllable estimator                                    *)
(* ===================================================================== *)

Lemma accepts_char (n : N) (c : ascii) : accepts false (N.eqb n) c = N.eqb (code c) n.
Proof. unfold accepts. apply N.eqb_sym. Qed.

Lemma accepts_vowelYL (c : ascii) :
  accepts false (class_mem (oneof "laeiouy")) c = isVowelYL c.
Proof. reflexivity. Qed.

Lemma accepts_vowelY (c : ascii) :
  accepts false (class_mem (oneof "aeiouy")) c = isVowelY c.
Proof. reflexivity. Qed.

(** Case analysis on the tests of a character that a goal contains. *)
Ltac char_tests :=
  repeat match goal with
         | |- context [N.eqb ?x ?y] => destruct (N.eqb x y)
         | |- context [isVowelYL ?x] => destruct (isVowelYL x)
         | |- context [isVowelY ?x] => destruct (isVowelY x)
         end.

Lemma rmatch_silent (prev : option ascii) (t : jsstring) :
  rmatch false re_silent_ending prev t kend
  = if silentEnding t then Some [] else None.
Proof.
  unfold re_silent_ending.
  change (lit "es") with (RSeq (RChar 101) (RChar 115)).
  change (lit "ed") with (RSeq (RChar 101) (RChar 100)).
  change (lit "e") with (RChar 101).
  destruct t as [|a [|b [|c [|d t]]]]; cbn [rmatch silentEnding];
    rewrite ?accepts_char, ?accepts_vowelYL, ?xorb_true_l;
    char_tests; reflexivity.
Qed.

Lemma exec_at_silent (prev : option ascii) (t : jsstring) :
  exec_at false re_silent_ending prev t
  = if silentEnding t then Some (t, []) else None.
Proof.
  unfold exec_at. rewrite rmatch_silent.
  destruct (silentEnding t); [|reflexivity].
  cbn [length]. rewrite Nat.sub_0_r, firstn_all. reflexivity.
Qed.

Lemma replace_1_silent (s : jsstring) :
  replace_1 re_silent_ending [] s = cutSilentEnding s.
Proof.
  unfold replace_1. generalize (@None ascii).
  induction s as [|c s IH]; intros prev; cbn [replace_first_from cutSilentEnding];
    rewrite exec_at_silent.
  - reflexivity.
  - destruct (silentEnding (c :: s)); [reflexivity|]. now rewrite IH.
Qed.

Lemma cutSilentEnding_long (p : jsstring) (a b c : ascii) :
  cutSilentEnding (p ++ [a; b; c])
  = p ++ cutSilentEnding [a; b; c].
Proof.
  induction p as [|x p IH]; [reflexivity|].
  cbn [app cutSilentEnding]. rewrite IH.
  replace (silentEnding (x :: p ++ [a; b; c])) with false; [reflexivity|].
  destruct p as [|y [|z [|w p]]]; reflexivity.
Qed.

Lemma cutSilentEnding_rev (t : jsstring) :
  cutSilentEnding (rev t) = dropSilentEnding (rev t).
Proof.
  unfold dropSilentEnding. rewrite rev_involutive.
  destruct t as [|x [|e [|c r]]].
  - reflexivity.
  - reflexivity.
  - cbn [rev app tl]. cbn [cutSilentEnding silentEnding].
    rewrite andb_false_r. char_tests; reflexivity.
  - cbn [rev tl]. rewrite <- !app_assoc. cbn [app].
    rewrite cutSilentEnding_long. cbn [cutSilentEnding silentEnding].
    char_tests; cbn [negb andb orb]; rewrite ?app_nil_r; reflexivity.
Qed.

Lemma replace_1_silent_ending (s : jsstring) :
  replace_1 re_silent_ending [] s = dropSilentEnding s.
Proof.
  rewrite replace_1_silent, <- (rev_involutive s). apply cutSilentEnding_rev.
Qed.

(** [/^y/] matches at the start only. *)
Lemma exec_at_leading_y (prev : option ascii) (s : jsstring) :
  exec_at false re_leading_y prev s
  = match prev, s with
    | None, c :: s' => if N.eqb (code c) 121 then Some ([c], s') else None
    | _, _ => None
    end.
Proof.
  unfold exec_at, re_leading_y. change (lit "y") with (RChar 121).
  destruct prev as [p|]; [reflexivity|].
  destruct s as [|c s]; cbn [rmatch]; [reflexivity|].
  rewrite accepts_char. destruct (N.eqb (code c) 121); [|reflexivity].
  unfold kend. replace (length (c :: s) - length s) with 1 by (cbn [length]; lia).
  reflexivity.
Qed.

Lemma replace_first_leading_y_later (s : jsstring) (p : ascii) :
  replace_first_from false re_leading_y [] (Some p) s = s.
Proof.
  revert p. induction s as [|c s IH]; intros p; cbn [replace_first_from];
    rewrite exec_at_leading_y; [reflexivity|]. now rewrite IH.
Qed.

Lemma replace_1_leading_y (s : jsstring) :
  replace_1 re_leading_y [] s = stripLeadingY s.
Proof.
  unfold replace_1, stripLeadingY. destruct s as [|c s];
    cbn [replace_first_from]; rewrite exec_at_leading_y; [reflexivity|].
  destruct (N.eqb (code c) 121); [reflexivity|].
  now rewrite replace_first_leading_y_later.
Qed.

Lemma replace_g_non_letter (s : jsstring) :
  replace_g re_non_letter [] s = filter isLowerLetter s.
Proof.
  unfold re_non_letter. rewrite replace_g_class. apply filter_ext.
  intros c. unfold accepts, class_mem, isLowerLetter. simpl.
  rewrite orb_false_r. apply negb_involutive.
Qed.

(** One attempt of [[aeiouy]{1,2}]: two vowels when there are two, else one. *)
Lemma rep_one_or_two (p : ascii -> bool) (fuel : nat) (prev : option ascii)
    (s : jsstring) :
  length s < fuel ->
  rep_loop (classMatcher p) (S fuel) 1 (Some 2) true prev s kend
  = match s with
    | c1 :: s1 =>
        if p c1 then
          match s1 with
          | c2 :: s2 => if p c2 then Some s2 else Some s1
          | [] => Some []
          end
        else None
    | [] => None
    end.
Proof.
  intros Hf. destruct s as [|c1 s1]; cbn [rep_loop classMatcher Nat.eqb negb];
    [reflexivity|].
  destruct (p c1); [|reflexivity]. cbn [length] in Hf.
  destruct fuel as [|fuel]; [lia|].
  destruct s1 as [|c2 s2];
    cbn [rep_loop classMatcher Nat.eqb negb andb option_map Nat.pred];
    [reflexivity|].
  destruct (p c2); [|reflexivity]. cbn [length] in Hf.
  destruct fuel as [|fuel]; [lia|].
  replace (length s2 =? length (c2 :: s2)) with false
    by (symmetry; apply Nat.eqb_neq; cbn [length]; lia).
  reflexivity.
Qed.

Lemma exec_at_vowel_group (prev : option ascii) (s : jsstring) :
  exec_at false re_vowel_group prev s
  = match s with
    | c1 :: s1 =>
        if isVowelY c1 then
          match s1 with
          | c2 :: s2 => if isVowelY c2 then Some ([c1; c2], s2) else Some ([c1], s1)
          | [] => Some ([c1], [])
          end
        else None
    | [] => None
    end.
Proof.
  unfold exec_at, re_vowel_group.
  change (rmatch false (RRep 1 (Some 2) true (RClass false (oneof "aeiouy"))) prev s kend)
    with (rep_loop (classMatcher isVowelY) (1 + length s + 1) 1 (Some 2) true prev s kend).
  replace (1 + length s + 1) with (S (S (length s))) by lia.
  rewrite rep_one_or_two by lia.
  destruct s as [|c1 s1]; [reflexivity|].
  destruct (isVowelY c1); [|reflexivity].
  destruct s1 as [|c2 s2]; [reflexivity|].
  destruct (isVowelY c2).
  - replace (length (c1 :: c2 :: s2) - length s2) with 2 by (cbn [length]; lia).
    reflexivity.
  - replace (length (c1 :: c2 :: s2) - length (c2 :: s2)) with 1
      by (cbn [length]; lia).
    reflexivity.
Qed.

Lemma match_all_vowel_groups :
  forall fuel s prev, length s < fuel ->
  length (match_all_from fuel false re_vowel_group prev s) = vowelGroups false s.
Proof.
  induction fuel as [|fuel IH]; intros s prev Hf; [lia|].
  cbn [match_all_from]. rewrite exec_at_vowel_group.
  destruct s as [|c1 s1]; [reflexivity|]. cbn [length] in Hf.
  cbn [vowelGroups]. destruct (isVowelY c1).
  - destruct s1 as [|c2 s2].
    + cbn [length vowelGroups]. rewrite IH by (cbn [length]; lia). reflexivity.
    + cbn [vowelGroups length] in *. destruct (isVowelY c2) eqn:H2.
      * cbn [length]. rewrite IH by lia. reflexivity.
      * cbn [length]. rewrite IH by (cbn [length]; lia).
        cbn [vowelGroups]. rewrite H2. reflexivity.
  - apply IH. lia.
Qed.

Lemma match_g_vowel_groups (s : jsstring) :
  match match_g false re_vowel_group s with
  | Some syllables => length syllables
  | None => 1
  end = Nat.max 1 (vowelGroups false s).
Proof.
  unfold match_g.
  pose proof (match_all_vowel_groups (S (length s)) s None ltac:(lia)) as H.
  destruct (match_all_from (S (length s)) false re_vowel_group None s) as [|m l].
  - simpl in H. rewrite <- H. reflexivity.
  - rewrite <- H. cbn [length]. lia.
Qed.

(** [countWordSyllables] follows the rule stated on lists. *)
Lemma countWordSyllables_eq (word : jsstring) :
  countWordSyllables word = countWordSyllables_rule word.
Proof.
  unfold countWordSyllables, countWordSyllables_rule.
  rewrite replace_g_non_letter.
  destruct (length (filter isLowerLetter (toLowerCase word)) <=? 3); [reflexivity|].
  rewrite replace_1_silent_ending, replace_1_leading_y.
  apply match_g_vowel_groups.
Qed.

Lemma countWordSyllables_positive (word : jsstring) : 1 <= countWordSyllables word.
Proof.
  rewrite countWordSyllables_eq. unfold countWordSyllables_rule.
  destruct (_ <=? 3); lia.
Qed.

(* ===================================================================== *)
(** * Part X. The content analyzer on a page without text                *)
(* ===================================================================== *)

Lemma checkParagraphs_empty improveText (ps : list jsstring) :
  (forall p, In p ps -> trim p = []) ->
  forall index, checkParagraphs improveText index ps = [].
Proof.
  induction ps as [|p ps IH]; intros H index; simpl; [reflexivity|].
  rewrite (H p) by now left. simpl. apply IH. intros q Hq. apply H. now right.
Qed.

Lemma fullText_empty (ps : list jsstring) :
  (forall p, In p ps -> trim p = []) ->
  join (js " ") (filter (fun p => 0 <? length p) (map trim ps)) = [].
Proof.
  induction ps as [|p ps IH]; intros H; simpl; [reflexivity|].
  rewrite (H p) by now left. simpl. apply IH. intros q Hq. apply H. now right.
Qed.

(** With no word and no sentence every score is NaN, whatever the language. *)
Lemma calculateMetrics_empty (language : jsstring) :
  calculateMetrics [] language
  = {| fleschEase := NaN; fleschKincaid := NaN; gunningFog := NaN;
       colemanLiau := NaN; averageWordsPerSentence := NaN;
       averageSyllablesPerWord := S754_infinity false;
       totalWords := 0; totalSentences := 0; complexWords := 0;
       lix := NaN; longWords := 0 |}.
Proof. vm_compute. reflexivity. Qed.

Lemma recommendations_empty (language : jsstring) :
  getReadabilityRecommendations (calculateMetrics [] language) language = [].
Proof.
  rewrite calculateMetrics_empty. unfold getReadabilityRecommendations.
  destruct (eqb_string language (js "sv")); vm_compute; reflexivity.
Qed.

Lemma analyzeContent_degenerate improveText (document : Document) :
  paragraphs document <> [] ->
  (forall p, In p (paragraphs document) -> trim p = []) ->
  analyzeContent improveText document
  = [(Step, [Txt "Content Structure Analysis:"]);
     (Step, [Txt "Readability Analysis:"])]
    ++ (if eqb_string (languageOf document) (js "sv") then
          [(Info, [Txt "LIX Score: "; Num NaN; Txt " ("; Txt "Very Difficult"; Txt ")"])]
        else
          [(Info, [Txt "Flesch Reading Ease: "; Num NaN; Txt " (";
                   Txt "Very Difficult (College graduate)"; Txt ")"]);
           (Info, [Txt "Flesch-Kincaid Grade Level: "; Num NaN]);
           (Info, [Txt "Gunning Fog Index: "; Num NaN]);
           (Info, [Txt "Coleman-Liau Index: "; Num NaN])])
    ++ [(Step, [Txt "Content Statistics:"]);
        (Info, [Txt "Total Words: "; Int 0]);
        (Info, [Txt "Total Sentences: "; Int 0]);
        (Info, [Txt "Average Words per Sentence: "; Num NaN]);
        (if eqb_string (languageOf document) (js "sv")
         then (Info, [Txt "Long Words: "; Int 0; Txt " ("; Num NaN; Txt "%)"])
         else (Info, [Txt "Complex Words: "; Int 0; Txt " ("; Num NaN; Txt "%)"]))].
Proof.
  intros Hne Hempty. unfold analyzeContent.
  destruct (paragraphs document) as [|p ps] eqn:Hps; [congruence|].
  cbn [length Nat.eqb]. rewrite <- Hps in *.
  rewrite (checkParagraphs_empty improveText _ Hempty).
  rewrite (fullText_empty _ Hempty).
  rewrite recommendations_empty, calculateMetrics_empty.
  destruct (eqb_string (languageOf document) (js "sv")); reflexivity.
Qed.

(* ===================================================================== *)
(** * Part XI. The run over the keyword list                             *)
(* ===================================================================== *)

Lemma split_from_inhabited (r : regex) :
  forall fuel cur prev s, 1 <= length (split_from fuel r cur prev s).
Proof.
  induction fuel as [|fuel IH]; intros cur prev s; cbn [split_from].
  - simpl. lia.
  - destruct s as [|c s]; [simpl; lia|].
    destruct (exec_at false r prev (c :: s)) as [[m rest]|]; [|apply IH].
    destruct m as [|x m]; [destruct cur|]; try apply IH; simpl; lia.
Qed.

(** A text always splits into at least one piece at white space. *)
Lemma split_spaces_inhabited (s : jsstring) : 1 <= length (split_re re_spaces s).
Proof.
  unfold split_re. destruct s as [|c s].
  - rewrite exec_at_spaces. simpl. lia.
  - apply split_from_inhabited.
Qed.

(** No character that the pattern parser leaves out reaches it. *)
Lemma normalizedKeyword_alphabet (keyword : jsstring) (c : ascii) :
  In c (normalizeText keyword) -> ~ In c (js "(){}-").
Proof.
  intros H Hc. pose proof (normalizeText_chars keyword) as Hall.
  rewrite Forall_forall in Hall. destruct (Hall c H) as [_ Hp].
  simpl in Hc. destruct Hc as [<-|[<-|[<-|[<-|[<-|[]]]]]]; discriminate.
Qed.

Lemma announced_app (l1 l2 : list entry) :
  announced (l1 ++ l2) = announced l1 ++ announced l2.
Proof.
  induction l1 as [|e l1 IH]; [reflexivity|]. cbn [app announced].
  destruct (announcement e); [cbn [app]; f_equal|]; exact IH.
Qed.

Lemma announced_none (l : list entry) :
  Forall (fun e => announcement e = None) l -> announced l = [].
Proof.
  induction 1 as [|e l He _ IH]; [reflexivity|]. cbn [announced].
  now rewrite He.
Qed.

(** Splitting a list of entries that announce nothing into its pieces. *)
Ltac quiet :=
  repeat first
    [ apply Forall_nil
    | apply Forall_app; split
    | apply Forall_cons;
      [ try reflexivity;
        repeat match goal with
               | |- context [if ?b then _ else _] => destruct b
               end;
        reflexivity
      | ]
    | match goal with
      | |- Forall _ (if ?b then _ else _) => destruct b
      | |- Forall _ (match ?r with [] => _ | _ :: _ => _ end) => destruct r
      | |- Forall _ (map _ _) =>
          let x := fresh "x" in
          let H := fresh "H" in
          apply Forall_forall; intros x H; apply in_map_iff in H;
          destruct H as [? [<- _]]; try reflexivity
      end ].

Lemma displayResults_quiet (analysis : KeywordAnalysis) (keyword : jsstring) :
  Forall (fun e => announcement e = None) (displayResults analysis keyword).
Proof. unfold displayResults. quiet. Qed.

Lemma relationships_quiet (keywords : list jsstring) :
  Forall (fun e => announcement e = None) (analyzeKeywordRelationships keywords).
Proof.
  unfold analyzeKeywordRelationships. quiet.
  match goal with x : (jsstring * jsstring * number)%type |- _ =>
    destruct x as [[? ?] ?] end.
  reflexivity.
Qed.

(** ** What [analyzeKeywordUsage] does *)

Lemma analyzeKeywordUsage_empty (document : Document) (keywordsInput : jsstring) :
  trim keywordsInput = [] ->
  analyzeKeywordUsage document keywordsInput
  = ([(Error, [Txt "No keywords provided"])], Returns tt).
Proof. intros H. unfold analyzeKeywordUsage. rewrite H. reflexivity. Qed.

(** When every keyword is analyzable the loop runs to its end and
    announces the keywords one by one, in the order of the list. *)
Lemma analyzeEach_completes (document : Document) (keywords : list jsstring) :
  forallb analyzable keywords = true ->
  forall index, exists log,
    analyzeEach document keywords index = (log, Returns tt)
    /\ announced log = keywords.
Proof.
  induction keywords as [|k ks IH]; intros Hall index; cbn [analyzeEach].
  - exists []. split; reflexivity.
  - cbn [forallb] in Hall. apply andb_prop in Hall. destruct Hall as [Hk Hks].
    rewrite (analyzeKeyword_returns _ _ Hk).
    destruct (IH Hks (S index)) as [log [Hrun Hann]]. rewrite Hrun.
    eexists. split; [reflexivity|].
    cbn [announced announcement]. cbn [String.eqb Ascii.eqb Bool.eqb].
    rewrite announced_app, (announced_none _ (displayResults_quiet _ _)), Hann.
    reflexivity.
Qed.

(** The loop stops at the first keyword that is not analyzable: the
    keywords before it are announced, and it, and no later one. *)
Lemma analyzeEach_stops (document : Document) (before : list jsstring)
    (bad : jsstring) (after : list jsstring) :
  forallb analyzable before = true -> analyzable bad = false ->
  forall index, exists log,
    analyzeEach document (before ++ bad :: after) index = (log, Throws)
    /\ announced log = before ++ [bad].
Proof.
  intros Hbefore Hbad. induction before as [|k ks IH]; intros index;
    cbn [app analyzeEach].
  - rewrite (analyzeKeyword_throws _ _ Hbad). eexists. split; reflexivity.
  - cbn [forallb] in Hbefore. apply andb_prop in Hbefore.
    destruct Hbefore as [Hk Hks]. rewrite (analyzeKeyword_returns _ _ Hk).
    destruct (IH Hks (S index)) as [log [Hrun Hann]]. rewrite Hrun.
    eexists. split; [reflexivity|].
    cbn [announced announcement]. cbn [String.eqb Ascii.eqb Bool.eqb].
    rewrite announced_app, (announced_none _ (displayResults_quiet _ _)), Hann.
    reflexivity.
Qed.

Lemma analyzeKeywordUsage_completes (document : Document) (keywordsInput : jsstring) :
  trim keywordsInput <> [] ->
  forallb analyzable (splitKeywords keywordsInput) = true ->
  exists log,
    analyzeKeywordUsage document keywordsInput = (log, Returns tt)
    /\ announced log = splitKeywords keywordsInput.
Proof.
  intros Hne Hall. unfold analyzeKeywordUsage.
  destruct (trim keywordsInput) as [|c t] eqn:Ht; [congruence|]. cbn [length Nat.eqb].
  destruct (analyzeEach_completes document _ Hall 0) as [log [Hrun Hann]].
  rewrite Hrun. eexists. split; [reflexivity|].
  cbn [announced announcement]. rewrite announced_app, Hann.
  destruct (1 <? length (splitKeywords keywordsInput)).
  - rewrite (announced_none _ (relationships_quiet _)). apply app_nil_r.
  - apply app_nil_r.
Qed.

Lemma analyzeKeywordUsage_empty_witness :
  analyzeKeywordUsage catDogPage (js "   ")
  = ([(Error, [Txt "No keywords provided"])], Returns tt).
Proof. apply (analyzeKeywordUsage_empty catDogPage (js "   ")). reflexivity. Defined.

Lemma analyzeEach_stops_witness :
  exists log,
    analyzeEach catDogPage ([js "cat"] ++ js "c++" :: [js "dog"]) 0 = (log, Throws)
    /\ announced log = [js "cat"] ++ [js "c++"].
Proof.
  apply (analyzeEach_stops catDogPage [js "cat"] (js "c++") [js "dog"]);
    vm_compute; reflexivity.
Defined.

Lemma analyzeKeywordUsage_completes_witness :
  exists log,
    analyzeKeywordUsage catDogPage (js "cat dog, ,cat") = (log, Returns tt)
    /\ announced log = splitKeywords (js "cat dog, ,cat").
Proof.
  apply (analyzeKeywordUsage_completes catDogPage (js "cat dog, ,cat")).
  - vm_compute. discriminate.
  - vm_compute. reflexivity.
Defined.

(* ===================================================================== *)
(** * Part XII. The claims of the specification                          *)
(* ===================================================================== *)

(** C1 (the code departs from the claim).  For a document with at least one
    paragraph whose paragraphs are all empty after trimming, the joined
    text is empty, every score is NaN, and [analyzeContent] does not
    detect it: the readability lines are logged with NaN as the score
    (and the lowest grade as its label), whatever the text-improvement
    service does.  The log is given in full for both language branches. *)
Theorem analyzeContent_prints_NaN :
  forall improveText (document : Document),
    paragraphs document <> [] ->
    (forall p, In p (paragraphs document) -> trim p = []) ->
    Number.isFinite (fleschEase (calculateMetrics [] (languageOf document))) = false
    /\ Number.isFinite (lix (calculateMetrics [] (languageOf document))) = false
    /\ analyzeContent improveText document
       = [(Step, [Txt "Content Structure Analysis:"]);
          (Step, [Txt "Readability Analysis:"])]
         ++ (if eqb_string (languageOf document) (js "sv") then
               [(Info, [Txt "LIX Score: "; Num NaN; Txt " ("; Txt "Very Difficult";
                        Txt ")"])]
             else
               [(Info, [Txt "Flesch Reading Ease: "; Num NaN; Txt " (";
                        Txt "Very Difficult (College graduate)"; Txt ")"]);
                (Info, [Txt "Flesch-Kincaid Grade Level: "; Num NaN]);
                (Info, [Txt "Gunning Fog Index: "; Num NaN]);
                (Info, [Txt "Coleman-Liau Index: "; Num NaN])])
         ++ [(Step, [Txt "Content Statistics:"]);
             (Info, [Txt "Total Words: "; Int 0]);
             (Info, [Txt "Total Sentences: "; Int 0]);
             (Info, [Txt "Average Words per Sentence: "; Num NaN]);
             (if eqb_string (languageOf document) (js "sv")
              then (Info, [Txt "Long Words: "; Int 0; Txt " ("; Num NaN; Txt "%)"])
              else (Info, [Txt "Complex Words: "; Int 0; Txt " ("; Num NaN;
                           Txt "%)"]))].
Proof.
  intros improveText document Hne Hempty.
  rewrite calculateMetrics_empty. repeat split.
  now apply analyzeContent_degenerate.
Qed.

(** C1, on the page with one empty paragraph: the text of the line of the
    Flesch score. *)
Lemma analyzeContent_prints_NaN_witness :
  nth_error (map (fun e => render (snd e))
                 (analyzeContent noService emptyParagraphPage)) 2
  = Some (Some "Flesch Reading Ease: NaN (Very Difficult (College graduate))"%string).
Proof.
  destruct (analyzeContent_prints_NaN noService emptyParagraphPage) as [_ [_ H]].
  - discriminate.
  - intros p [<-|[]]. reflexivity.
  - rewrite H. reflexivity.
Defined.

(** C2, counterexample.  The code does not compute the algorithm of the
    specification: [table] keeps its ending, since [l] is among the
    characters the ending may not follow, and the three vowels of
    [beautiful] count as two groups. *)
Lemma countWordSyllables_not_spec :
  countWordSyllables (js "table") = 2
  /\ countWordSyllables_spec (js "table") = 1
  /\ countWordSyllables (js "beautiful") = 4
  /\ countWordSyllables_spec (js "beautiful") = 3.
Proof. vm_compute. repeat split. Qed.

(** C2, amended.  For every word, [countWordSyllables] computes the rule
    [countWordSyllables_rule]: lower the case and keep the letters a-z; a
    word of at most three letters counts one; otherwise drop the ending
    (a character other than l, a vowel or y followed by [es]; or [ed]; or
    a character other than l, a vowel or y followed by [e]), strip a
    leading [y], and count the vowel-or-y characters in groups of at most
    two, at least one.  The result is at least 1 for every input, 1 for
    [cat] and 3 for [banana]. *)
Theorem countWordSyllables_rule_correct :
  (forall word, countWordSyllables word = countWordSyllables_rule word)
  /\ (forall word, 1 <= countWordSyllables word)
  /\ countWordSyllables (js "cat") = 1
  /\ countWordSyllables (js "banana") = 3.
Proof.
  split; [exact countWordSyllables_eq|].
  split; [exact countWordSyllables_positive|].
  split; vm_compute; reflexivity.
Qed.

(** C3, counterexample.  Two empty keywords have similarity 1, not 0: each
    splits into the one empty word. *)
Lemma calculateSimilarity_empty_keywords :
  tokens [] = [[]]
  /\ calculateSimilarity [] [] = Number.of_nat 1
  /\ calculateSimilarity [] [] <> Number.of_nat 0.
Proof. vm_compute. repeat split. discriminate. Qed.

(** C3, amended.  For keywords short enough for their word counts to be
    held exactly, [calculateSimilarity a b] is the Jaccard index of the two
    sets of words: the quotient of the sizes of any duplicate-free
    listings of the intersection and of the union.  It is symmetric, 0
    when the sets are disjoint, 1 when they are equal (so 1 when both
    keywords are empty), and never NaN or negative. *)
Theorem calculateSimilarity_jaccard_index (a b : jsstring) :
  (Z.of_nat (length a + length b) + 2 < 2 ^ 53)%Z ->
  (forall I U : list jsstring,
      NoDup I -> NoDup U ->
      (forall x, In x I <-> In x (tokens a) /\ In x (tokens b)) ->
      (forall x, In x U <-> In x (tokens a) \/ In x (tokens b)) ->
      calculateSimilarity a b
      = Number.div (Number.of_nat (length I)) (Number.of_nat (length U)))
  /\ calculateSimilarity a b = calculateSimilarity b a
  /\ ((forall x, In x (tokens a) -> ~ In x (tokens b)) ->
      calculateSimilarity a b = Number.of_nat 0)
  /\ ((forall x, In x (tokens a) <-> In x (tokens b)) ->
      calculateSimilarity a b = Number.of_nat 1)
  /\ (a = [] -> b = [] -> calculateSimilarity a b = Number.of_nat 1)
  /\ Number.ge (calculateSimilarity a b) (Number.of_nat 0) = true.
Proof.
  intros Hb. repeat split.
  - intros I U. apply calculateSimilarity_jaccard.
  - apply calculateSimilarity_sym.
  - now apply calculateSimilarity_disjoint.
  - now apply calculateSimilarity_identical.
  - intros -> ->. reflexivity.
  - now apply signed_ge_zero, calculateSimilarity_not_NaN.
Qed.

Lemma calculateSimilarity_jaccard_index_witness :
  calculateSimilarity (js "solar energy") (js "solar power")
  = Number.div (Number.of_nat 1) (Number.of_nat 3)
  /\ calculateSimilarity (js "solar energy") (js "solar power")
     = calculateSimilarity (js "solar power") (js "solar energy").
Proof.
  destruct (calculateSimilarity_jaccard_index (js "solar energy") (js "solar power"))
    as [HJ [Hsym _]].
  - vm_compute. reflexivity.
  - split; [|exact Hsym].
    apply (HJ [js "solar"] [js "solar"; js "energy"; js "power"]).
    + repeat constructor; simpl; intuition discriminate.
    + repeat constructor; simpl; intuition discriminate.
    + intros x. vm_compute. intuition (subst; try discriminate; auto).
    + intros x. vm_compute. tauto.
Defined.

(** C4, counterexample.  The heading counts are not the count found in the
    concatenation of the heading texts: two headings "cat" give 2, their
    concatenation "catcat" has no whole word "cat"; and the headings
    "solar" and "energy" give 0 for "solar energy", which occurs once in
    the headings joined by a space. *)
Lemma heading_counts_not_of_concatenation :
  (exists r occ,
      analyzeKeyword catHeadingsPage (js "cat") = Returns r
      /\ findKeywordOccurrences
           (concat (h1s catHeadingsPage ++ h2s catHeadingsPage ++ h3s catHeadingsPage))
           (js "cat") = Returns occ
      /\ inHeadings_h1 r + inHeadings_h2 r + inHeadings_h3 r = 2
      /\ length occ = 0)
  /\ (exists r occ,
         analyzeKeyword solarHeadingsPage (js "solar energy") = Returns r
         /\ findKeywordOccurrences
              (join (js " ")
                 (h1s solarHeadingsPage ++ h2s solarHeadingsPage
                  ++ h3s solarHeadingsPage))
              (js "solar energy") = Returns occ
         /\ inHeadings_h1 r + inHeadings_h2 r + inHeadings_h3 r = 0
         /\ length occ = 1).
Proof.
  split; eexists; eexists; (split; [vm_compute; reflexivity|]);
    (split; [vm_compute; reflexivity|]); split; reflexivity.
Qed.

(** C4, amended.  When [analyzeKeyword] returns, each heading count is the
    sum, over the heading elements of its level, of the number of
    occurrences the finder returns on that element's own text; so
    h1 + h2 + h3 is the sum of these numbers over all H1, H2 and H3
    elements. *)
Theorem heading_counts_sum (document : Document) (keyword : jsstring)
    (r : KeywordAnalysis) :
  analyzeKeyword document keyword = Returns r ->
  (forall el, In el (h1s document ++ h2s document ++ h3s document) ->
              exists occ, findKeywordOccurrences el keyword = Returns occ
                          /\ occurrencesIn keyword el = length occ)
  /\ inHeadings_h1 r = list_sum (map (occurrencesIn keyword) (h1s document))
  /\ inHeadings_h2 r = list_sum (map (occurrencesIn keyword) (h2s document))
  /\ inHeadings_h3 r = list_sum (map (occurrencesIn keyword) (h3s document))
  /\ inHeadings_h1 r + inHeadings_h2 r + inHeadings_h3 r
     = list_sum (map (occurrencesIn keyword)
                     (h1s document ++ h2s document ++ h3s document)).
Proof.
  intros H. pose proof (analyzeKeyword_analyzable _ _ _ H) as Hk.
  rewrite (analyzeKeyword_returns _ _ Hk) in H. inversion H; subst r; clear H.
  cbn [inHeadings_h1 inHeadings_h2 inHeadings_h3]. repeat split.
  - intros el _. exists (found keyword el). split; [|reflexivity].
    now apply findKeywordOccurrences_returns.
  - rewrite !map_app, !list_sum_app. lia.
Qed.

Lemma heading_counts_sum_witness :
  exists r, analyzeKeyword catHeadingsPage (js "cat") = Returns r
            /\ inHeadings_h1 r + inHeadings_h2 r + inHeadings_h3 r
               = list_sum (map (occurrencesIn (js "cat")) [js "cat"; js "cat"]).
Proof.
  eexists. split; [vm_compute; reflexivity|].
  apply (heading_counts_sum catHeadingsPage (js "cat")). vm_compute. reflexivity.
Defined.

(** C5.  The density [analyzeKeyword] returns is the number of occurrences
    found in the body text, times the number of pieces the keyword splits
    into at white space, over the number of pieces the normalized body
    text splits into, times 100, in that order of operations.  The
    divisor is at least 1; the density is never below zero, and it is a
    number at least zero when the three counts are lengths an array can
    have.  It is not clamped: the lemma after this one has a density of 150. *)
Theorem density_formula (document : Document) (keyword : jsstring)
    (r : KeywordAnalysis) :
  analyzeKeyword document keyword = Returns r ->
  exists occ,
    findKeywordOccurrences (bodyText document) keyword = Returns occ
    /\ count r = length occ
    /\ 1 <= length (split_re re_spaces (normalizeText (bodyText document)))
    /\ density r
       = Number.mul
           (Number.div
              (Number.mul (Number.of_nat (length occ))
                          (Number.of_nat (length (split_re re_spaces keyword))))
              (Number.of_nat
                 (length (split_re re_spaces (normalizeText (bodyText document))))))
           (Number.of_nat 100)
    /\ Number.lt (density r) (Number.of_nat 0) = false
    /\ ((Z.of_nat (length occ) < 2 ^ 32)%Z ->
        (Z.of_nat (length (split_re re_spaces keyword)) < 2 ^ 32)%Z ->
        (Z.of_nat (length (split_re re_spaces (normalizeText (bodyText document))))
         < 2 ^ 32)%Z ->
        Number.ge (density r) (Number.of_nat 0) = true).
Proof.
  intros H. pose proof (analyzeKeyword_analyzable _ _ _ H) as Hk.
  rewrite (analyzeKeyword_returns _ _ Hk) in H. inversion H; subst r; clear H.
  cbn [density count]. exists (found keyword (bodyText document)).
  pose proof (split_spaces_inhabited (normalizeText (bodyText document))) as Hw.
  repeat split.
  - now apply findKeywordOccurrences_returns.
  - exact Hw.
  - apply densityOf_not_negative.
  - intros Ha Hb Hc. apply densityOf_ge_zero; lia.
Qed.

(** C5, a density above 100: the keyword "cat & dog" counts three words
    and occurs once in the two words of the body "cat dog". *)
Lemma density_above_100 :
  exists r,
    analyzeKeyword catDogPage (js "cat & dog") = Returns r
    /\ (exists occ,
           findKeywordOccurrences (bodyText catDogPage) (js "cat & dog") = Returns occ
           /\ count r = length occ)
    /\ count r = 1
    /\ density r = Number.of_nat 150
    /\ Number.gt (density r) (Number.of_nat 100) = true.
Proof.
  destruct (analyzeKeyword catDogPage (js "cat & dog")) as [r|] eqn:Hr;
    [|vm_compute in Hr; discriminate].
  exists r. split; [reflexivity|]. split.
  - destruct (density_formula _ _ _ Hr) as [occ [Hocc [Hcount _]]].
    exists occ. split; assumption.
  - vm_compute in Hr. injection Hr as <-. vm_compute. repeat split.
Defined.

(** C6.  A pair of keywords is reported as potentially competing exactly
    when it is a pair at positions i < j of the list whose similarity is
    greater than 0.3, the comparison being strict: "solar energy" and
    "solar power", of similarity 1/3, are reported; two keywords that
    share 3 of their 10 words, of similarity 0.3 exactly, are not.  The
    warning is logged exactly when some pair is reported. *)
Theorem competing_iff_above_threshold :
  (forall (keywords : list jsstring) (a b : jsstring) (x : Number.number),
      In (a, b, x) (similarities_of keywords)
      <-> exists i j, i < j /\ nth_error keywords i = Some a
                      /\ nth_error keywords j = Some b
                      /\ x = calculateSimilarity a b
                      /\ Number.gt x (Number.dec 3 1) = true)
  /\ (forall keywords,
         In (Warn, [Txt "Potentially competing keywords found:"])
            (analyzeKeywordRelationships keywords)
         <-> similarities_of keywords <> [])
  /\ calculateSimilarity (js "solar energy") (js "solar power")
     = Number.div (Number.of_nat 1) (Number.of_nat 3)
  /\ similarities_of [js "solar energy"; js "solar power"]
     = [(js "solar energy", js "solar power",
         Number.div (Number.of_nat 1) (Number.of_nat 3))]
  /\ calculateSimilarity (js "a b c d e f g") (js "a b c h i j") = Number.dec 3 1
  /\ Number.gt (Number.dec 3 1) (Number.dec 3 1) = false
  /\ similarities_of [js "a b c d e f g"; js "a b c h i j"] = [].
Proof.
  split; [exact similarities_of_In|].
  split; [exact relationships_warns|].
  repeat split; vm_compute; reflexivity.
Qed.


(** C8 (the code departs from the claim when a keyword is not a valid
    pattern).  On the input "c++, cat" the first keyword makes
    [analyzeKeyword] throw: the run ends there, after two log entries,
    and "cat" is never analyzed, on any page. *)
Theorem analyzeKeywordUsage_stops_at_invalid_keyword :
  forall document : Document,
    splitKeywords (js "c++, cat") = [js "c++"; js "cat"]
    /\ analyzeKeywordUsage document (js "c++, cat")
       = ([(Info, [nl; Txt "Analyzing "; Int 2; Txt " keywords:"]);
           (Info, [nl; Int 1; Txt ". Analyzing keyword: "; dq; Str (js "c++"); dq])],
          Throws)
    /\ announced (fst (analyzeKeywordUsage document (js "c++, cat"))) = [js "c++"].
Proof.
  intros document.
  assert (H : analyzeKeywordUsage document (js "c++, cat")
            = ([(Info, [nl; Txt "Analyzing "; Int 2; Txt " keywords:"]);
                (Info, [nl; Int 1; Txt ". Analyzing keyword: "; dq; Str (js "c++"); dq])],
               Throws)).
  { unfold analyzeKeywordUsage.
    change (length (trim (js "c++, cat")) =? 0) with false.
    change (splitKeywords (js "c++, cat")) with [js "c++"; js "cat"].
    cbn [analyzeEach].
    rewrite (analyzeKeyword_throws document (js "c++")) by reflexivity.
    reflexivity. }
  split; [reflexivity|]. split; [exact H|]. rewrite H. reflexivity.
Qed.

(** C9.  For a keyword whose normalized form contains a space, and for every
    page, [analyzeKeyword] returns, and its [inUrl] flag is false: the
    normalized path has no hyphen, while the keyword with its spaces
    replaced has one. *)
Theorem multiword_keyword_never_in_url (document : Document) (keyword : jsstring) :
  In " "%char (normalizeText keyword) ->
  exists r, analyzeKeyword document keyword = Returns r /\ inUrl r = false.
Proof.
  intros Hsp. rewrite (analyzeKeyword_returns _ _ (analyzable_multiword _ Hsp)).
  eexists. split; [reflexivity|]. cbn [inUrl].
  destruct (includes _ _) eqn:Hinc; [|reflexivity]. exfalso.
  apply (normalizeText_no_hyphen (orEmpty (pathname document))).
  apply (includes_In _ _ _ Hinc). rewrite replace_g_spaces.
  apply (squeeze_In_sep _ _ " "%char); [exact Hsp | reflexivity | now left].
Qed.

Lemma multiword_keyword_never_in_url_witness :
  exists r, analyzeKeyword solarEnergyPage (js "solar energy") = Returns r
            /\ inUrl r = false.
Proof.
  apply (multiword_keyword_never_in_url solarEnergyPage (js "solar energy")).
  vm_compute. do 5 right. left. reflexivity.
Defined.

(** C10.  [findKeywordOccurrences] does not return on every input: the
    plus sign is not among the characters [normalizeText] removes, the
    keyword "c++" is its own normalized form, a single word, and the
    pattern built from it is rejected, so that the finder throws on every
    text. *)
Theorem findKeywordOccurrences_not_total :
  isPunctuation "+"%char = false
  /\ normalizeText (js "c++") = js "c++"
  /\ length (split_str (js " ") (normalizeText (js "c++"))) = 1
  /\ compile (js "\b" ++ normalizeText (js "c++") ++ js "\b") = SyntaxError
  /\ forall text, findKeywordOccurrences text (js "c++") = Throws.
Proof.
  split; [reflexivity|].
  split; [vm_compute; reflexivity|].
  split; [vm_compute; reflexivity|].
  split; [vm_compute; reflexivity|].
  intros text. apply findKeywordOccurrences_throws. vm_compute. reflexivity.
Qed.

(* ===================================================================== *)
(** * Part XIII. More on strings                                         *)
(* ===================================================================== *)

(** ** [split] and [join] on a one-character separator *)

Lemma split_go_single_inhabited (c : ascii) (s cur : jsstring) :
  split_go [c] 0 cur s <> [].
Proof.
  revert cur. induction s as [|x s IH]; intros cur; simpl; [discriminate|].
  destruct (ascii_dec c x); [discriminate|apply IH].
Qed.

Lemma split_go_single_join (c : ascii) (s cur : jsstring) :
  join [c] (split_go [c] 0 cur s) = rev cur ++ s.
Proof.
  revert cur. induction s as [|x s IH]; intros cur; simpl.
  - now rewrite app_nil_r.
  - destruct (ascii_dec c x) as [->|Hx].
    + pose proof (split_go_single_inhabited x s []) as Hne.
      specialize (IH []). simpl in IH.
      destruct (split_go [x] 0 [] s) as [|a l]; [contradiction|].
      cbn [join] in *. rewrite IH. reflexivity.
    + rewrite IH. simpl. now rewrite <- app_assoc.
Qed.

Lemma split_single_join (c : ascii) (s : jsstring) :
  join [c] (split_str [c] s) = s.
Proof. unfold split_str. apply split_go_single_join. Qed.

Lemma split_go_single_free (c : ascii) (s cur : jsstring) :
  ~ In c cur -> Forall (fun p => ~ In c p) (split_go [c] 0 cur s).
Proof.
  revert cur. induction s as [|x s IH]; intros cur Hcur; simpl.
  - constructor; [|constructor]. now rewrite <- in_rev.
  - destruct (ascii_dec c x) as [->|Hx].
    + constructor; [now rewrite <- in_rev|]. apply IH. intros [].
    + apply IH. intros [H|H]; [now apply Hx|now apply Hcur].
Qed.

Lemma split_single_free (c : ascii) (s : jsstring) :
  Forall (fun p => ~ In c p) (split_str [c] s).
Proof. unfold split_str. apply split_go_single_free. intros []. Qed.

Lemma split_go_single_none (c : ascii) (s cur : jsstring) :
  ~ In c s -> split_go [c] 0 cur s = [rev cur ++ s].
Proof.
  revert cur. induction s as [|x s IH]; intros cur Hs; simpl.
  - now rewrite app_nil_r.
  - destruct (ascii_dec c x) as [->|Hx]; [exfalso; apply Hs; now left|].
    rewrite IH by (intros H; apply Hs; now right).
    simpl. now rewrite <- app_assoc.
Qed.

Lemma split_single_none (c : ascii) (s : jsstring) :
  ~ In c s -> split_str [c] s = [s].
Proof. intros H. unfold split_str. now rewrite split_go_single_none. Qed.

(** The first piece is the text before the first separator. *)
Lemma split_go_single_first (c : ascii) (s cur : jsstring) :
  nth 0 (split_go [c] 0 cur s) []
  = rev cur ++ takeWhile (fun x => negb (Ascii.eqb c x)) s.
Proof.
  revert cur. induction s as [|x s IH]; intros cur; simpl.
  - now rewrite app_nil_r.
  - destruct (ascii_dec c x) as [->|Hx].
    + rewrite Ascii.eqb_refl. simpl. now rewrite app_nil_r.
    + destruct (Ascii.eqb_spec c x) as [E|_]; [contradiction|].
      simpl. rewrite IH. simpl. now rewrite <- app_assoc.
Qed.

Lemma includes_single (s : jsstring) (c : ascii) :
  includes s [c] = true <-> In c s.
Proof.
  induction s as [|x s IH]; simpl.
  - split; [discriminate|intros []].
  - destruct (ascii_dec c x) as [->|Hx].
    + split; [now left|reflexivity].
    + rewrite IH. split; [now right|]. intros [H|H]; [congruence|exact H].
Qed.

Lemma includes_single_false (s : jsstring) (c : ascii) :
  includes s [c] = false <-> ~ In c s.
Proof.
  rewrite <- includes_single. destruct (includes s [c]); split; congruence.
Qed.

(** ** [trim] keeps what is not white space *)

Lemma trimStart_keeps (s : jsstring) (c : ascii) :
  In c s -> isWhiteSpace c = false -> In c (trimStart s).
Proof.
  induction s as [|x s IH]; simpl; [trivial|]. intros [->|H] Hc.
  - rewrite Hc. now left.
  - destruct (isWhiteSpace x); [now apply IH|now right].
Qed.

Lemma trim_keeps (s : jsstring) (c : ascii) :
  In c s -> isWhiteSpace c = false -> In c (trim s).
Proof.
  intros H Hc. unfold trim, trimEnd. rewrite <- in_rev.
  apply trimStart_keeps; [|exact Hc]. rewrite <- in_rev.
  now apply trimStart_keeps.
Qed.

Lemma trimStart_blank (s : jsstring) :
  trimStart s = [] <-> forallb isWhiteSpace s = true.
Proof.
  induction s as [|x s IH]; simpl; [tauto|].
  destruct (isWhiteSpace x); simpl; [exact IH|]. split; discriminate.
Qed.

Lemma trim_blank (s : jsstring) :
  trim s = [] <-> forallb isWhiteSpace s = true.
Proof.
  split.
  - intros H. destruct (forallb isWhiteSpace s) eqn:E; [reflexivity|].
    exfalso. assert (exists c, In c s /\ isWhiteSpace c = false) as [c [Hc Hw]].
    { clear H. induction s as [|x s IH]; simpl in E; [discriminate|].
      destruct (isWhiteSpace x) eqn:Ex.
      - destruct (IH E) as [c [Hc Hw]]. exists c. split; [now right|exact Hw].
      - exists x. split; [now left|exact Ex]. }
    pose proof (trim_keeps s c Hc Hw) as K. rewrite H in K. destruct K.
  - intros H. unfold trim, trimEnd.
    apply (proj2 (trimStart_blank s)) in H. rewrite H. reflexivity.
Qed.

Lemma trim_filter (p : ascii -> bool) (s : jsstring) :
  (forall c, isWhiteSpace c = true -> p c = false) ->
  filter p (trim s) = filter p s.
Proof.
  intros Hp.
  assert (St : forall t, filter p (trimStart t) = filter p t).
  { induction t as [|x t IH]; simpl; [reflexivity|].
    destruct (isWhiteSpace x) eqn:Ex; [|reflexivity].
    rewrite (Hp x Ex). exact IH. }
  assert (Rv : forall t, filter p (rev t) = rev (filter p t)).
  { induction t as [|x t IH]; simpl; [reflexivity|].
    rewrite filter_app, IH. simpl. destruct (p x); simpl; [reflexivity|].
    now rewrite app_nil_r. }
  unfold trim, trimEnd. rewrite Rv, St, Rv, rev_involutive. apply St.
Qed.

Lemma trim_length (s : jsstring) : length (trim s) <= length s.
Proof.
  destruct (trim_sub s) as [u [w H]]. rewrite H at 2.
  rewrite !length_app. lia.
Qed.

(** ** [toLowerCase] *)


Lemma toLowerCase_length (s : jsstring) : length (toLowerCase s) = length s.
Proof. apply length_map. Qed.

Lemma toLowerChar_white (c : ascii) : isWhiteSpace (toLowerChar c) = isWhiteSpace c.
Proof. each_ascii c. Qed.

(** ** Indexed elements *)

Lemma entries_length {A : Type} (l : list A) : length (entries l) = length l.
Proof. unfold entries. rewrite length_combine, length_seq. lia. Qed.

Lemma combine_seq_In {A : Type} (l : list A) (k i : nat) (x : A) :
  In (i, x) (combine (seq k (length l)) l) <-> (k <= i /\ nth_error l (i - k) = Some x).
Proof.
  revert k. induction l as [|a l IH]; intros k; simpl.
  - split; [intros []|]. intros [_ H]. destruct (i - k); discriminate.
  - rewrite IH. split.
    + intros [H|[H1 H2]].
      * inversion H; subst. rewrite Nat.sub_diag. split; [lia|reflexivity].
      * split; [lia|]. replace (i - k) with (S (i - S k)) by lia. exact H2.
    + intros [H1 H2]. destruct (i - k) as [|n] eqn:E.
      * left. simpl in H2. inversion H2. f_equal. lia.
      * right. split; [lia|]. simpl in H2. replace (i - S k) with n by lia. exact H2.
Qed.

Lemma entries_In {A : Type} (l : list A) (i : nat) (x : A) :
  In (i, x) (entries l) <-> nth_error l i = Some x.
Proof.
  unfold entries. rewrite combine_seq_In, Nat.sub_0_r. split; [tauto|].
  intros H. split; [lia|exact H].
Qed.

(* ===================================================================== *)
(** * Part XIV. The title and the meta description                       *)
(* ===================================================================== *)

Import TitleAnalyzer SeoAnalyzer.

(** The search through [TITLE_SEPARATORS], on the three separators that a
    title of the model can include. *)
Lemma analyzeTitleFormat_eq (title : jsstring) :
  analyzeTitleFormat title
  = if includes title (js "|") then
      mkTitleAnalysis true (map trim (split_str (js "|") title)) (Some (js "|"))
    else if includes title (js "-") then
      mkTitleAnalysis true (map trim (split_str (js "-") title)) (Some (js "-"))
    else if includes title (js ":") then
      mkTitleAnalysis true (map trim (split_str (js ":") title)) (Some (js ":"))
    else mkTitleAnalysis false [title] None.
Proof.
  unfold analyzeTitleFormat, TITLE_SEPARATORS. cbn [find]. unfold includesUnits.
  change (fromCodeUnits [124%N]) with (Some (js "|")).
  change (fromCodeUnits [45%N]) with (Some (js "-")).
  change (fromCodeUnits [8211%N]) with (@None jsstring).
  change (fromCodeUnits [8212%N]) with (@None jsstring).
  change (fromCodeUnits [58%N]) with (Some (js ":")).
  cbv beta iota.
  destruct (includes title (js "|")); [reflexivity|].
  destruct (includes title (js "-")); [reflexivity|].
  destruct (includes title (js ":")); reflexivity.
Qed.

Lemma separator_found (title sep : jsstring) :
  separator (analyzeTitleFormat title) = Some sep ->
  In sep [js "|"; js "-"; js ":"]
  /\ includes title sep = true
  /\ analyzeTitleFormat title
     = mkTitleAnalysis true (map trim (split_str sep title)) (Some sep).
Proof.
  rewrite analyzeTitleFormat_eq.
  destruct (includes title (js "|")) eqn:E1;
    [|destruct (includes title (js "-")) eqn:E2;
      [|destruct (includes title (js ":")) eqn:E3]];
    cbn [separator]; intros H; inversion H; subst; simpl; auto 6.
Qed.

(** X4.  [analyzeTitleFormat] chooses the separator by the order of
    [TITLE_SEPARATORS], not by the position in the title: the vertical bar
    if the title has one, else the hyphen, else the colon (the en dash and
    the em dash cannot occur in a title of the model); a title with none of
    them is reported as a single segment, the title itself, without a
    separator. *)
Theorem analyzeTitleFormat_separator (title : jsstring) :
  (In "|"%char title ->
     separator (analyzeTitleFormat title) = Some (js "|"))
  /\ (~ In "|"%char title -> In "-"%char title ->
        separator (analyzeTitleFormat title) = Some (js "-"))
  /\ (~ In "|"%char title -> ~ In "-"%char title -> In ":"%char title ->
        separator (analyzeTitleFormat title) = Some (js ":"))
  /\ (~ In "|"%char title -> ~ In "-"%char title -> ~ In ":"%char title ->
        analyzeTitleFormat title = mkTitleAnalysis false [title] None)
  /\ hasSeparator (analyzeTitleFormat title)
     = match separator (analyzeTitleFormat title) with
       | Some _ => true
       | None => false
       end.
Proof.
  rewrite analyzeTitleFormat_eq.
  change (js "|") with ["|"%char]. change (js "-") with ["-"%char].
  change (js ":") with [":"%char].
  destruct (includes title ["|"%char]) eqn:E1;
    [apply includes_single in E1 | apply includes_single_false in E1];
    (destruct (includes title ["-"%char]) eqn:E2;
     [apply includes_single in E2 | apply includes_single_false in E2]);
    (destruct (includes title [":"%char]) eqn:E3;
     [apply includes_single in E3 | apply includes_single_false in E3]);
    cbn [separator hasSeparator]; repeat split; intros; try reflexivity;
    contradiction.
Qed.

(** X5.  When [analyzeTitleFormat] reports the separator [c], the title
    contains [c], and the segments are the pieces of the title between the
    occurrences of [c], each trimmed: the pieces hold no [c], joined by [c]
    they give the title back, there is one more of them than occurrences
    of [c], and every segment is free of [c] and of surrounding white
    space. *)
Theorem analyzeTitleFormat_segments (title : jsstring) (c : ascii) :
  separator (analyzeTitleFormat title) = Some [c] ->
  In c title
  /\ hasSeparator (analyzeTitleFormat title) = true
  /\ (exists pieces,
         join [c] pieces = title
         /\ Forall (fun piece => ~ In c piece) pieces
         /\ segments (analyzeTitleFormat title) = map trim pieces)
  /\ length (segments (analyzeTitleFormat title)) = S (count_occ ascii_dec title c)
  /\ Forall (fun segment => trim segment = segment /\ ~ In c segment)
            (segments (analyzeTitleFormat title)).
Proof.
  intros H. apply separator_found in H. destruct H as [_ [Hin Heq]].
  rewrite Heq. cbn [segments hasSeparator].
  split; [now apply includes_single|].
  split; [reflexivity|].
  split; [|split].
  - exists (split_str [c] title).
    split; [apply split_single_join|].
    split; [apply split_single_free|reflexivity].
  - rewrite length_map. apply split_single_length.
  - apply Forall_forall. intros seg Hseg. apply in_map_iff in Hseg.
    destruct Hseg as [piece [<- Hp]]. split; [apply trim_idem|].
    pose proof (split_single_free c title) as F. rewrite Forall_forall in F.
    intros Hc. apply (F piece Hp). now apply trim_In.
Qed.

Lemma analyzeTitleFormat_segments_witness :
  separator (analyzeTitleFormat (js "Guide - Tips | My Brand")) = Some ["|"%char]
  /\ segments (analyzeTitleFormat (js "Guide - Tips | My Brand"))
     = [js "Guide - Tips"; js "My Brand"]
  /\ length (segments (analyzeTitleFormat (js "Guide - Tips | My Brand")))
     = S (count_occ ascii_dec (js "Guide - Tips | My Brand") "|"%char).
Proof.
  split; [reflexivity|]. split; [reflexivity|].
  apply (analyzeTitleFormat_segments (js "Guide - Tips | My Brand") "|"%char).
  reflexivity.
Defined.

(** The levels of the entries of a log. *)
Ltac levels :=
  repeat first
    [ apply Forall_nil
    | apply Forall_app; split
    | apply Forall_cons;
      [ try (simpl; congruence);
        repeat match goal with
               | |- context [if ?b then _ else _] => destruct b
               end;
        simpl; congruence
      | ]
    | match goal with
      | |- Forall _ (if ?b then _ else _) => destruct b
      | |- Forall _ (let x := _ in _) => cbv zeta
      | |- Forall _ (map _ _) =>
          let x := fresh "x" in
          let H := fresh "H" in
          apply Forall_forall; intros x H; apply in_map_iff in H;
          destruct H as [? [<- _]]; try (simpl; congruence)
      end ].

Lemma title_format_levels (title : jsstring) (lv : level) :
  lv = Success \/ lv = Error ->
  forall l, analyzeTitle title = l ->
  length title <> 0 ->
  Forall (fun e => fst e <> lv) (skipn 1 l).
Proof.
  intros Hlv l <- Hne. unfold analyzeTitle.
  destruct (length title =? 0) eqn:E; [apply Nat.eqb_eq in E; contradiction|].
  cbn [app skipn].
  destruct Hlv as [-> | ->]; levels.
Qed.

(** X6.  [analyzeTitle] and [analyzeMetaDescription] log an entry of the
    level success exactly when the length is within the recommended range,
    bounds included (50 to 60 code units for the title, 120 to 155 for the
    meta description), and an entry of the level error exactly when the
    string is empty. *)
Theorem length_verdicts :
  (forall title,
      ((exists m, In (Success, m) (analyzeTitle title))
       <-> 50 <= length title <= 60)
      /\ ((exists m, In (Error, m) (analyzeTitle title)) <-> title = []))
  /\ (forall metaDescription,
         ((exists m, In (Success, m) (analyzeMetaDescription metaDescription))
          <-> 120 <= length metaDescription <= 155)
         /\ ((exists m, In (Error, m) (analyzeMetaDescription metaDescription))
             <-> metaDescription = [])).
Proof.
  split.
  - intros title.
    assert (Rest : forall lv, lv = Success \/ lv = Error -> length title <> 0 ->
              forall m, In (lv, m) (skipn 1 (analyzeTitle title)) -> False).
    { intros lv Hlv Hne m Hin.
      pose proof (title_format_levels title lv Hlv _ eq_refl Hne) as F.
      rewrite Forall_forall in F. apply (F _ Hin). reflexivity. }
    destruct title as [|c title'] eqn:Et.
    + split; split.
      * intros [m [H|[]]]. discriminate.
      * simpl. lia.
      * reflexivity.
      * intros _. eexists. left. reflexivity.
    + rewrite <- Et in *. assert (Hne : length title <> 0) by (subst; discriminate).
      assert (Hd : analyzeTitle title
                   = hd (Info, []) (analyzeTitle title) :: skipn 1 (analyzeTitle title)).
      { unfold analyzeTitle. destruct (length title =? 0); reflexivity. }
      assert (Hh : hd (Info, []) (analyzeTitle title)
                   = if length title <? 50 then
                       (Warn, [Txt "Title length ("; Int (length title);
                               Txt " chars) is too short. Recommended: ";
                               Int 50; Txt "-"; Int 60; Txt " characters"])
                     else if 60 <? length title then
                       (Warn, [Txt "Title length ("; Int (length title);
                               Txt " chars) is too long. Recommended: ";
                               Int 50; Txt "-"; Int 60; Txt " characters"])
                     else (Success, [Txt "Title length ("; Int (length title);
                                     Txt " chars) is optimal"])).
      { unfold analyzeTitle. destruct (length title =? 0) eqn:E;
          [apply Nat.eqb_eq in E; contradiction|reflexivity]. }
      rewrite Hd, Hh. split; split.
      * intros [m [H|H]]; [|exfalso; eapply (Rest Success); eauto].
        destruct (Nat.ltb_spec (length title) 50); [discriminate|].
        destruct (Nat.ltb_spec 60 (length title)); [discriminate|lia].
      * intros [H1 H2]. eexists. left.
        destruct (Nat.ltb_spec (length title) 50); [lia|].
        destruct (Nat.ltb_spec 60 (length title)); [lia|reflexivity].
      * intros [m [H|H]]; [|exfalso; eapply (Rest Error); eauto].
        destruct (length title <? 50); [discriminate|].
        destruct (60 <? length title); discriminate.
      * intros H. rewrite H in Et. discriminate.
  - intros d. unfold analyzeMetaDescription.
    change SEO_RULES.META_DESCRIPTION_LENGTH.MIN with 120.
    change SEO_RULES.META_DESCRIPTION_LENGTH.MAX with 155.
    destruct d as [|c d'] eqn:Ed.
    + split; split.
      * intros [m [H|[]]]. discriminate.
      * simpl. lia.
      * reflexivity.
      * intros _. eexists. left. reflexivity.
    + rewrite <- Ed. assert (Hne : length d <> 0) by (subst; discriminate).
      destruct (length d =? 0) eqn:E; [apply Nat.eqb_eq in E; contradiction|].
      split; split.
      * intros [m [H|[H|[]]]]; [|discriminate].
        destruct (Nat.ltb_spec (length d) 120); [discriminate|].
        destruct (Nat.ltb_spec 155 (length d)); [discriminate|lia].
      * intros [H1 H2]. eexists. left.
        destruct (Nat.ltb_spec (length d) 120); [lia|].
        destruct (Nat.ltb_spec 155 (length d)); [lia|reflexivity].
      * intros [m [H|[H|[]]]]; [|discriminate].
        destruct (length d <? 120); [discriminate|].
        destruct (155 <? length d); discriminate.
      * intros H. rewrite H in Ed. discriminate.
Qed.

(* ===================================================================== *)
(** * Part XV. The headings                                              *)
(* ===================================================================== *)

Lemma cleanHeadingText_eq (text : jsstring) :
  cleanHeadingText text = trim (squeeze [" "%char] false text).
Proof. unfold cleanHeadingText. now rewrite replace_g_spaces. Qed.

Lemma squeeze_filter (b : bool) (s : jsstring) :
  filter (fun c => negb (isWhiteSpace c)) (squeeze [" "%char] b s)
  = filter (fun c => negb (isWhiteSpace c)) s.
Proof.
  revert b. induction s as [|c s IH]; intros b; simpl; [reflexivity|].
  destruct (isWhiteSpace c) eqn:E; simpl.
  - destruct b; simpl; apply IH.
  - rewrite E. simpl. f_equal. apply IH.
Qed.

Lemma squeeze_length (b : bool) (s : jsstring) :
  length (squeeze [" "%char] b s) <= length s.
Proof.
  revert b. induction s as [|c s IH]; intros b; simpl; [lia|].
  destruct (isWhiteSpace c); [destruct b|]; simpl;
    [specialize (IH true)|specialize (IH true)|specialize (IH false)]; lia.
Qed.

Lemma blank_filter (s : jsstring) :
  forallb isWhiteSpace s = true <-> filter (fun c => negb (isWhiteSpace c)) s = [].
Proof.
  induction s as [|c s IH]; simpl; [tauto|].
  destruct (isWhiteSpace c); simpl; [exact IH|]. split; discriminate.
Qed.

Lemma cleanHeadingText_filter (text : jsstring) :
  filter (fun c => negb (isWhiteSpace c)) (cleanHeadingText text)
  = filter (fun c => negb (isWhiteSpace c)) text.
Proof.
  rewrite cleanHeadingText_eq, trim_filter, squeeze_filter; [reflexivity|].
  intros c Hc. now rewrite Hc.
Qed.

Lemma cleanHeadingText_blank (text : jsstring) :
  cleanHeadingText text = [] <-> trim text = [].
Proof.
  rewrite trim_blank, blank_filter, <- cleanHeadingText_filter, <- blank_filter,
    <- trim_blank.
  rewrite cleanHeadingText_eq, trim_idem. tauto.
Qed.

(** X7.  [cleanHeadingText] leaves no white space but single spaces
    between the words: its result holds no white space at either end and
    no white space other than single SPACE characters, it keeps the other
    code units in their order, it is idempotent and never longer than the
    heading, and it is empty exactly when the heading is blank, that is,
    when [trim] gives the empty string. *)
Theorem cleanHeadingText_spec (text : jsstring) :
  squeezed false (cleanHeadingText text) = true
  /\ trim (cleanHeadingText text) = cleanHeadingText text
  /\ filter (fun c => negb (isWhiteSpace c)) (cleanHeadingText text)
     = filter (fun c => negb (isWhiteSpace c)) text
  /\ cleanHeadingText (cleanHeadingText text) = cleanHeadingText text
  /\ length (cleanHeadingText text) <= length text
  /\ (cleanHeadingText text = [] <-> trim text = []).
Proof.
  assert (Hs : squeezed false (cleanHeadingText text) = true).
  { rewrite cleanHeadingText_eq. apply squeezed_trim, squeeze_squeezed. }
  assert (Ht : trim (cleanHeadingText text) = cleanHeadingText text).
  { rewrite cleanHeadingText_eq. apply trim_idem. }
  split; [exact Hs|]. split; [exact Ht|].
  split; [apply cleanHeadingText_filter|].
  split; [|split; [|apply cleanHeadingText_blank]].
  - rewrite (cleanHeadingText_eq (cleanHeadingText text)).
    rewrite (squeezed_fixed false _ Hs). exact Ht.
  - rewrite cleanHeadingText_eq.
    pose proof (trim_length (squeeze [" "%char] false text)).
    pose proof (squeeze_length false text). lia.
Qed.

Lemma filter_all_length {A : Type} (p : A -> bool) (l : list A) :
  length (filter p l) = length l <-> forall x, In x l -> p x = true.
Proof.
  induction l as [|a l IH]; simpl; [tauto|].
  pose proof (filter_length_le p l) as Hle.
  destruct (p a) eqn:E; simpl.
  - split.
    + intros H x [<-|Hx]; [exact E|]. apply IH; [lia|exact Hx].
    + intros H. f_equal. apply IH. intros x Hx. apply H. now right.
  - split; [lia|]. intros H. specialize (H a (or_introl eq_refl)). congruence.
Qed.

Lemma nonblank_length (t : jsstring) :
  (0 <? length (trim t)) = true <-> trim t <> [].
Proof.
  rewrite Nat.ltb_lt. destruct (trim t); simpl; split; try lia; try congruence.
Qed.

Lemma blank_length (t : jsstring) :
  (0 <? length (trim t)) = false <-> trim t = [].
Proof.
  rewrite Nat.ltb_ge. destruct (trim t); simpl; split; try lia; try congruence.
Qed.

Lemma filter_some_length {A : Type} (p : A -> bool) (l : list A) :
  length (filter p l) <> length l <-> exists x, In x l /\ p x = false.
Proof.
  induction l as [|a l IH]; simpl.
  - split; [congruence|]. intros [x [[] _]].
  - pose proof (filter_length_le p l) as Hle.
    destruct (p a) eqn:E; simpl.
    + split.
      * intros H. destruct (proj1 IH) as [x [Hx Hp]]; [lia|].
        exists x. split; [now right|exact Hp].
      * intros [x [[<-|Hx] Hp]]; [congruence|].
        assert (length (filter p l) <> length l) by (apply IH; eauto). lia.
    + split; [|lia]. intros _. exists a. split; [now left|exact E].
Qed.

(** X8.  The H1 report of the heading analyzer is never empty.  It has an
    entry of the level success exactly when the page has one H1 element and
    that element is not blank; an entry of the level error exactly when
    the page has no H1 element or has a blank one; and an entry of the
    level warn exactly when the page has two or more H1 elements. *)
Theorem analyzeHeadings_verdict (document : Document) :
  HeadingAnalyzer.analyzeHeadings document <> []
  /\ ((exists m, In (Success, m) (HeadingAnalyzer.analyzeHeadings document))
      <-> exists t, h1s document = [t] /\ trim t <> [])
  /\ ((exists m, In (Error, m) (HeadingAnalyzer.analyzeHeadings document))
      <-> h1s document = [] \/ exists t, In t (h1s document) /\ trim t = [])
  /\ ((exists m, In (Warn, m) (HeadingAnalyzer.analyzeHeadings document))
      <-> 2 <= length (h1s document)).
Proof.
  unfold HeadingAnalyzer.analyzeHeadings.
  destruct (h1s document) as [|t [|t' rest]] eqn:Eh.
  - cbn. split; [discriminate|]. split; [|split]; split.
    + intros [m [H|[]]]. discriminate.
    + intros [t [H _]]. discriminate.
    + intros _. now left.
    + intros _. eexists. left. reflexivity.
    + intros [m [H|[]]]. discriminate.
    + lia.
  - cbn [length filter].
    destruct (0 <? length (trim t)) eqn:E;
      cbn [length]; change (1 <? 1) with false;
      cbn [Nat.eqb andb negb app nth Nat.sub].
    + apply nonblank_length in E. split; [discriminate|].
      split; [|split]; split.
      * intros _. exists t. split; [reflexivity|exact E].
      * intros _. eexists. left. reflexivity.
      * intros [m [H|[H|[]]]]; discriminate.
      * intros [H|[x [[<-|[]] Hx]]]; [discriminate|contradiction].
      * intros [m [H|[H|[]]]]; discriminate.
      * lia.
    + apply blank_length in E. split; [discriminate|].
      split; [|split]; split.
      * intros [m [H|[]]]. discriminate.
      * intros [x [Hx Hn]]. inversion Hx; subst. contradiction.
      * intros _. right. exists t. split; [now left|exact E].
      * intros _. eexists. left. reflexivity.
      * intros [m [H|[]]]. discriminate.
      * lia.
  - set (l := t :: t' :: rest).
    set (ne := filter (fun h1 => 0 <? length (trim h1)) l).
    set (n := length l).
    assert (Hn : 2 <= n) by (unfold n; simpl; lia).
    replace (n =? 0) with false by (symmetry; apply Nat.eqb_neq; lia).
    replace (1 <? n) with true by (symmetry; apply Nat.ltb_lt; lia).
    replace (n =? 1) with false by (symmetry; apply Nat.eqb_neq; lia).
    cbn [andb app].
    assert (Hinfo : forall lv m, lv <> Info ->
              ~ In (lv, m)
                  (map (fun ih => (Info, [Txt "   H1 #"; Int (fst ih + 1); Txt ": "; dq;
                                          Str (cleanHeadingText (snd ih)); dq]))
                       (entries ne))).
    { intros lv m Hlv H. apply in_map_iff in H. destruct H as [x [Hx _]].
      inversion Hx. congruence. }
    assert (Hblank : n <> length ne <-> exists x, In x l /\ trim x = []).
    { unfold n, ne. split.
      - intros H. apply not_eq_sym in H. apply filter_some_length in H.
        destruct H as [x [Hx Hp]]. exists x. split; [exact Hx|].
        now apply blank_length.
      - intros [x [Hx Hp]]. apply not_eq_sym. apply filter_some_length.
        exists x. split; [exact Hx|]. now apply blank_length. }
    split; [discriminate|]. split; [|split]; split.
    + intros [m [H|H]]; [discriminate|]. apply in_app_or in H.
      destruct H as [H|H]; [exfalso; eapply Hinfo; [|exact H]; discriminate|].
      destruct (negb (n =? length ne)); [destruct H as [H|[]]; discriminate|destruct H].
    + intros [x [Hx _]]. discriminate.
    + intros [m [H|H]]; [discriminate|]. apply in_app_or in H.
      destruct H as [H|H]; [exfalso; eapply Hinfo; [|exact H]; discriminate|].
      right. apply Hblank.
      destruct (Nat.eqb_spec n (length ne)) as [En|En]; [destruct H|exact En].
    + intros [H|H]; [discriminate|]. apply Hblank in H.
      eexists. right. apply in_or_app. right.
      destruct (Nat.eqb_spec n (length ne)) as [En|En]; [contradiction|].
      left. reflexivity.
    + intros _. lia.
    + intros _. eexists. left. reflexivity.
Qed.

(** The entries of a one-element list. *)
Lemma entries_one {A : Type} (x : A) : entries [x] = [(0, x)].
Proof. reflexivity. Qed.

Lemma flat_map_nil {A B : Type} (f : A -> list B) (l : list A) :
  (forall x, In x l -> f x = []) -> flat_map f l = [].
Proof.
  induction l as [|a l IH]; intros H; simpl; [reflexivity|].
  rewrite (H a (or_introl eq_refl)), IH; [reflexivity|].
  intros x Hx. apply H. now right.
Qed.

(** X9.  The heading analyzer that checks the lengths has no complaint
    (every entry of its log is of the level success or info) exactly when
    the page has one H1 element whose cleaned text has 20 to 70 code units
    and no H2 element whose cleaned text has more than 60. *)
Theorem analyzeHeadings_no_complaint (document : Document) :
  (forall e, In e (HeadingLengthAnalyzer.analyzeHeadings document) ->
             fst e = Success \/ fst e = Info)
  <-> ((exists t, h1s document = [t] /\ 20 <= length (cleanHeadingText t) <= 70)
       /\ Forall (fun h2 => length (cleanHeadingText h2) <= 60) (h2s document)).
Proof.
  unfold HeadingLengthAnalyzer.analyzeHeadings.
  set (h2log := flat_map _ (entries (h2s document))).
  assert (H2 : (forall e, In e h2log -> fst e = Success \/ fst e = Info)
               <-> Forall (fun h2 => length (cleanHeadingText h2) <= 60) (h2s document)).
  { unfold h2log. split.
    - intros H. apply Forall_forall. intros h2 Hh2.
      apply In_nth_error in Hh2. destruct Hh2 as [i Hi]. apply entries_In in Hi.
      destruct (Nat.ltb_spec 60 (length (cleanHeadingText h2))) as [L|L]; [|exact L].
      exfalso.
      assert (K : In (Warn, [Txt "H2 #"; Int (i + 1); Txt " is too long (";
                             Int (length (cleanHeadingText h2)); Txt " chars): "; dq;
                             Str (cleanHeadingText h2); dq])
                     (flat_map
                        (fun ih : nat * jsstring =>
                           let text := cleanHeadingText (snd ih) in
                           if 60 <? length text then
                             [(Warn, [Txt "H2 #"; Int (fst ih + 1); Txt " is too long (";
                                      Int (length text); Txt " chars): "; dq; Str text; dq])]
                           else [])
                        (entries (h2s document)))).
      { apply in_flat_map. exists (i, h2). split; [exact Hi|]. cbn [fst snd].
        cbv zeta. apply Nat.ltb_lt in L. rewrite L. now left. }
      destruct (H _ K); discriminate.
    - intros F e He. apply in_flat_map in He. destruct He as [[i h2] [Hi He]].
      apply entries_In, nth_error_In in Hi. rewrite Forall_forall in F.
      specialize (F h2 Hi). cbn [fst snd] in He. cbv zeta in He.
      destruct (Nat.ltb_spec 60 (length (cleanHeadingText h2))); [lia|destruct He]. }
  destruct (h1s document) as [|t [|t' rest]] eqn:Eh.
  - cbn. split.
    + intros H. destruct (H _ (or_introl eq_refl)); discriminate.
    + intros [[t [K _]] _]. discriminate.
  - cbn [length filter].
    destruct (0 <? length (trim t)) eqn:E;
      cbn [length]; change (1 <? 1) with false;
      cbn [Nat.eqb andb negb app nth Nat.sub].
    + rewrite entries_one. cbn [flat_map map fst snd length Nat.eqb andb negb app nth].
      cbv zeta. rewrite app_nil_r.
      destruct (Nat.ltb_spec (length (cleanHeadingText t)) 20) as [L1|L1];
        [|destruct (Nat.ltb_spec 70 (length (cleanHeadingText t))) as [L2|L2]].
      * split.
        -- intros H. destruct (H _ (or_introl eq_refl)); discriminate.
        -- intros [[x [Hx Hl]] _]. inversion Hx; subst. lia.
      * split.
        -- intros H. destruct (H _ (or_introl eq_refl)); discriminate.
        -- intros [[x [Hx Hl]] _]. inversion Hx; subst. lia.
      * cbn [app]. split.
        -- intros H. split; [exists t; split; [reflexivity|lia]|].
           apply H2. intros e He. apply H. right. right. exact He.
        -- intros [_ F] e [<-|[<-|He]]; [now left|now right|].
           apply H2; assumption.
    + apply blank_length in E. cbn [entries length seq combine flat_map app]. split.
      * intros H. destruct (H _ (or_introl eq_refl)); discriminate.
      * intros [[x [Hx Hl]] _]. inversion Hx; subst.
        apply cleanHeadingText_blank in E. rewrite E in Hl. simpl in Hl. lia.
  - set (l := t :: t' :: rest).
    set (n := length l).
    assert (Hn : 2 <= n) by (unfold n; simpl; lia).
    replace (n =? 0) with false by (symmetry; apply Nat.eqb_neq; lia).
    replace (1 <? n) with true by (symmetry; apply Nat.ltb_lt; lia).
    split.
    + intros H. exfalso.
      assert (K : fst (Warn, [Txt "Multiple H1 headings found ("; Int n;
                              Txt "). Best practice is to have exactly one H1 per page"])
                  = Success
                  \/ fst (Warn, [Txt "Multiple H1 headings found ("; Int n;
                                 Txt "). Best practice is to have exactly one H1 per page"])
                     = Info).
      { apply H. apply in_or_app. right. left. reflexivity. }
      destruct K; discriminate.
    + intros [[x [Hx _]] _]. discriminate.
Qed.

(* ===================================================================== *)
(** * Part XVI. Integers as numbers                                      *)
(* ===================================================================== *)

(** An integer of at most 53 bits is the number whose mantissa is the
    integer shifted to 53 bits. *)
Lemma of_Z_exact (p : positive) :
  (Z.pos (digits2_pos p) <= 53)%Z ->
  of_Z (Z.pos p)
  = S754_finite false
      (Pos.shiftl p (Z.to_N (53 - Z.pos (digits2_pos p))))
      (Z.pos (digits2_pos p) - 53).
Proof.
  intros Hd. unfold of_Z, binary_normalize, binary_round.
  set (d := digits2_pos p) in *.
  assert (Hf : fexp prec emax (Z.pos d + 0) = (Z.pos d - 53)%Z).
  { unfold fexp, emin, prec, emax. lia. }
  fold d. rewrite Hf. unfold shl_align.
  assert (Hround : forall mz ez, digits2_pos mz = 53%positive ->
            (-52 <= ez <= 0)%Z ->
            binary_round_aux prec emax false (Z.pos mz) ez loc_Exact
            = S754_finite false mz ez).
  { intros mz ez Hmz Hez. unfold binary_round_aux, shr_fexp.
    cbn [Zdigits2 shr_record_of_loc]. rewrite Hmz.
    assert (Hz : (fexp prec emax (53 + ez) - ez = 0)%Z)
      by (unfold fexp, emin, prec, emax; lia).
    rewrite Hz. cbn [shr shr_m loc_of_shr_record round_nearest_even Zdigits2
                     shr_record_of_loc].
    rewrite Hmz, Hz. cbn [shr shr_m].
    replace (ez <=? emax - prec)%Z with true
      by (symmetry; apply Z.leb_le; unfold emax, prec; lia).
    reflexivity. }
  destruct (Z.pos d - 53 - 0)%Z as [|k|k] eqn:Hk.
  - replace (53 - Z.pos d)%Z with 0%Z by lia.
    replace (Z.pos d - 53)%Z with 0%Z by lia. cbn [Z.to_N Pos.shiftl].
    apply Hround; [fold d; lia | lia].
  - lia.
  - replace (53 - Z.pos d)%Z with (Z.pos k) by lia. cbn [Z.to_N Pos.shiftl].
    apply Hround.
    + rewrite digits2_iter_xO. fold d. lia.
    + lia.
Qed.

Lemma iter_xO_compare (p q k : positive) :
  Pos.compare (Pos.iter xO p k) (Pos.iter xO q k) = Pos.compare p q.
Proof.
  induction k as [|k IH] using Pos.peano_ind.
  - reflexivity.
  - rewrite !Pos.iter_succ. exact IH.
Qed.

Lemma shiftl_compare (p q : positive) (n : N) :
  Pos.compare (Pos.shiftl p n) (Pos.shiftl q n) = Pos.compare p q.
Proof. destruct n as [|k]; [reflexivity|apply iter_xO_compare]. Qed.

Lemma size_lt (p q : positive) : (Pos.size p < Pos.size q)%positive -> (p < q)%positive.
Proof.
  intros H. pose proof (Pos.size_gt p) as Hp. pose proof (Pos.size_le q) as Hq.
  apply Pos2Z.pos_lt_pos in Hp. apply Pos2Z.pos_le_pos in Hq.
  rewrite Pos2Z.inj_pow in Hp, Hq. change (Z.pos q~0) with (2 * Z.pos q)%Z in Hq.
  assert (K : (2 ^ Z.pos (Pos.size p) <= 2 ^ (Z.pos (Pos.size q) - 1))%Z).
  { apply Z.pow_le_mono_r; lia. }
  assert (Q : (2 ^ Z.pos (Pos.size q) = 2 * 2 ^ (Z.pos (Pos.size q) - 1))%Z).
  { replace (Z.pos (Pos.size q)) with (Z.succ (Z.pos (Pos.size q) - 1)) at 1 by lia.
    rewrite Z.pow_succ_r by lia. reflexivity. }
  apply Pos2Z.pos_lt_pos. lia.
Qed.

(** Numbers that hold integers of at most 53 bits compare as the
    integers do. *)
Lemma compare_of_Z (p q : positive) :
  (Z.pos (digits2_pos p) <= 53)%Z -> (Z.pos (digits2_pos q) <= 53)%Z ->
  SFcompare (of_Z (Z.pos p)) (of_Z (Z.pos q)) = Some (Pos.compare p q).
Proof.
  intros Hp Hq. rewrite (of_Z_exact p Hp), (of_Z_exact q Hq).
  rewrite (digits2_size p), (digits2_size q) in *. cbn [SFcompare]. f_equal.
  change (PosDef.Pos.compare_cont Eq) with Pos.compare.
  destruct (Z.compare_spec (Z.pos (Pos.size p) - 53) (Z.pos (Pos.size q) - 53))
    as [E|L|G].
  - assert (Es : Pos.size p = Pos.size q) by lia. rewrite Es.
    apply shiftl_compare.
  - symmetry. apply Pos.compare_lt_iff, size_lt. lia.
  - symmetry. apply Pos.compare_gt_iff, size_lt. lia.
Qed.

Lemma compare_of_nat (a b : nat) :
  (Z.of_nat a < 2 ^ 53)%Z -> (Z.of_nat b < 2 ^ 53)%Z ->
  SFcompare (of_nat a) (of_nat b) = Some (Nat.compare a b).
Proof.
  intros Ha Hb. unfold of_nat.
  destruct (Z.of_nat a) as [|p|p] eqn:Ea; try lia;
    destruct (Z.of_nat b) as [|q|q] eqn:Eb; try lia.
  - assert (a = 0) by lia. assert (b = 0) by lia. subst. reflexivity.
  - assert (a = 0) by lia. subst.
    rewrite (of_Z_exact q (digits2_bound q Hb)).
    change (of_Z 0) with (S754_zero false). cbn [SFcompare]. f_equal.
    symmetry. apply Nat.compare_lt_iff. lia.
  - assert (b = 0) by lia. subst.
    rewrite (of_Z_exact p (digits2_bound p Ha)).
    change (of_Z 0) with (S754_zero false). cbn [SFcompare]. f_equal.
    symmetry. apply Nat.compare_gt_iff. lia.
  - rewrite compare_of_Z by (apply digits2_bound; assumption). f_equal.
    rewrite <- (Nat2Z.inj_compare a b), Ea, Eb. reflexivity.
Qed.

Lemma lt_of_nat (a b : nat) :
  (Z.of_nat a < 2 ^ 53)%Z -> (Z.of_nat b < 2 ^ 53)%Z ->
  lt (of_nat a) (of_nat b) = (a <? b).
Proof.
  intros Ha Hb. unfold lt, SFltb. rewrite compare_of_nat by assumption.
  destruct (Nat.compare_spec a b) as [E|L|G];
    symmetry; [apply Nat.ltb_ge|apply Nat.ltb_lt|apply Nat.ltb_ge]; lia.
Qed.

Lemma gt_of_nat (a b : nat) :
  (Z.of_nat a < 2 ^ 53)%Z -> (Z.of_nat b < 2 ^ 53)%Z ->
  gt (of_nat a) (of_nat b) = (b <? a).
Proof. intros Ha Hb. unfold gt. now apply (lt_of_nat b a). Qed.

Lemma ge_of_nat (a b : nat) :
  (Z.of_nat a < 2 ^ 53)%Z -> (Z.of_nat b < 2 ^ 53)%Z ->
  ge (of_nat a) (of_nat b) = (b <=? a).
Proof.
  intros Ha Hb. unfold ge, SFleb. rewrite compare_of_nat by assumption.
  destruct (Nat.compare_spec b a) as [E|L|G];
    symmetry; [apply Nat.leb_le|apply Nat.leb_le|apply Nat.leb_gt]; lia.
Qed.

(** ** [parseInt] on decimal numerals *)

Lemma digit_cases (d : N) :
  (d < 10)%N -> In d [0; 1; 2; 3; 4; 5; 6; 7; 8; 9]%N.
Proof.
  intros H. simpl.
  destruct d as [|[[[|[]|]|[[]|[]|]|]|[[|[]|]|[[]|[]|]|]|]]; try lia; tauto.
Qed.

Ltac each_digit d H :=
  apply digit_cases in H; simpl in H;
  repeat (destruct H as [H|H]; [subst d|]); [..|destruct H].

Lemma digit_value (d : N) :
  (d < 10)%N -> digitValue (ascii_of_N (48 + d)) = Some d.
Proof. intros H. each_digit d H; reflexivity. Qed.

Lemma digit_plain (d : N) :
  (d < 10)%N ->
  isWhiteSpace (ascii_of_N (48 + d)) = false
  /\ N.eqb (code (ascii_of_N (48 + d))) 45 = false
  /\ N.eqb (code (ascii_of_N (48 + d))) 43 = false
  /\ N.eqb (code (ascii_of_N (48 + d))) 120 = false
  /\ N.eqb (code (ascii_of_N (48 + d))) 88 = false.
Proof. intros H. each_digit d H; repeat split; reflexivity. Qed.

Lemma js_String (c : ascii) (s : string) : js (String c s) = c :: js s.
Proof. reflexivity. Qed.

(** The digits are read back to the integer they were written from. *)
Lemma digitsValue_digits_of (f : nat) :
  forall (n : N) (acc : string) (rest : jsstring),
    (n < 2 ^ N.of_nat (S f))%N ->
    digitsValue 10 None (js (digits_of (S f) n acc) ++ rest)
    = digitsValue 10 (Some n) (js acc ++ rest).
Proof.
  assert (Step : forall n acc (rest : jsstring) (a : option N),
            digitsValue 10 a (js (String (ascii_of_N (48 + n mod 10)) acc) ++ rest)
            = digitsValue 10
                (Some (match a with Some a => a * 10 + n mod 10 | None => n mod 10 end)%N)
                (js acc ++ rest)).
  { intros n acc rest a. rewrite js_String. cbn [app digitsValue].
    assert (Hd : (n mod 10 < 10)%N) by (apply N.mod_lt; discriminate).
    rewrite (digit_value _ Hd).
    destruct (N.ltb_spec (n mod 10) 10); [reflexivity|lia]. }
  induction f as [|f IH]; intros n acc rest Hn.
  - cbn [digits_of]. assert (E : (n / 10 = 0)%N).
    { apply N.div_small. change (2 ^ N.of_nat 1)%N with 2%N in Hn. lia. }
    rewrite E. cbn [N.eqb]. rewrite Step.
    rewrite N.mod_small by (change (2 ^ N.of_nat 1)%N with 2%N in Hn; lia).
    reflexivity.
  - change (digits_of (S (S f)) n acc)
      with (let acc' := String (ascii_of_N (48 + n mod 10)) acc in
            if (n / 10 =? 0)%N then acc' else digits_of (S f) (n / 10)%N acc').
    cbv zeta. destruct (N.eqb_spec (n / 10) 0) as [E|E].
    + rewrite Step. f_equal. f_equal.
      pose proof (N.div_mod n 10) as D. rewrite E in D. lia.
    + rewrite IH.
      * rewrite Step. f_equal. f_equal. pose proof (N.div_mod n 10). lia.
      * assert (P : (2 ^ N.of_nat (S (S f)) = 2 * 2 ^ N.of_nat (S f))%N).
        { rewrite (Nat2N.inj_succ (S f)), N.pow_succ_r by lia. reflexivity. }
        rewrite P in Hn.
        apply N.Div0.div_lt_upper_bound. lia.
Qed.

Lemma digits_of_head (f : nat) :
  forall (n : N) (acc : string),
    exists d s, (d < 10)%N
                /\ js (digits_of (S f) n acc) = ascii_of_N (48 + d) :: s
                /\ match s with
                   | [] => True
                   | c :: _ => (exists d', (d' < 10)%N /\ c = ascii_of_N (48 + d'))
                               \/ exists t, js acc = c :: t
                   end.
Proof.
  induction f as [|f IH]; intros n acc.
  - cbn [digits_of]. exists (n mod 10)%N, (js acc).
    split; [apply N.mod_lt; discriminate|].
    split; [destruct (_ =? _)%N; reflexivity|].
    destruct (js acc) as [|c t] eqn:E; [exact I|].
    right. exists t. reflexivity.
  - change (digits_of (S (S f)) n acc)
      with (let acc' := String (ascii_of_N (48 + n mod 10)) acc in
            if (n / 10 =? 0)%N then acc' else digits_of (S f) (n / 10)%N acc').
    cbv zeta. destruct (n / 10 =? 0)%N.
    + exists (n mod 10)%N, (js acc).
      split; [apply N.mod_lt; discriminate|]. split; [reflexivity|].
      destruct (js acc) as [|c t] eqn:E; [exact I|].
      right. exists t. reflexivity.
    + destruct (IH (n / 10)%N (String (ascii_of_N (48 + n mod 10)) acc))
        as [d [s [Hd [Hs Hc]]]].
      exists d, s. split; [exact Hd|]. split; [exact Hs|].
      destruct s as [|c s']; [exact I|]. left.
      destruct Hc as [[d' [Hd' Ec]]|[t Et]]; [exists d'; tauto|].
      rewrite js_String in Et. inversion Et. subst.
      exists (n mod 10)%N. split; [apply N.mod_lt; discriminate|reflexivity].
Qed.

Lemma decimal_fuel (n : N) : (n < 2 ^ N.of_nat (S (N.to_nat (N.log2 n))))%N.
Proof.
  rewrite Nat2N.inj_succ, N2Nat.id.
  destruct n as [|p]; [reflexivity|].
  apply N.log2_spec. reflexivity.
Qed.

Lemma trimStart_white (ws s : jsstring) :
  forallb isWhiteSpace ws = true -> trimStart (ws ++ s) = trimStart s.
Proof.
  induction ws as [|c ws IH]; simpl; [reflexivity|].
  intros H. apply andb_prop in H. destruct H as [Hc Hw]. rewrite Hc. now apply IH.
Qed.

Lemma digitsValue_end (n : N) (rest : jsstring) :
  endsNumeral rest = true -> digitsValue 10 (Some n) rest = Some n.
Proof.
  destruct rest as [|c rest]; [reflexivity|]. cbn [endsNumeral digitsValue].
  intros H. apply andb_prop in H. destruct H as [H _].
  apply andb_prop in H. destruct H as [H _].
  unfold digitValue, isDigitCode in *.
  destruct (between 48 57 (code c)); [discriminate|].
  destruct (between 97 122 (code c)) eqn:E1.
  - unfold between in E1. apply andb_prop in E1. destruct E1 as [E1 _].
    apply N.leb_le in E1.
    destruct (N.ltb_spec (code c - 87) 10); [lia|reflexivity].
  - destruct (between 65 90 (code c)) eqn:E2; [|reflexivity].
    unfold between in E2. apply andb_prop in E2. destruct E2 as [E2 _].
    apply N.leb_le in E2.
    destruct (N.ltb_spec (code c - 55) 10); [lia|reflexivity].
Qed.

(** [parseInt] reads a decimal numeral as the integer it denotes, after
    white space and before a unit. *)
Lemma parseInt_decimal (n : N) (ws rest : jsstring) :
  forallb isWhiteSpace ws = true -> endsNumeral rest = true ->
  parseInt (ws ++ js (decimal n) ++ rest) = of_Z (Z.of_N n).
Proof.
  intros Hws Hrest. unfold parseInt. rewrite (trimStart_white _ _ Hws).
  unfold decimal.
  pose proof (digitsValue_digits_of (N.to_nat (N.log2 n)) n "" rest (decimal_fuel n))
    as Hv.
  destruct (digits_of_head (N.to_nat (N.log2 n)) n "") as [d [s [Hd [Hs Hc]]]].
  rewrite Hs in *. destruct (digit_plain d Hd) as [W [M [P [X1 X2]]]].
  cbn [app trimStart]. rewrite W, M, P.
  assert (Hradix :
            match s ++ rest with
            | x :: _ => (N.eqb (code x) 120 || N.eqb (code x) 88)%bool = false
            | [] => True
            end).
  { destruct s as [|c s'].
    - cbn [app]. destruct rest as [|x rest']; [exact I|].
      cbn [endsNumeral] in Hrest. apply andb_prop in Hrest.
      destruct Hrest as [Hr Hx2]. apply andb_prop in Hr. destruct Hr as [_ Hx1].
      apply negb_true_iff in Hx1, Hx2. now rewrite Hx1, Hx2.
    - cbn [app]. destruct Hc as [[d' [Hd' ->]]|[t Et]]; [|discriminate].
      destruct (digit_plain d' Hd') as [_ [_ [_ [Y1 Y2]]]]. now rewrite Y1, Y2. }
  assert (Hr : (let '(radix, s0) :=
                  match ascii_of_N (48 + d) :: s ++ rest with
                  | z :: x :: s' =>
                      if (N.eqb (code z) 48
                          && (N.eqb (code x) 120 || N.eqb (code x) 88))%bool
                      then (16%N, s') else (10%N, ascii_of_N (48 + d) :: s ++ rest)
                  | _ => (10%N, ascii_of_N (48 + d) :: s ++ rest)
                  end in
                match digitsValue radix None s0 with
                | None => NaN
                | Some 0%N => S754_zero false
                | Some mathInt => of_Z (Z.of_N mathInt)
                end)
               = of_Z (Z.of_N n)).
  { cbn [app] in Hv. destruct (s ++ rest) as [|x t] eqn:Et.
    - cbv beta iota. rewrite Hv. rewrite digitsValue_end by exact Hrest.
      destruct n; reflexivity.
    - rewrite Hradix, andb_false_r. cbv beta iota. rewrite Hv.
      rewrite digitsValue_end by exact Hrest. destruct n; reflexivity. }
  exact Hr.
Qed.

(* ===================================================================== *)
(** * Part XVII. The images and the Lighthouse scores                    *)
(* ===================================================================== *)

Import ImageAnalyzer LighthouseAnalyzer.

Lemma parseInt_readsAs (attribute : option jsstring) (n : N) :
  readsAs attribute n -> parseInt (orZero attribute) = of_Z (Z.of_N n).
Proof.
  destruct attribute as [[|c s]|]; cbn [readsAs orZero].
  - intros ->. reflexivity.
  - intros [ws [rest [-> [Hws Hrest]]]]. now apply parseInt_decimal.
  - intros ->. reflexivity.
Qed.

Lemma gt_of_N (n : N) (k : nat) :
  (n < 2 ^ 53)%N -> (Z.of_nat k < 2 ^ 53)%Z ->
  gt (of_Z (Z.of_N n)) (of_nat k) = (N.of_nat k <? n)%N.
Proof.
  intros Hn Hk. rewrite <- (N_nat_Z n).
  change (of_Z (Z.of_nat (N.to_nat n))) with (of_nat (N.to_nat n)).
  rewrite gt_of_nat; [|lia|exact Hk].
  destruct (Nat.ltb_spec k (N.to_nat n)); destruct (N.ltb_spec (N.of_nat k) n);
    try reflexivity; lia.
Qed.

(** X10.  An image whose [width] and [height] attributes read as the
    integers [w] and [h] (a missing or empty attribute reads as 0, a
    decimal numeral as its value, white space before it and a unit after
    it being ignored) is reported as a large image exactly when [w] is
    greater than 1920 or [h] is greater than 1080; the report gives its
    [src] and the two integers. *)
Theorem large_image_reported (images : list Image) (img : Image) (w h : N) :
  In img images ->
  readsAs (width img) w -> readsAs (height img) h ->
  (w < 2 ^ 53)%N -> (h < 2 ^ 53)%N ->
  (In (Warn, [Txt "Large image found: "; orNull (src img); Txt " (";
              Num (of_Z (Z.of_N w)); Txt "x"; Num (of_Z (Z.of_N h)); Txt ")"])
      (analyzeImages images)
   <-> (1920 < w \/ 1080 < h)%N).
Proof.
  intros Hin Hw Hh Bw Bh. unfold analyzeImages.
  destruct images as [|i0 images']; [destruct Hin|].
  set (images := i0 :: images') in *.
  change (length images =? 0) with false. cbv iota.
  assert (Hlarge : (gt (of_Z (Z.of_N w)) (of_nat 1920)
                    || gt (of_Z (Z.of_N h)) (of_nat 1080))%bool = true
                   <-> (1920 < w \/ 1080 < h)%N).
  { rewrite (gt_of_N w 1920 Bw), (gt_of_N h 1080 Bh) by (cbn; lia).
    rewrite orb_true_iff, !N.ltb_lt. cbn. tauto. }
  split.
  - intros H. apply in_app_or in H. destruct H as [[H|[]]|H]; [discriminate|].
    apply in_app_or in H. destruct H as [H|H].
    + exfalso. destruct (0 <? length _); [|destruct H].
      destruct H as [H|H]; [discriminate|]. apply in_map_iff in H.
      destruct H as [x [Hx _]]. discriminate.
    + apply in_flat_map in H. destruct H as [img' [_ H]]. cbv zeta in H.
      destruct (gt (parseInt (orZero (width img'))) (of_nat 1920)
                || gt (parseInt (orZero (height img'))) (of_nat 1080))%bool eqn:E;
        [|destruct H].
      destruct H as [H|[]]. inversion H as [[Hs Ew Eh]].
      rewrite Ew, Eh in E. now apply Hlarge.
  - intros H. apply Hlarge in H. apply in_or_app. right. apply in_or_app. right.
    apply in_flat_map. exists img. split; [exact Hin|]. cbv zeta.
    rewrite (parseInt_readsAs _ _ Hw), (parseInt_readsAs _ _ Hh), H. now left.
Qed.

Lemma large_image_reported_witness :
  In (Warn, [Txt "Large image found: "; Str (js "hero.png"); Txt " (";
             Num (of_Z 2400); Txt "x"; Num (of_Z 0); Txt ")"])
     (analyzeImages [mkImage (Some []) (Some (js "hero.png")) (Some (js " 2400px")) None])
  <-> (1920 < 2400 \/ 1080 < 0)%N.
Proof.
  apply (large_image_reported
           [mkImage (Some []) (Some (js "hero.png")) (Some (js " 2400px")) None]
           (mkImage (Some []) (Some (js "hero.png")) (Some (js " 2400px")) None)
           2400%N 0%N).
  - simpl. left. reflexivity.
  - simpl. exists (js " "), (js "px"). repeat split; reflexivity.
  - simpl. reflexivity.
  - vm_compute. reflexivity.
  - vm_compute. reflexivity.
Defined.

(** X11.  [analyzeImages] logs an entry of the level error exactly when
    some image has no [alt] attribute (an empty [alt] is an attribute); the
    entry gives the number of such images, and each of them is listed
    with its [src]. *)
Theorem missing_alt_reported (images : list Image) :
  ((exists m, In (Error, m) (analyzeImages images))
   <-> exists img, In img images /\ alt img = None)
  /\ (forall m, In (Error, m) (analyzeImages images) ->
        m = [Int (length (filter (fun img => match alt img with
                                             | Some _ => false
                                             | None => true
                                             end) images));
             Txt " images missing alt text"])
  /\ (forall img, In img images -> alt img = None ->
        In (Info, [Txt "   Missing alt: "; orNull (src img)]) (analyzeImages images)).
Proof.
  unfold analyzeImages.
  assert (Ef : filter (fun img => negb match alt img with
                                       | Some _ => true
                                       | None => false
                                       end) images
               = filter (fun img => match alt img with
                                    | Some _ => false
                                    | None => true
                                    end) images).
  { apply filter_ext. intros i. now destruct (alt i). }
  rewrite Ef. set (without := filter _ images).
  assert (Hw : forall img, In img without <-> In img images /\ alt img = None).
  { intros img. unfold without. rewrite filter_In. destruct (alt img); split;
      intros [H1 H2]; split; congruence. }
  assert (Hflat : forall m,
             ~ In (Error, m)
                 (flat_map
                    (fun img =>
                       let width := parseInt (orZero (width img)) in
                       let height := parseInt (orZero (height img)) in
                       if (gt width (of_nat 1920) || gt height (of_nat 1080))%bool
                       then [(Warn, [Txt "Large image found: "; orNull (src img);
                                     Txt " ("; Num width; Txt "x"; Num height;
                                     Txt ")"])]
                       else [])
                    images)).
  { intros m H. apply in_flat_map in H. destruct H as [x [_ H]]. cbv zeta in H.
    destruct (_ || _)%bool; [destruct H as [H|[]]; discriminate|destruct H]. }
  destruct images as [|i0 images'] eqn:Ei.
  - cbn. repeat split.
    + intros [m [H|[]]]. discriminate.
    + intros [img [[] _]].
    + intros m [H|[]]. discriminate.
    + intros img [].
  - rewrite <- Ei in *. replace (length images =? 0) with false
      by (rewrite Ei; reflexivity).
    assert (Herr : forall m,
               In (Error, m)
                  ([(Info, [Txt "Found "; Int (length images); Txt " images"])]
                   ++ (if 0 <? length without then
                         (Error, [Int (length without); Txt " images missing alt text"])
                         :: map (fun img => (Info, [Txt "   Missing alt: ";
                                                    orNull (src img)])) without
                       else [])
                   ++ flat_map
                        (fun img =>
                           let width := parseInt (orZero (width img)) in
                           let height := parseInt (orZero (height img)) in
                           if (gt width (of_nat 1920) || gt height (of_nat 1080))%bool
                           then [(Warn, [Txt "Large image found: "; orNull (src img);
                                         Txt " ("; Num width; Txt "x"; Num height;
                                         Txt ")"])]
                           else [])
                        images)
               -> 0 < length without
                  /\ m = [Int (length without); Txt " images missing alt text"]).
    { intros m H. apply in_app_or in H. destruct H as [[H|[]]|H]; [discriminate|].
      apply in_app_or in H. destruct H as [H|H]; [|exfalso; eapply Hflat; exact H].
      destruct (Nat.ltb_spec 0 (length without)) as [L|L]; [|destruct H].
      destruct H as [H|H]; [inversion H; split; [exact L|reflexivity]|].
      apply in_map_iff in H. destruct H as [x [Hx _]]. discriminate. }
    split; [split|split].
    + intros [m H]. apply Herr in H. destruct H as [L _].
      destruct without as [|x l] eqn:Ew; [simpl in L; lia|].
      exists x. apply Hw. now left.
    + intros [img Himg]. apply Hw in Himg. eexists.
      apply in_or_app. right. apply in_or_app. left.
      replace (0 <? length without) with true.
      * left. reflexivity.
      * symmetry. apply Nat.ltb_lt. destruct without; [destruct Himg|simpl; lia].
    + intros m H. now apply Herr in H.
    + intros img Hin Ha. assert (Himg : In img without) by (apply Hw; tauto).
      apply in_or_app. right. apply in_or_app. left.
      replace (0 <? length without) with true.
      * right. apply in_map_iff. exists img. split; [reflexivity|exact Himg].
      * symmetry. apply Nat.ltb_lt. destruct without; [destruct Himg|simpl; lia].
Qed.

(** X12.  A Lighthouse score that is a whole number of hundredths, p/100
    for p from 1 to 100, is reported as the integer p: at the level
    success from 90, warn from 50 to 89 and error below 50 (multiplying
    by 100 and rounding gives p back for each of these scores).  A score
    of 0 is reported as N/A at the level warn, like a missing score. *)
Theorem reportScore_percent (name : string) :
  (forall p : nat,
      1 <= p <= 100 ->
      reportScore name (Some (dec (Z.of_nat p) 2))
      = ((if 90 <=? p then Success else if 50 <=? p then Warn else Error),
         [Txt name; Txt ": "; Num (of_nat p)]))
  /\ reportScore name (Some (of_nat 0)) = (Warn, [Txt name; Txt ": N/A"])
  /\ reportScore name None = (Warn, [Txt name; Txt ": N/A"]).
Proof.
  split; [|split; reflexivity].
  intros p [H1 H2].
  do 101 (destruct p as [|p]; [try lia; vm_compute; reflexivity|]).
  lia.
Qed.

(* ===================================================================== *)
(** * Part XVIII. The links                                              *)
(* ===================================================================== *)

Import LinkAnalyzer.

(** ** The text of a link *)


Lemma length_zero (s : jsstring) : (length s =? 0) = true <-> s = [].
Proof. rewrite Nat.eqb_eq. apply length_zero_iff_nil. Qed.



(** ** Internal and external links *)

Lemma startsWith_nil (s : jsstring) : startsWith [] s = true.
Proof. destruct s; reflexivity. Qed.

(** X15.  When the page has no base URL, [isInternalLink] does not parse
    anything: a link is internal exactly when its href does not start
    with "http".  With any base URL, an empty href and an href that starts
    with "/" are internal. *)
Theorem isInternalLink_without_base
    (newURL : jsstring -> option jsstring -> option URL) (href : jsstring) :
  isInternalLink newURL href [] = negb (startsWith (js "http") href)
  /\ (forall baseUrl, isInternalLink newURL [] baseUrl = true)
  /\ (forall baseUrl, startsWith (js "/") href = true ->
                      isInternalLink newURL href baseUrl = true).
Proof.
  split; [|split].
  - unfold isInternalLink. destruct href as [|c href]; [reflexivity|].
    cbn [length Nat.eqb Nat.ltb Nat.leb andb].
    destruct (startsWith (js "/") (c :: href)) eqn:E.
    + destruct c as [[] [] [] [] [] [] [] []]; try discriminate. reflexivity.
    + destruct (startsWith (js "http") (c :: href)); reflexivity.
  - intros baseUrl. reflexivity.
  - intros baseUrl H. unfold isInternalLink. rewrite H.
    destruct (length href =? 0); reflexivity.
Qed.

(** ** The links collected *)


Lemma filter_split_length {A : Type} (p : A -> bool) (l : list A) :
  length (filter p l) + length (filter (fun x => negb (p x)) l) = length l.
Proof.
  induction l as [|a l IH]; simpl; [reflexivity|].
  destruct (p a); simpl; lia.
Qed.

Lemma empty_hrefs_length (d : list LinkDetails) :
  length (filter (fun u => 0 <? length u) (map href d))
  + length (filter (fun l => length (href l) =? 0) d)
  = length d.
Proof.
  induction d as [|x d IH]; simpl; [reflexivity|].
  destruct (href x) as [|c u]; simpl; lia.
Qed.

(** The state of [links.forEach] after the loop: the details added, one
    for each link that is not skipped, and the set of their URLs that are
    not empty. *)
Lemma collect_invariant (newURL : jsstring -> option jsstring -> option URL)
    (baseUrl : jsstring) (links : list Anchor) :
  forall state,
  exists added,
    fst (fold_left (collect newURL baseUrl) links state) = fst state ++ added
    /\ length added
       = length (filter
                   (fun link =>
                      negb (startsWith (js "#") (orEmpty (attr_href link))
                            || startsWith (js "javascript:") (orEmpty (attr_href link))))
                   links)
    /\ snd (fold_left (collect newURL baseUrl) links state)
       = fold_left JSSet.add (filter (fun u => 0 <? length u) (map href added))
                   (snd state).
Proof.
  induction links as [|link links IH]; intros [d s].
  - exists []. cbn. now rewrite app_nil_r.
  - cbn [fold_left filter]. unfold collect at 2 4.
    destruct (startsWith (js "#") (orEmpty (attr_href link))
              || startsWith (js "javascript:") (orEmpty (attr_href link)))%bool.
    + cbn [negb]. apply IH.
    + cbn [negb length].
      match goal with
      | |- context [fold_left _ links (d ++ [?x], ?s')] =>
          destruct (IH (d ++ [x], s')) as [added [H1 [H2 H3]]];
          exists (x :: added)
      end.
      cbn [fst snd] in *. rewrite H1, H3, <- app_assoc. cbn [app length map filter href].
      split; [reflexivity|]. split; [now rewrite H2|].
      match goal with
      | |- context [0 <? length ?u] => destruct (0 <? length u)
      end; reflexivity.
Qed.

Lemma collect_seen (newURL : jsstring -> option jsstring -> option URL)
    (baseUrl : jsstring) (links : list Anchor) :
  snd (fold_left (collect newURL baseUrl) links ([], []))
  = JSSet.of_list
      (filter (fun u => 0 <? length u)
              (map href (fst (fold_left (collect newURL baseUrl) links ([], []))))).
Proof.
  destruct (collect_invariant newURL baseUrl links ([], [])) as [added [H1 [_ H3]]].
  cbn [fst snd app] in H1, H3. rewrite H3, H1. reflexivity.
Qed.

Lemma count_arith (t s y e : nat) :
  s <= y -> y + e = t -> t - s + s = t /\ e <= t - s.
Proof. lia. Qed.

(** X16.  The counts of the link analysis.  The total is the number of
    links whose href does not start with "#" or "javascript:"; every link
    counted is internal or external; the URLs seen are the URLs of the
    links counted that are not empty, without repetition, in the order of
    their first occurrence; the number of duplicates is the total minus
    the number of URLs seen, so that every link with an empty URL counts
    as a duplicate. *)
Theorem link_counts (newURL : jsstring -> option jsstring -> option URL)
    (baseUrl : jsstring) (links : list Anchor) :
  let collected := fold_left (collect newURL baseUrl) links ([], []) in
  let analysis := analysisOf (fst collected) (snd collected) in
  total analysis
  = length (filter
              (fun link =>
                 negb (startsWith (js "#") (orEmpty (attr_href link))
                       || startsWith (js "javascript:") (orEmpty (attr_href link))))
              links)
  /\ internal analysis + external analysis = total analysis
  /\ snd collected
     = JSSet.of_list (filter (fun u => 0 <? length u) (map href (fst collected)))
  /\ duplicates analysis + JSSet.size (snd collected) = total analysis
  /\ emptyHrefs analysis <= duplicates analysis.
Proof.
  cbv zeta. destruct (collect_invariant newURL baseUrl links ([], []))
    as [added [H1 [H2 H3]]].
  cbn [fst snd app] in H1, H3.
  destruct (fold_left (collect newURL baseUrl) links ([], [])) as [d s].
  cbn [fst snd] in *. subst d.
  unfold analysisOf. cbn [total internal external duplicates emptyHrefs].
  pose proof (of_list_length (filter (fun u => 0 <? length u) (map href added))) as Hs.
  pose proof (empty_hrefs_length added) as He.
  fold (JSSet.of_list (filter (fun u => 0 <? length u) (map href added))) in H3.
  unfold JSSet.size. rewrite H3.
  split; [exact H2|]. split; [apply filter_split_length|].
  split; [reflexivity|].
  exact (count_arith _ _ _ _ Hs He).
Qed.

(** ** The check for broken links *)

Lemma checkBrokenLinks_loop_spec (fetch : jsstring -> response)
    (links : list LinkDetails) :
  forall checkedUrls brokenCount,
    let result := checkBrokenLinks_loop fetch links checkedUrls brokenCount in
    fold_left JSSet.add (filter (fun u => 0 <? length u) (map href links)) checkedUrls
    = checkedUrls ++ snd (fst result)
    /\ snd result
       = brokenCount
         + length (filter (fun u => match fetch u with Ok => false | _ => true end)
                          (snd (fst result)))
    /\ Forall (fun e => fst e = Error) (fst (fst result))
    /\ length (fst (fst result)) = snd result - brokenCount.
Proof.
  induction links as [|link links IH]; intros checked n.
  - cbn. rewrite app_nil_r. split; [reflexivity|]. split; [lia|].
    split; [constructor|lia].
  - cbn [checkBrokenLinks_loop map filter].
    destruct (href link) as [|c u] eqn:Eh.
    + cbn [length Nat.eqb Nat.ltb Nat.leb orb]. apply IH.
    + cbn [length Nat.eqb orb]. change (0 <? S (length u)) with true. cbv iota.
      cbn [fold_left].
      pose proof (eq_refl : JSSet.add checked (c :: u)
                            = if JSSet.has checked (c :: u) then checked
                              else checked ++ [c :: u]) as Hadd.
      destruct (JSSet.has checked (c :: u)) eqn:Eha.
      * rewrite Hadd. apply IH.
      * rewrite Hadd. specialize (IH (checked ++ [c :: u])).
        destruct (fetch (c :: u)) eqn:Ef.
        -- specialize (IH (n + 0)).
           destruct (checkBrokenLinks_loop fetch links (checked ++ [c :: u]) (n + 0))
             as [[log fetched] n'].
           cbn [fst snd app filter length] in *. rewrite Ef.
           destruct IH as [I1 [I2 [I3 I4]]].
           rewrite I1, <- app_assoc. repeat split; try assumption; lia.
        -- specialize (IH (n + 1)).
           destruct (checkBrokenLinks_loop fetch links (checked ++ [c :: u]) (n + 1))
             as [[log fetched] n'].
           cbn [fst snd app filter length] in *. rewrite Ef.
           destruct IH as [I1 [I2 [I3 I4]]].
           rewrite I1, <- app_assoc.
           repeat split; [cbn [length]; lia|constructor; [reflexivity|assumption]|lia].
        -- specialize (IH (n + 1)).
           destruct (checkBrokenLinks_loop fetch links (checked ++ [c :: u]) (n + 1))
             as [[log fetched] n'].
           cbn [fst snd app filter length] in *. rewrite Ef.
           destruct IH as [I1 [I2 [I3 I4]]].
           rewrite I1, <- app_assoc.
           repeat split; [cbn [length]; lia|constructor; [reflexivity|assumption]|lia].
Qed.

Lemma displayLinkAnalysis_levels (analysis : LinkAnalysis) (links : list LinkDetails) :
  Forall (fun e => fst e <> Error) (displayLinkAnalysis analysis links).
Proof. unfold displayLinkAnalysis. levels. Qed.

Lemma provideLinkRecommendations_error (analysis : LinkAnalysis)
    (links : list LinkDetails) (m : list frag) :
  In (Error, m) (provideLinkRecommendations analysis links) -> 0 < broken analysis.
Proof.
  intros H. destruct (Nat.ltb_spec 0 (broken analysis)) as [L|L]; [exact L|].
  exfalso.
  assert (F : Forall (fun e => fst e <> Error)
                     (provideLinkRecommendations analysis links)).
  { unfold provideLinkRecommendations.
    replace (0 <? broken analysis) with false by (symmetry; apply Nat.ltb_ge; lia).
    levels. }
  rewrite Forall_forall in F. apply (F _ H). reflexivity.
Qed.

Lemma provideLinkRecommendations_broken (analysis : LinkAnalysis)
    (links : list LinkDetails) :
  0 < broken analysis -> total analysis <> 0 ->
  In (Error, [Txt "- Fix broken links to improve user experience and SEO"])
     (provideLinkRecommendations analysis links).
Proof.
  intros Hb Ht. unfold provideLinkRecommendations.
  replace (total analysis =? 0) with false by (symmetry; apply Nat.eqb_neq; lia).
  replace (0 <? broken analysis) with true by (symmetry; apply Nat.ltb_lt; lia).
  right. repeat (apply in_or_app; right). left. reflexivity.
Qed.

(** X17.  [analyzeLinks] fetches nothing when there is no global
    [window]; when there is one it fetches the URLs seen, that is, the
    URL of every link counted, apart from the empty one, once each, in
    the order of their first occurrence.  An entry of the level error is
    logged exactly when some URL that was fetched did not get a response
    whose [ok] is true. *)
Theorem analyzeLinks_fetches (newURL : jsstring -> option jsstring -> option URL)
    (hasWindow : bool) (fetch : jsstring -> response)
    (links : list Anchor) (location : origin) :
  let result := analyzeLinks newURL hasWindow fetch links location in
  let baseUrl := match location with
                 | Origin value => orEmpty value
                 | OriginThrows => []
                 end in
  NoDup (snd result)
  /\ ~ In [] (snd result)
  /\ snd result
     = (if hasWindow
        then snd (fold_left (collect newURL baseUrl) links ([], []))
        else [])
  /\ ((exists m, In (Error, m) (fst result))
      <-> exists u, In u (snd result) /\ fetch u <> Ok).
Proof.
  cbv zeta. unfold analyzeLinks.
  destruct links as [|l0 ls].
  - cbn. split; [constructor|]. split; [tauto|]. split; [now destruct hasWindow|].
    split.
    + intros [m [H|[H|[]]]]; discriminate.
    + intros [u [[] _]].
  - set (links := l0 :: ls). change (length links =? 0) with false. cbv iota.
    set (baseUrl := match location with
                    | Origin value => orEmpty value
                    | OriginThrows => []
                    end).
    assert (Hloc : forall (A : Type) (k : jsstring -> list entry -> A),
               (let '(baseUrl, warning) :=
                  match location with
                  | Origin value => (orEmpty value, [])
                  | OriginThrows => ([], [(Warn, [Txt "Could not determine base URL"])])
                  end in k baseUrl warning)
               = k baseUrl match location with
                           | Origin _ => []
                           | OriginThrows => [(Warn, [Txt "Could not determine base URL"])]
                           end).
    { intros A k. unfold baseUrl. destruct location; reflexivity. }
    rewrite Hloc. clear Hloc.
    set (warning := match location with
                    | Origin _ => []
                    | OriginThrows => [(Warn, [Txt "Could not determine base URL"])]
                    end).
    assert (Hwarn : Forall (fun e : entry => fst e <> Error) warning).
    { unfold warning. destruct location; repeat constructor. discriminate. }
    pose proof (collect_seen newURL baseUrl links) as Hs.
    destruct (fold_left (collect newURL baseUrl) links ([], [])) as [d s] eqn:Ec.
    cbn [fst snd] in Hs.
    assert (Hnd : NoDup s) by (rewrite Hs; apply of_list_NoDup).
    assert (Hne : ~ In [] s).
    { rewrite Hs. intros H. apply of_list_In, filter_In in H.
      destruct H as [_ H]. discriminate. }
    destruct hasWindow.
    + unfold checkBrokenLinks.
      pose proof (checkBrokenLinks_loop_spec fetch d [] 0) as Hloop. cbv zeta in Hloop.
      destruct (checkBrokenLinks_loop fetch d [] 0) as [[log fetched] n].
      cbn [fst snd app] in Hloop. destruct Hloop as [Hf [Hn [Hlog Hlen]]].
      fold (JSSet.of_list (filter (fun u => 0 <? length u) (map href d))) in Hf.
      rewrite <- Hs in Hf. subst fetched. cbn [fst snd].
      split; [exact Hnd|]. split; [exact Hne|]. split; [reflexivity|].
      assert (Hpos : 0 < n <-> exists u, In u s /\ fetch u <> Ok).
      { rewrite Hn. cbn [Nat.add]. split.
        - intros L.
          destruct (filter (fun u => match fetch u with Ok => false | _ => true end) s)
            as [|x l] eqn:Ef; [simpl in L; lia|].
          assert (Hx : In x (x :: l)) by now left.
          rewrite <- Ef in Hx. apply filter_In in Hx. destruct Hx as [Hx Hp].
          exists x. split; [exact Hx|]. intros K. rewrite K in Hp. discriminate.
        - intros [u [Hu Hp]].
          assert (Hx : In u (filter (fun u => match fetch u with
                                              | Ok => false
                                              | _ => true
                                              end) s)).
          { apply filter_In. split; [exact Hu|]. destruct (fetch u); congruence. }
          destruct (filter _ s); [destruct Hx|simpl; lia]. }
      rewrite <- Hpos. split.
      * intros [m [H|H]]; [discriminate|].
        apply in_app_or in H. destruct H as [H|H].
        { rewrite Forall_forall in Hwarn. exfalso. apply (Hwarn _ H). reflexivity. }
        apply in_app_or in H. destruct H as [H|H].
        { pose proof (displayLinkAnalysis_levels (analysisOf d s) d) as F.
          rewrite Forall_forall in F. exfalso. apply (F _ H). reflexivity. }
        apply in_app_or in H. destruct H as [[H|H]|H].
        { discriminate. }
        { destruct log; [destruct H|]. simpl in Hlen. lia. }
        { apply provideLinkRecommendations_error in H. exact H. }
      * intros L. eexists. right. apply in_or_app. right. apply in_or_app. right.
        apply in_or_app. right. apply provideLinkRecommendations_broken.
        -- exact L.
        -- cbn [total]. rewrite Hn in L. cbn [Nat.add] in L.
           destruct d as [|x d']; [|discriminate].
           rewrite Hs in L. simpl in L. lia.
    + cbn [fst snd app]. split; [constructor|]. split; [tauto|].
      split; [reflexivity|]. split.
      * intros [m [H|H]]; [discriminate|]. exfalso.
        apply in_app_or in H. destruct H as [H|H].
        { rewrite Forall_forall in Hwarn. apply (Hwarn _ H). reflexivity. }
        apply in_app_or in H. destruct H as [H|H].
        { pose proof (displayLinkAnalysis_levels (analysisOf d s) d) as F.
          rewrite Forall_forall in F. apply (F _ H). reflexivity. }
        apply provideLinkRecommendations_error in H. cbn in H. lia.
      * intros [u [[] _]].
Qed.

(** ** The distribution of the links *)

Lemma signed_not_nan (s : bool) (x : number) : signed s x -> x <> NaN.
Proof. intros H E. rewrite E in H. exact H. Qed.

Lemma binary_normalize_not_nan (m e : Z) (s : bool) :
  binary_normalize prec emax m e s <> NaN.
Proof.
  unfold binary_normalize. destruct m as [|p|p]; [discriminate| |];
    unfold binary_round; destruct (shl_align p e _) as [mz ez];
    eapply signed_not_nan; apply binary_round_aux_signed; lia.
Qed.

Lemma sub_not_nan (x y : number) :
  isFinite x = true -> y <> NaN -> sub x y <> NaN.
Proof.
  intros Hx Hy. unfold sub, SFsub.
  destruct x as [sx|sx| |sx mx ex]; try discriminate Hx;
    destruct y as [sy|sy| |sy my ey]; try discriminate; try (now elim Hy).
  - destruct sx, sy; discriminate.
  - apply binary_normalize_not_nan.
Qed.

Lemma internalRatio_signed (analysis : LinkAnalysis) :
  0 < total analysis -> (Z.of_nat (total analysis) < 2 ^ 53)%Z ->
  internal analysis <= total analysis ->
  signed false (internalRatio analysis).
Proof.
  intros Ht Hb Hi. unfold internalRatio.
  destruct (of_nat_small (total analysis) Ht Hb) as [m [e Et]].
  destruct (of_nat_small 100) as [m' [e' E100]]; [lia|cbn; lia|].
  rewrite Et, E100. apply mul_signed_finite, div_signed_finite.
  apply of_nat_finite. lia.
Qed.

(** X18.  The line "Link Distribution" is printed only when at least one
    link was counted, so the two percentages it formats with [toFixed]
    are numbers: no entry of [displayLinkAnalysis] formats NaN. *)
Theorem link_distribution_is_a_number (linkDetails : list LinkDetails)
    (seenUrls : list jsstring) :
  (Z.of_nat (length linkDetails) < 2 ^ 53)%Z ->
  forall (e : entry) (digits : nat) (x : number),
    In e (displayLinkAnalysis (analysisOf linkDetails seenUrls) linkDetails) ->
    In (Fixed digits x) (snd e) -> x <> NaN.
Proof.
  intros Hb e digits x He Hx.
  set (analysis := analysisOf linkDetails seenUrls) in *.
  assert (F : Forall (fun e : entry =>
                        forall digits x, In (Fixed digits x) (snd e) ->
                                         0 < total analysis /\
                                         (x = internalRatio analysis
                                          \/ x = sub (of_nat 100) (internalRatio analysis)))
                     (displayLinkAnalysis analysis linkDetails)).
  { unfold displayLinkAnalysis.
    repeat first
      [ apply Forall_nil
      | apply Forall_app; split
      | match goal with
        | |- Forall _ (if ?b then _ else _) => destruct b eqn:?
        | |- Forall _ (let x := _ in _) => cbv zeta
        | |- Forall _ (map _ _) =>
            let y := fresh "y" in
            let H := fresh "H" in
            apply Forall_forall; intros y H; apply in_map_iff in H;
            destruct H as [? [<- _]]
        | |- Forall _ (_ :: _) => apply Forall_cons
        end
      | match goal with
        | |- forall _ _, In _ _ -> _ =>
            let d := fresh "d" in
            let v := fresh "v" in
            let K := fresh "K" in
            intros d v K; cbn [snd In] in K;
            repeat (destruct K as [K|K];
                    [try discriminate K;
                     inversion K; subst;
                     (split; [apply Nat.ltb_lt; assumption|tauto])|]);
            destruct K
        end ]. }
  rewrite Forall_forall in F. destruct (F e He digits x Hx) as [Ht [-> | ->]].
  - apply (signed_not_nan false). apply internalRatio_signed; [exact Ht|exact Hb|].
    unfold analysis, analysisOf. cbn [internal total]. apply filter_length_le.
  - apply sub_not_nan; [reflexivity|].
    apply (signed_not_nan false). apply internalRatio_signed; [exact Ht|exact Hb|].
    unfold analysis, analysisOf. cbn [internal total]. apply filter_length_le.
Qed.

(* ===================================================================== *)
(** * Part XIX. More on the keyword and the content analyzer             *)
(* ===================================================================== *)

(** ** The list of keywords *)

Lemma join_In (sep : jsstring) (l : list jsstring) (p : jsstring) (x : ascii) :
  In p l -> In x p -> In x (join sep l).
Proof.
  induction l as [|a l IH]; [intros []|]. intros Hp Hx.
  destruct l as [|b l'].
  - destruct Hp as [->|[]]. exact Hx.
  - change (join sep (a :: b :: l')) with (a ++ sep ++ join sep (b :: l')).
    destruct Hp as [->|Hp]; [apply in_or_app; now left|].
    apply in_or_app. right. apply in_or_app. right. now apply IH.
Qed.

Lemma split_single_In (c : ascii) (s p : jsstring) (x : ascii) :
  In p (split_str [c] s) -> In x p -> In x s.
Proof.
  intros Hp Hx. rewrite <- (split_single_join c s). now apply (join_In _ _ p).
Qed.

Lemma filter_nil {A : Type} (f : A -> bool) (l : list A) :
  (forall x, In x l -> f x = false) -> filter f l = [].
Proof.
  induction l as [|a l IH]; intros H; simpl; [reflexivity|].
  rewrite (H a (or_introl eq_refl)). apply IH. intros x Hx. apply H. now right.
Qed.

(** X19.  The keywords that [analyzeKeywordUsage] analyzes are the pieces
    of the input between its commas, each trimmed, without the empty
    ones, in their order: a keyword is never empty, has no white space at
    either end and holds no comma, and there is at most one keyword more
    than there are commas. *)
Theorem splitKeywords_clean (keywordsInput : jsstring) :
  (exists pieces,
      join (js ",") pieces = keywordsInput
      /\ Forall (fun piece => ~ In ","%char piece) pieces
      /\ splitKeywords keywordsInput
         = filter (fun k => 0 <? length k) (map trim pieces))
  /\ Forall (fun keyword => keyword <> [] /\ trim keyword = keyword
                            /\ ~ In ","%char keyword)
            (splitKeywords keywordsInput)
  /\ length (splitKeywords keywordsInput)
     <= S (count_occ ascii_dec keywordsInput ","%char).
Proof.
  unfold splitKeywords. change (js ",") with [","%char]. split; [|split].
  - exists (split_str [","%char] keywordsInput).
    split; [apply split_single_join|]. split; [apply split_single_free|reflexivity].
  - apply Forall_forall. intros k Hk. apply filter_In in Hk. destruct Hk as [Hk Hl].
    apply in_map_iff in Hk. destruct Hk as [p [<- Hp]].
    split; [|split].
    + intros E. rewrite E in Hl. discriminate.
    + apply trim_idem.
    + pose proof (split_single_free ","%char keywordsInput) as F.
      rewrite Forall_forall in F. intros Hc. apply (F p Hp). now apply trim_In.
  - eapply Nat.le_trans; [apply filter_length_le|].
    rewrite length_map, split_single_length. lia.
Qed.

(** X20.  An input that holds nothing but commas and white space, with at
    least one comma, is not taken for an empty input: no error is logged,
    the run announces the analysis of 0 keywords and ends there. *)
Theorem analyzeKeywordUsage_only_commas (document : Document) (keywordsInput : jsstring) :
  In ","%char keywordsInput ->
  Forall (fun c => c = ","%char \/ isWhiteSpace c = true) keywordsInput ->
  splitKeywords keywordsInput = []
  /\ analyzeKeywordUsage document keywordsInput
     = ([(Info, [nl; Txt "Analyzing "; Int 0; Txt " keywords:"])], Returns tt).
Proof.
  intros Hc Hall.
  assert (Hk : splitKeywords keywordsInput = []).
  { unfold splitKeywords. apply filter_nil. intros k Hk.
    apply in_map_iff in Hk. destruct Hk as [p [<- Hp]].
    change (js ",") with [","%char] in Hp.
    assert (Hb : forallb isWhiteSpace p = true).
    { apply forallb_forall. intros x Hx.
      pose proof (split_single_In _ _ _ _ Hp Hx) as Hin.
      rewrite Forall_forall in Hall. destruct (Hall x Hin) as [->|Hw]; [|exact Hw].
      pose proof (split_single_free ","%char keywordsInput) as F.
      rewrite Forall_forall in F. elim (F p Hp Hx). }
    apply trim_blank in Hb. rewrite Hb. reflexivity. }
  split; [exact Hk|]. unfold analyzeKeywordUsage.
  assert (Ht : In ","%char (trim keywordsInput)) by (apply trim_keeps; trivial).
  destruct (trim keywordsInput) as [|c t]; [destruct Ht|].
  cbn [length Nat.eqb]. rewrite Hk. reflexivity.
Qed.

Lemma analyzeKeywordUsage_only_commas_witness :
  splitKeywords (js ", ,") = []
  /\ analyzeKeywordUsage catDogPage (js ", ,")
     = ([(Info, [nl; Txt "Analyzing "; Int 0; Txt " keywords:"])], Returns tt).
Proof.
  apply (analyzeKeywordUsage_only_commas catDogPage (js ", ,")).
  - simpl. left. reflexivity.
  - repeat constructor; (now left) || (right; reflexivity).
Defined.

(** ** The language of the page *)

Lemma takeWhile_Forall (p : ascii -> bool) (s : jsstring) :
  Forall (fun c => p c = true) (takeWhile p s).
Proof.
  induction s as [|c s IH]; simpl; [constructor|].
  destruct (p c) eqn:E; constructor; assumption.
Qed.

Lemma takeWhile_In (p : ascii -> bool) (s : jsstring) (c : ascii) :
  In c (takeWhile p s) -> In c s.
Proof.
  intros H. rewrite <- (takeWhile_dropWhile p s). apply in_or_app. now left.
Qed.

Lemma lower_fixed (s : jsstring) :
  Forall (fun c => toLowerChar c = c) s -> toLowerCase s = s.
Proof.
  induction 1 as [|c s Hc _ IH]; [reflexivity|].
  unfold toLowerCase in *. simpl. now rewrite Hc, IH.
Qed.

(** X21.  The language [analyzeContent] works with is the [lang]
    attribute of the page in lower case up to its first hyphen, and "en"
    when that is empty (no attribute, or one that starts with a hyphen):
    it is never empty, holds no hyphen and no upper-case letter. *)
Theorem languageOf_spec (document : Document) :
  languageOf document
  = match takeWhile (fun c => negb (Ascii.eqb "-" c)) (toLowerCase (lang document)) with
    | [] => js "en"
    | l => l
    end
  /\ languageOf document <> []
  /\ ~ In "-"%char (languageOf document)
  /\ toLowerCase (languageOf document) = languageOf document.
Proof.
  assert (E : languageOf document
              = match takeWhile (fun c => negb (Ascii.eqb "-" c))
                                (toLowerCase (lang document)) with
                | [] => js "en"
                | l => l
                end).
  { unfold languageOf. change (js "-") with ["-"%char]. unfold split_str.
    rewrite split_go_single_first. reflexivity. }
  rewrite E. split; [reflexivity|].
  pose proof (takeWhile_Forall (fun c => negb (Ascii.eqb "-" c))
                               (toLowerCase (lang document))) as F.
  assert (L : Forall (fun c => toLowerChar c = c)
                     (takeWhile (fun c => negb (Ascii.eqb "-" c))
                                (toLowerCase (lang document)))).
  { apply Forall_forall. intros c Hc. apply takeWhile_In in Hc.
    unfold toLowerCase in Hc. apply in_map_iff in Hc. destruct Hc as [x [<- _]].
    apply toLowerChar_idem. }
  destruct (takeWhile _ (toLowerCase (lang document))) as [|c l].
  - split; [discriminate|]. split; [|reflexivity].
    simpl. intros [H|[H|[]]]; discriminate.
  - split; [discriminate|]. split; [|now apply lower_fixed].
    intros H. rewrite Forall_forall in F. specialize (F _ H).
    simpl in F. discriminate.
Qed.

(** ** Syllables and words *)

Lemma dropWhile_lower (s : jsstring) :
  dropWhile isWhiteSpace (toLowerCase s) = toLowerCase (dropWhile isWhiteSpace s).
Proof.
  induction s as [|c s IH]; [reflexivity|]. cbn [toLowerCase map dropWhile].
  rewrite toLowerChar_white. destruct (isWhiteSpace c); [exact IH|reflexivity].
Qed.

Lemma split_from_lower :
  forall fuel cur prev prev' s,
    split_from fuel re_spaces (toLowerCase cur) prev' (toLowerCase s)
    = map toLowerCase (split_from fuel re_spaces cur prev s).
Proof.
  induction fuel as [|fuel IH]; intros cur prev prev' s; cbn [split_from].
  - unfold toLowerCase. cbn [map]. now rewrite map_app, map_rev.
  - destruct s as [|c s].
    + unfold toLowerCase. cbn [map]. now rewrite map_rev.
    + change (toLowerCase (c :: s)) with (toLowerChar c :: toLowerCase s).
      rewrite !exec_at_spaces, toLowerChar_white.
      destruct (isWhiteSpace c).
      * cbn [map]. f_equal; [unfold toLowerCase; now rewrite map_rev|].
        rewrite dropWhile_lower. apply (IH []).
      * apply (IH (c :: cur)).
Qed.

Lemma split_spaces_lower (s : jsstring) :
  split_re re_spaces (toLowerCase s) = map toLowerCase (split_re re_spaces s).
Proof.
  unfold split_re. destruct s as [|c s]; [reflexivity|].
  change (toLowerCase (c :: s)) with (toLowerChar c :: toLowerCase s).
  cbn [length]. rewrite toLowerCase_length.
  apply (split_from_lower _ [] None None (c :: s)).
Qed.

Lemma syllables_sum (words : list jsstring) :
  forall total,
    total + length words
    <= fold_left (fun total word => total + countWordSyllables word) words total.
Proof.
  induction words as [|w words IH]; intros total; cbn [fold_left length]; [lia|].
  pose proof (countWordSyllables_positive w).
  specialize (IH (total + countWordSyllables w)). lia.
Qed.

(** X22.  The syllable count of a text is at least its word count, and at
    least 1: every piece between runs of white space counts for one
    syllable or more, the empty pieces included, so that the empty text
    has no word and one syllable. *)
Theorem countSyllables_lower_bound (text : jsstring) :
  1 <= countSyllables text
  /\ length (wordsOf text) <= countSyllables text
  /\ length (split_re re_spaces text) <= countSyllables text
  /\ countSyllables [] = 1 /\ wordsOf [] = [].
Proof.
  assert (H : length (split_re re_spaces text) <= countSyllables text).
  { unfold countSyllables. rewrite split_spaces_lower.
    pose proof (syllables_sum (map toLowerCase (split_re re_spaces text)) 0) as S.
    rewrite length_map in S. exact S. }
  pose proof (split_spaces_inhabited text).
  split; [lia|]. split; [|split; [exact H|split; reflexivity]].
  unfold wordsOf. eapply Nat.le_trans; [apply filter_length_le|exact H].
Qed.

(** ** A keyword that does not occur *)

(** Finding an entry in a log that is written as a concatenation. *)
Ltac in_app :=
  first [ left; reflexivity
        | right; in_app
        | apply in_or_app; first [ left; in_app | right; in_app ] ].

(** X23.  When [analyzeKeyword] finds no occurrence of the keyword in the
    body text, the density is 0 (not NaN: the body always counts at least
    one word), and the report says so: it has the error "No keyword
    occurrences found" and the warning that the density is too low, and
    the recommendations ask to add the keyword and to use it more. *)
Theorem absent_keyword_report (document : Document) (keyword : jsstring)
    (r : KeywordAnalysis) :
  analyzeKeyword document keyword = Returns r ->
  count r = 0 ->
  (Z.of_nat (length (split_re re_spaces keyword)) < 2 ^ 53)%Z ->
  (Z.of_nat (length (split_re re_spaces (normalizeText (bodyText document)))) < 2 ^ 53)%Z ->
  density r = of_nat 0
  /\ occurrences r = []
  /\ In (Error, [Txt "No keyword occurrences found"]) (displayResults r keyword)
  /\ In (Warn, [Txt "Density is too low (aim for 0.5% - 2.5%)"])
        (displayResults r keyword)
  /\ In "Add the keyword to your content"%string (recommendations_of r)
  /\ In "Increase keyword usage naturally throughout the content"%string
        (recommendations_of r).
Proof.
  intros H Hc Hb Hw. pose proof (analyzeKeyword_analyzable _ _ _ H) as Hk.
  rewrite (analyzeKeyword_returns _ _ Hk) in H. inversion H as [Hr]. clear H.
  subst r. cbn [count] in Hc.
  set (r := mkKeywordAnalysis _ _ _ _ _ _ _ _ _ _) in *.
  assert (Hd : density r = of_nat 0).
  { unfold r. cbn [density]. rewrite Hc. unfold densityOf.
    destruct (of_nat_small (length (split_re re_spaces keyword))) as [mb [eb Eb]];
      [apply split_spaces_inhabited|exact Hb|].
    destruct (of_nat_small
                (length (split_re re_spaces (normalizeText (bodyText document)))))
      as [mc [ec Ec]]; [apply split_spaces_inhabited|exact Hw|].
    rewrite Eb, Ec. reflexivity. }
  assert (Ho : occurrences r = []).
  { unfold r. cbn [occurrences]. now apply length_zero_iff_nil. }
  assert (Hc' : count r = 0) by exact Hc.
  clearbody r. clear Hc. rename Hc' into Hc.
  split; [exact Hd|]. split; [exact Ho|].
  assert (Hlt : lt (of_nat 0) (dec 5 1) = true) by (vm_compute; reflexivity).
  split; [|split; [|split]].
  - unfold displayResults. rewrite Hc. change (0 <? 0) with false. cbv iota.
    in_app.
  - unfold displayResults. rewrite Hd, Hlt. in_app.
  - unfold recommendations_of. rewrite Hc. cbn [Nat.eqb]. in_app.
  - unfold recommendations_of. rewrite Hd, Hlt. in_app.
Qed.

Lemma absent_keyword_report_witness :
  exists r,
    analyzeKeyword catDogPage (js "bird") = Returns r
    /\ density r = of_nat 0
    /\ In (Warn, [Txt "Density is too low (aim for 0.5% - 2.5%)"])
          (displayResults r (js "bird")).
Proof.
  destruct (analyzeKeyword catDogPage (js "bird")) as [r|] eqn:Hr;
    [|vm_compute in Hr; discriminate].
  exists r. split; [reflexivity|].
  destruct (absent_keyword_report catDogPage (js "bird") r Hr) as [Hd [_ [_ [Hw _]]]].
  - vm_compute in Hr. injection Hr as <-. reflexivity.
  - vm_compute. reflexivity.
  - vm_compute. reflexivity.
  - split; assumption.
Defined.

(** ** The structure of the content *)

Lemma checkSentences_nil improveText (index : nat) (sentences : list jsstring) :
  checkSentences improveText index sentences = []
  <-> Forall (fun sentence => length (split_re re_spaces (trim sentence)) <= 20)
             sentences.
Proof.
  induction sentences as [|s l IH]; cbn [checkSentences].
  - split; [constructor|reflexivity].
  - destruct (Nat.ltb_spec 20 (length (split_re re_spaces (trim s)))) as [L|L].
    + split; [discriminate|]. intros F. inversion F; subst. lia.
    + cbn [app]. rewrite IH. split.
      * intros F. constructor; assumption.
      * intros F. now inversion F.
Qed.

(** X24.  The section "Content Structure Analysis" of the content report
    has no entry exactly when no paragraph has more than 40 words and no
    sentence more than 20, whatever the text-improvement service would
    answer: suggestions are asked for only after a warning about a long
    paragraph or a long sentence. *)
Theorem structure_analysis_silent
    (improveText : jsstring -> textKind -> constraints -> improved)
    (paragraphs : list jsstring) (index : nat) :
  checkParagraphs improveText index paragraphs = []
  <-> Forall (fun paragraph =>
                length (wordsOf (trim paragraph)) <= 40
                /\ Forall (fun sentence =>
                             length (split_re re_spaces (trim sentence)) <= 20)
                          (sentencesOf (trim paragraph)))
             paragraphs.
Proof.
  revert index. induction paragraphs as [|p l IH]; intros index;
    cbn [checkParagraphs].
  - split; [constructor|reflexivity].
  - cbv zeta.
    assert (Hp : (if length (trim p) =? 0 then []
                  else
                    (if 40 <? length (wordsOf (trim p)) then
                       (Warn, [Txt "Paragraph "; Int (index + 1); Txt " is quite long (";
                               Int (length (wordsOf (trim p))); Txt " words)."])
                       :: suggest improveText (trim p) KParagraph
                            (mkConstraints None (Some (js "grade 8")))
                     else [])
                    ++ checkSentences improveText index (sentencesOf (trim p)))
                 = []
                 <-> length (wordsOf (trim p)) <= 40
                     /\ Forall (fun sentence =>
                                  length (split_re re_spaces (trim sentence)) <= 20)
                               (sentencesOf (trim p))).
    { destruct (trim p) as [|c t] eqn:Et.
      - cbn [length Nat.eqb]. split; [|reflexivity]. intros _.
        split; [vm_compute; lia|vm_compute; constructor].
      - cbn [length Nat.eqb]. rewrite <- Et.
        destruct (Nat.ltb_spec 40 (length (wordsOf (trim p)))) as [L|L].
        + split; [discriminate|]. intros [K _]. lia.
        + cbn [app]. rewrite checkSentences_nil. split; [intros F; split; [lia|exact F]|].
          now intros [_ F]. }
    split.
    + intros H. apply app_eq_nil in H. destruct H as [H1 H2].
      constructor; [now apply Hp|now apply (IH (S index))].
    + intros F. inversion F; subst.
      apply Hp in H1. apply (IH (S index)) in H2. rewrite H1, H2. reflexivity.
Qed.

(** X18, on a page with an internal and an external link: 50 and 50. *)
Lemma link_distribution_is_a_number_witness :
  (Z.of_nat 2 < 2 ^ 53)%Z
  /\ LinkAnalyzer.internalRatio
       (LinkAnalyzer.analysisOf
          [LinkAnalyzer.mkLinkDetails (js "/about") (js "About us") true false true;
           LinkAnalyzer.mkLinkDetails (js "http://example.org/") (js "Example") false
                                      false true]
          [js "/about"; js "http://example.org/"])
     <> NaN.
Proof.
  split; [vm_compute; reflexivity|].
  apply (link_distribution_is_a_number
           [LinkAnalyzer.mkLinkDetails (js "/about") (js "About us") true false true;
            LinkAnalyzer.mkLinkDetails (js "http://example.org/") (js "Example") false
                                       false true]
           [js "/about"; js "http://example.org/"]
           ltac:(vm_compute; reflexivity)
           (Info, [nl; Txt "Link Distribution: ";
                   Fixed 1 (LinkAnalyzer.internalRatio
                              (LinkAnalyzer.analysisOf
                                 [LinkAnalyzer.mkLinkDetails (js "/about") (js "About us")
                                                             true false true;
                                  LinkAnalyzer.mkLinkDetails (js "http://example.org/")
                                                             (js "Example") false false
                                                             true]
                                 [js "/about"; js "http://example.org/"]));
                   Txt "% internal, "; Fixed 1 (of_nat 50); Txt "% external"])
           1).
  - vm_compute. do 5 right. left. reflexivity.
  - simpl. right. right. left. reflexivity.
Defined.

(** ** The words of a text *)

Lemma dropWhile_filter (s : jsstring) :
  filter (fun c => negb (isWhiteSpace c)) (dropWhile isWhiteSpace s)
  = filter (fun c => negb (isWhiteSpace c)) s.
Proof.
  induction s as [|c s IH]; simpl; [reflexivity|].
  destruct (isWhiteSpace c) eqn:E; simpl; [exact IH|]. now rewrite E.
Qed.

(** The pieces between the runs of white space hold no white space, and
    together they are the text without its white space. *)
Lemma split_from_spaces_spec :
  forall fuel cur prev s,
    2 * length s + (match cur with [] => 0 | _ => 1 end) < fuel ->
    Forall (fun c => isWhiteSpace c = false) cur ->
    Forall (Forall (fun c => isWhiteSpace c = false))
           (split_from fuel re_spaces cur prev s)
    /\ concat (split_from fuel re_spaces cur prev s)
       = rev cur ++ filter (fun c => negb (isWhiteSpace c)) s.
Proof.
  induction fuel as [|fuel IH]; intros cur prev s Hf Hc; [lia|].
  assert (Hr : Forall (fun c => isWhiteSpace c = false) (rev cur)).
  { apply Forall_forall. intros x Hx. apply in_rev in Hx.
    rewrite Forall_forall in Hc. now apply Hc. }
  cbn [split_from]. destruct s as [|c s].
  - cbn. rewrite app_nil_r. split; [repeat constructor; exact Hr|reflexivity].
  - rewrite exec_at_spaces. cbn [length] in Hf. cbn [filter].
    destruct (isWhiteSpace c) eqn:E; cbn [negb].
    + destruct (IH [] (last_of prev (c :: takeWhile isWhiteSpace s))
                   (dropWhile isWhiteSpace s)) as [I1 I2].
      * pose proof (dropWhile_length isWhiteSpace s). cbn. lia.
      * constructor.
      * split; [constructor; assumption|].
        cbn [concat]. rewrite I2. cbn [rev app]. now rewrite dropWhile_filter.
    + destruct (IH (c :: cur) (Some c) s) as [I1 I2].
      * destruct cur; lia.
      * constructor; assumption.
      * split; [exact I1|]. rewrite I2. cbn [rev]. now rewrite <- app_assoc.
Qed.

Lemma concat_nonempty (l : list jsstring) :
  concat (filter (fun w => 0 <? length w) l) = concat l.
Proof.
  induction l as [|w l IH]; [reflexivity|].
  destruct w as [|c w]; [exact IH|].
  change (filter (fun w => 0 <? length w) ((c :: w) :: l))
    with ((c :: w) :: filter (fun w => 0 <? length w) l).
  cbn [concat]. now rewrite IH.
Qed.

Lemma split_spaces_spec (text : jsstring) :
  Forall (Forall (fun c => isWhiteSpace c = false)) (split_re re_spaces text)
  /\ concat (split_re re_spaces text) = filter (fun c => negb (isWhiteSpace c)) text.
Proof.
  unfold split_re. destruct text as [|c s].
  - rewrite exec_at_spaces. cbn. split; [repeat constructor|reflexivity].
  - apply (split_from_spaces_spec _ [] None (c :: s)); [lia|constructor].
Qed.

(** X25.  The words that [calculateMetrics], [calculateLIX] and the
    paragraph check count are the maximal runs of code units that are not
    white space: no word is empty, no word holds white space, and the
    words, one after the other, are the text without its white space. *)
Theorem wordsOf_spec (text : jsstring) :
  Forall (fun word => word <> [] /\ Forall (fun c => isWhiteSpace c = false) word)
         (wordsOf text)
  /\ concat (wordsOf text) = filter (fun c => negb (isWhiteSpace c)) text.
Proof.
  destruct (split_spaces_spec text) as [H1 H2]. unfold wordsOf. split.
  - apply Forall_forall. intros w Hw. apply filter_In in Hw. destruct Hw as [Hw Hl].
    split; [intros E; rewrite E in Hl; discriminate|].
    rewrite Forall_forall in H1. now apply H1.
  - now rewrite concat_nonempty.
Qed.

(** ** The normalized text *)


(** ** The brand segment of a title *)

Import TitleAnalyzer SeoAnalyzer.

Lemma takeWhile_app_all (p : ascii -> bool) (l r : jsstring) :
  Forall (fun c => p c = true) l -> takeWhile p (l ++ r) = l ++ takeWhile p r.
Proof.
  induction 1 as [|c l Hc _ IH]; [reflexivity|]. cbn. now rewrite Hc, IH.
Qed.

Lemma takeWhile_app_stop (p : ascii -> bool) (l r : jsstring) :
  (exists c, In c l /\ p c = false) -> takeWhile p (l ++ r) = takeWhile p l.
Proof.
  induction l as [|x l IH]; intros [c [Hc Hp]]; [destruct Hc|]. cbn.
  destruct (p x) eqn:E; [|reflexivity]. f_equal. apply IH.
  destruct Hc as [->|Hc]; [congruence|]. exists c. tauto.
Qed.

Lemma last_cons_inhabited {A : Type} (a : A) (l : list A) (d : A) :
  l <> [] -> last (a :: l) d = last l d.
Proof. destruct l; [congruence|reflexivity]. Qed.

(** The last piece is the text after the last separator. *)
Lemma split_go_single_last (c : ascii) (s : jsstring) :
  forall cur,
    last (split_go [c] 0 cur s) []
    = if in_dec ascii_dec c s
      then rev (takeWhile (fun x => negb (Ascii.eqb c x)) (rev s))
      else rev cur ++ s.
Proof.
  induction s as [|x s IH]; intros cur.
  - cbn. now rewrite app_nil_r.
  - cbn [split_go startsWith length Nat.sub rev].
    destruct (ascii_dec c x) as [->|Hx].
    + rewrite last_cons_inhabited by apply split_go_single_inhabited.
      rewrite (IH []).
      destruct (in_dec ascii_dec x (x :: s)) as [_|N]; [|elim N; now left].
      destruct (in_dec ascii_dec x s) as [I|N].
      * rewrite takeWhile_app_stop; [reflexivity|].
        exists x. split; [now apply in_rev in I|]. now rewrite Ascii.eqb_refl.
      * rewrite takeWhile_app_all.
        -- cbn. rewrite Ascii.eqb_refl. cbn. now rewrite app_nil_r, rev_involutive.
        -- apply Forall_forall. intros y Hy. apply in_rev in Hy.
           destruct (Ascii.eqb_spec x y) as [->|_]; [contradiction|reflexivity].
    + rewrite (IH (x :: cur)).
      destruct (in_dec ascii_dec c s) as [I|N];
        destruct (in_dec ascii_dec c (x :: s)) as [I'|N'].
      * rewrite takeWhile_app_stop; [reflexivity|].
        exists c. split; [now apply in_rev in I|]. now rewrite Ascii.eqb_refl.
      * elim N'. now right.
      * destruct I' as [->|I']; [elim Hx; reflexivity|contradiction].
      * cbn [rev]. now rewrite <- app_assoc.
Qed.

Lemma nth_last {A : Type} (l : list A) (d : A) : nth (length l - 1) l d = last l d.
Proof.
  induction l as [|a l IH]; [reflexivity|]. destruct l as [|b l]; [reflexivity|].
  cbn [length Nat.sub] in *. rewrite Nat.sub_0_r in IH. exact IH.
Qed.

Lemma last_map_trim (l : list jsstring) : last (map trim l) [] = trim (last l []).
Proof.
  induction l as [|a l IH]; [reflexivity|]. destruct l as [|b l]; [reflexivity|].
  exact IH.
Qed.

(** X27.  When the title has a separator, [analyzeTitle] warns that the
    brand segment seems too short exactly when fewer than three code
    units are left of the text after the last occurrence of the separator
    once it is trimmed; a title that ends with its separator always gets
    the warning. *)
Theorem brand_segment_warning (title : jsstring) (c : ascii) :
  separator (analyzeTitleFormat title) = Some [c] ->
  (In (Warn, [Txt "Brand segment seems too short. Make sure brand name is included at the ";
              Txt "end"])
      (analyzeTitle title)
   <-> length (trim (rev (takeWhile (fun x => negb (Ascii.eqb c x)) (rev title)))) < 3).
Proof.
  intros H. apply separator_found in H. destruct H as [_ [Hin Heq]].
  assert (Hc : In c title) by now apply includes_single.
  assert (Hb : nth (length (map trim (split_str [c] title)) - 1)
                   (map trim (split_str [c] title)) []
               = trim (rev (takeWhile (fun x => negb (Ascii.eqb c x)) (rev title)))).
  { rewrite nth_last, last_map_trim. unfold split_str.
    rewrite split_go_single_last.
    destruct (in_dec ascii_dec c title); [reflexivity|contradiction]. }
  unfold analyzeTitle. rewrite Heq. cbn [hasSeparator segments separator negb].
  change (String.eqb BRAND_POSITION_END "end") with true. cbv iota zeta.
  rewrite Hb. change BRAND_POSITION_END with "end"%string.
  destruct title as [|t0 title'] eqn:Et; [destruct Hc|]. rewrite <- Et in *.
  replace (length title =? 0) with false by (rewrite Et; reflexivity).
  set (brand := trim (rev (takeWhile (fun x => negb (Ascii.eqb c x)) (rev title)))).
  split.
  - intros K. apply in_app_or in K. destruct K as [K|K].
    { destruct K as [K|[]]. destruct (_ <? _); [|destruct (_ <? _)]; discriminate. }
    apply in_app_or in K. destruct K as [[K|[]]|K]; [discriminate|].
    apply in_app_or in K. destruct K as [[K|[]]|K]; [discriminate|].
    apply in_app_or in K. destruct K as [K|K].
    { destruct (_ <? _); [destruct K as [K|[]]; discriminate|destruct K]. }
    apply in_app_or in K. destruct K as [K|K].
    { destruct (Nat.ltb_spec (length brand) 3) as [L|L]; [exact L|destruct K]. }
    apply in_app_or in K. destruct K as [[K|[]]|K]; [discriminate|].
    apply in_map_iff in K. destruct K as [x [K _]]. discriminate.
  - intros L. apply Nat.ltb_lt in L. rewrite L. in_app.
Qed.

Lemma brand_segment_warning_witness :
  In (Warn, [Txt "Brand segment seems too short. Make sure brand name is included at the ";
             Txt "end"])
     (analyzeTitle (js "Solar energy guide |"))
  <-> length (trim (rev (takeWhile (fun x => negb (Ascii.eqb "|" x))
                                   (rev (js "Solar energy guide |"))))) < 3.
Proof.
  apply (brand_segment_warning (js "Solar energy guide |") "|"%char). reflexivity.
Defined.

(** ** The sentences of a text *)

Lemma accepts_terminator (c : ascii) :
  xorb false (accepts false (class_mem (oneof ".!?")) c) = isTerminator c.
Proof. each_ascii c. Qed.

Lemma exec_at_sentence_end (prev : option ascii) (s : jsstring) :
  exec_at false re_sentence_end prev s
  = match s with
    | c :: s' =>
        if isTerminator c
        then Some (c :: takeWhile isTerminator s', dropWhile isTerminator s')
        else None
    | [] => None
    end.
Proof.
  unfold re_sentence_end. rewrite exec_at_plus_class.
  destruct s as [|c s]; [reflexivity|]. rewrite accepts_terminator.
  rewrite (takeWhile_ext _ isTerminator s accepts_terminator).
  rewrite (dropWhile_ext _ isTerminator s accepts_terminator). reflexivity.
Qed.

Lemma dropWhile_filter_not (p : ascii -> bool) (s : jsstring) :
  filter (fun c => negb (p c)) (dropWhile p s) = filter (fun c => negb (p c)) s.
Proof.
  induction s as [|c s IH]; simpl; [reflexivity|].
  destruct (p c) eqn:E; simpl; [exact IH|]. now rewrite E.
Qed.

(** The pieces between the runs of terminators hold no terminator, and
    together they are the text without its terminators. *)
Lemma split_from_sentences_spec :
  forall fuel cur prev s,
    2 * length s + (match cur with [] => 0 | _ => 1 end) < fuel ->
    Forall (fun c => isTerminator c = false) cur ->
    Forall (Forall (fun c => isTerminator c = false))
           (split_from fuel re_sentence_end cur prev s)
    /\ concat (split_from fuel re_sentence_end cur prev s)
       = rev cur ++ filter (fun c => negb (isTerminator c)) s.
Proof.
  induction fuel as [|fuel IH]; intros cur prev s Hf Hc; [lia|].
  assert (Hr : Forall (fun c => isTerminator c = false) (rev cur)).
  { apply Forall_forall. intros x Hx. apply in_rev in Hx.
    rewrite Forall_forall in Hc. now apply Hc. }
  cbn [split_from]. destruct s as [|c s].
  - cbn. rewrite app_nil_r. split; [repeat constructor; exact Hr|reflexivity].
  - rewrite exec_at_sentence_end. cbn [length] in Hf. cbn [filter].
    destruct (isTerminator c) eqn:E; cbn [negb].
    + destruct (IH [] (last_of prev (c :: takeWhile isTerminator s))
                   (dropWhile isTerminator s)) as [I1 I2].
      * pose proof (dropWhile_length isTerminator s). cbn. lia.
      * constructor.
      * split; [constructor; assumption|].
        cbn [concat]. rewrite I2. cbn [rev app]. now rewrite dropWhile_filter_not.
    + destruct (IH (c :: cur) (Some c) s) as [I1 I2].
      * destruct cur; lia.
      * constructor; assumption.
      * split; [exact I1|]. rewrite I2. cbn [rev]. now rewrite <- app_assoc.
Qed.


Lemma split_sentences_spec (text : jsstring) :
  Forall (Forall (fun c => isTerminator c = false)) (split_re re_sentence_end text)
  /\ concat (split_re re_sentence_end text)
     = filter (fun c => negb (isTerminator c)) text.
Proof.
  unfold split_re. destruct text as [|c s].
  - rewrite exec_at_sentence_end. cbn. split; [repeat constructor|reflexivity].
  - apply (split_from_sentences_spec _ [] None (c :: s)); [lia|constructor].
Qed.


(** ** A text of punctuation *)

Lemma of_nat_signed (n : nat) : signed false (of_nat n).
Proof.
  unfold of_nat, of_Z, binary_normalize.
  destruct (Z.of_nat n) as [|p|p] eqn:E; [reflexivity| |lia].
  unfold binary_round. destruct (shl_align p 0 _) as [mz ez].
  apply binary_round_aux_signed. lia.
Qed.

Lemma finite_mul_signed (m : positive) (e : Z) (y : number) :
  signed false y -> signed false (mul (S754_finite false m e) y).
Proof.
  destruct y as [sy|sy| |sy my ey]; simpl; intros Hy; subst; trivial.
  apply binary_round_aux_signed. lia.
Qed.

Lemma sub_minus_infinity (y : number) :
  signed false y -> sub (S754_infinity true) y = S754_infinity true.
Proof. destruct y as [sy|sy| |sy my ey]; simpl; intros Hy; subst; trivial; contradiction. Qed.

Lemma add_infinity (y : number) :
  signed false y -> add (S754_infinity false) y = S754_infinity false.
Proof. destruct y as [sy|sy| |sy my ey]; simpl; intros Hy; subst; trivial; contradiction. Qed.

Lemma concat_In (l : list jsstring) (p : jsstring) (c : ascii) :
  In p l -> In c p -> In c (concat l).
Proof. intros Hp Hc. apply in_concat. exists p. tauto. Qed.

(** X29.  A text that has a word but whose code units other than white
    space are all ".", "!" or "?" has no sentence: the average number of
    words per sentence is a division by zero, plus infinity, and so is
    the LIX, while the Flesch reading ease is minus infinity, which
    [Math.round] leaves as it is and the report prints as "-Infinity". *)
Theorem punctuation_only_text (text language : jsstring) :
  (exists c, In c text /\ isWhiteSpace c = false) ->
  Forall (fun c => isWhiteSpace c = true \/ isTerminator c = true) text ->
  (Z.of_nat (length (wordsOf text)) < 2 ^ 53)%Z ->
  totalSentences (calculateMetrics text language) = 0
  /\ 1 <= totalWords (calculateMetrics text language)
  /\ averageWordsPerSentence (calculateMetrics text language) = S754_infinity false
  /\ lix (calculateMetrics text language) = S754_infinity false
  /\ fleschEase (calculateMetrics text language) = S754_infinity true
  /\ Log.toString (round (fleschEase (calculateMetrics text language)))
     = Some "-Infinity"%string.
Proof.
  intros [c [Hc Hnw]] Hall Hb.
  assert (Hs : sentencesOf text = []).
  { unfold sentencesOf. apply filter_nil. intros piece Hp.
    destruct (split_sentences_spec text) as [_ H2].
    assert (Hblank : forallb isWhiteSpace piece = true).
    { apply forallb_forall. intros x Hx.
      pose proof (concat_In _ _ _ Hp Hx) as K. rewrite H2 in K.
      apply filter_In in K. destruct K as [K1 K2].
      rewrite Forall_forall in Hall. destruct (Hall x K1) as [W|T]; [exact W|].
      rewrite T in K2. discriminate. }
    apply trim_blank in Hblank. now rewrite Hblank. }
  assert (Hw : 1 <= length (wordsOf text)).
  { destruct (split_spaces_spec text) as [_ H2].
    assert (K : In c (concat (wordsOf text))).
    { unfold wordsOf. rewrite concat_nonempty, H2. apply filter_In.
      split; [exact Hc|]. now rewrite Hnw. }
    destruct (wordsOf text); [destruct K|simpl; lia]. }
  destruct (of_nat_small (length (wordsOf text)) Hw Hb) as [m [e Ew]].
  assert (Ha : averageWordsPerSentence (calculateMetrics text language)
               = S754_infinity false).
  { unfold calculateMetrics. cbn [averageWordsPerSentence]. rewrite Hs, Ew. reflexivity. }
  assert (Hf : fleschEase (calculateMetrics text language) = S754_infinity true).
  { unfold calculateMetrics. cbn [fleschEase]. rewrite Hs, Ew.
    change (div (S754_finite false m e) (of_nat (length (@nil jsstring))))
      with (S754_infinity false).
    change (sub (dec 206835 3) (mul (dec 1015 3) (S754_infinity false)))
      with (S754_infinity true).
    apply sub_minus_infinity.
    assert (E846 : exists m' e', dec 846 1 = S754_finite false m' e')
      by (vm_compute; eauto).
    destruct E846 as [m' [e' ->]].
    apply finite_mul_signed, div_signed_finite, of_nat_signed. }
  split; [unfold calculateMetrics; cbn [totalSentences]; now rewrite Hs|].
  split; [unfold calculateMetrics; cbn [totalWords]; exact Hw|].
  split; [exact Ha|]. split; [|split; [exact Hf|now rewrite Hf]].
  unfold calculateMetrics. cbn [lix]. unfold calculateLIX. rewrite Hs, Ew.
  change (div (S754_finite false m e) (of_nat (length (@nil jsstring))))
    with (S754_infinity false).
  apply add_infinity. apply div_signed_finite.
  destruct (of_nat_small 100) as [m' [e' E100]]; [lia|cbn; lia|].
  rewrite E100. apply mul_signed_finite, of_nat_signed.
Qed.

Lemma punctuation_only_text_witness :
  totalWords (calculateMetrics (js "... ?!") (js "en")) = 2
  /\ totalSentences (calculateMetrics (js "... ?!") (js "en")) = 0
  /\ Log.toString (round (fleschEase (calculateMetrics (js "... ?!") (js "en"))))
     = Some "-Infinity"%string.
Proof.
  split; [reflexivity|].
  destruct (punctuation_only_text (js "... ?!") (js "en")) as [H1 [_ [_ [_ [_ H6]]]]].
  - exists "."%char. split; [simpl; tauto|reflexivity].
  - repeat constructor; (now left) || (now right).
  - vm_compute. reflexivity.
  - split; assumption.
Defined.

(** ** A keyword of punctuation *)

Lemma exec_at_boundaries (prev : option ascii) (s m rest : jsstring) :
  exec_at true (RSeq (RWordB false) (RWordB false)) prev s = Some (m, rest) -> m = [].
Proof.
  unfold exec_at. cbn [rmatch]. cbv zeta.
  destruct (xorb false (xorb (isWordChar prev) (isWordChar (hd_error s))));
    [|discriminate].
  unfold kend. intros H. inversion H. now rewrite Nat.sub_diag.
Qed.

Lemma match_all_boundaries :
  forall fuel prev s,
    Forall (fun m => m = [])
           (match_all_from fuel true (RSeq (RWordB false) (RWordB false)) prev s).
Proof.
  induction fuel as [|fuel IH]; intros prev s; cbn [match_all_from]; [constructor|].
  destruct (exec_at true (RSeq (RWordB false) (RWordB false)) prev s)
    as [[m rest]|] eqn:E.
  - apply exec_at_boundaries in E. subst m. constructor; [reflexivity|].
    destruct s; [constructor|apply IH].
  - destruct s; [constructor|apply IH].
Qed.

(** X30.  A keyword that [normalizeText] turns into the empty string (a
    keyword of punctuation, such as "-" or "...") is analyzed without an
    exception as the empty word: every occurrence that is reported is
    the empty string, found between two word boundaries, and the keyword
    counts as found in the URL of every page. *)
Theorem blank_keyword_analysis (document : Document) (keyword : jsstring) :
  normalizeText keyword = [] ->
  exists r,
    analyzeKeyword document keyword = Returns r
    /\ Forall (fun occurrence => occurrence = []) (occurrences r)
    /\ count r = length (occurrences r)
    /\ inUrl r = true.
Proof.
  intros Hn.
  assert (Hk : analyzable keyword = true).
  { unfold analyzable. rewrite Hn. reflexivity. }
  rewrite (analyzeKeyword_returns _ _ Hk). eexists. split; [reflexivity|].
  cbn [occurrences count inUrl]. split; [|split; [reflexivity|]].
  - unfold found, findKeywordOccurrences. rewrite Hn.
    change (length (split_str (js " ") []) =? 1) with true. cbv iota.
    change (compile (js "\b" ++ [] ++ js "\b"))
      with (Pattern (RSeq (RWordB false) (RWordB false))).
    cbv iota. unfold match_g.
    pose proof (match_all_boundaries (S (length (bodyText document))) None
                                     (bodyText document)) as F.
    destruct (match_all_from _ true _ None (bodyText document)); [constructor|exact F].
  - rewrite Hn, replace_g_spaces. cbn [squeeze]. unfold includes.
    destruct (normalizeText (orEmpty (pathname document))); reflexivity.
Qed.

Lemma blank_keyword_analysis_witness :
  exists r,
    analyzeKeyword catDogPage (js "-") = Returns r
    /\ Forall (fun occurrence => occurrence = []) (occurrences r)
    /\ count r = length (occurrences r)
    /\ inUrl r = true.
Proof.
  apply (blank_keyword_analysis catDogPage (js "-")). reflexivity.
Defined.
